(** * modernize.py: a verification model

    A shallow embedding of [_tools/modernize.py], the script that strips
    Sandvox markup from the Mighty Cheese site and re-wraps every page in an
    HTML5 shell.

    Conventions of the model:
    - a Python [str] is a [list ascii]; a character stands for the code point
      of the same number, so the model covers texts over U+0000..U+00FF;
    - positions and counters are [Z], exactly as the Python integers they
      model ([str.find] answers [-1], slices clamp their bounds);
    - a [while] loop is a [Fixpoint] over a fuel argument that returns
      [None] when the fuel runs out; the theorems say when fuel suffices;
    - regular expressions are a small syntax tree interpreted by a
      backtracking matcher that follows the priorities of Python's [re];
    - the file system is a finite map from document paths to texts. *)

From Stdlib Require Import List ZArith Lia Bool Ascii String.
From stdpp Require Import gmap strings.
Import ListNotations.
Open Scope Z_scope.

(** ** Python strings *)

Module Py.

Definition str := list ascii.

(** A string literal. *)
Definition py (s : string) : str := list_ascii_of_string s.

(** The line feed, as a one-character string. *)
Definition nl : str := ["010"%char].

Definition len (s : str) : Z := Z.of_nat (length s).

(** Slice bounds: a negative index counts from the end, and every index is
    clamped to [0..len]. *)
Definition clamp (n i : Z) : Z :=
  if i <? 0 then Z.max 0 (i + n) else Z.min i n.

(** [s[a:b]] *)
Definition slice (s : str) (a b : Z) : str :=
  let a' := clamp (len s) a in
  let b' := clamp (len s) b in
  firstn (Z.to_nat (b' - a')) (skipn (Z.to_nat a') s).

(** [s[a:]] *)
Definition slice_from (s : str) (a : Z) : str := slice s a (len s).

(** [s[:b]] *)
Definition slice_to (s : str) (b : Z) : str := slice s 0 b.

(** [s.startswith(p)] *)
Fixpoint startswith (s p : str) {struct p} : bool :=
  match p, s with
  | [], _ => true
  | _ :: _, [] => false
  | c :: p', d :: s' => Ascii.eqb c d && startswith s' p'
  end.

(** The lowest index [>= i] at which [sub] occurs, [s] being the text from
    index [i] on; [-1] when there is none. *)
Fixpoint find_from (sub s : str) (i : Z) : Z :=
  if startswith s sub then i
  else match s with
       | [] => -1
       | _ :: t => find_from sub t (i + 1)
       end.

(** [s.find(sub, start)] *)
Definition find (s sub : str) (start : Z) : Z :=
  if len s <? start then -1
  else let a := clamp (len s) start in
       find_from sub (skipn (Z.to_nat a) s) a.

(** [sub in s] *)
Fixpoint str_in (sub s : str) : bool :=
  startswith s sub ||
  match s with
  | [] => false
  | _ :: t => str_in sub t
  end.

(** [s * n] *)
Definition str_mul (s : str) (n : Z) : str := concat (repeat s (Z.to_nat n)).

(** [sep.join(items)] *)
Fixpoint join (sep : str) (items : list str) : str :=
  match items with
  | [] => []
  | [x] => x
  | x :: rest => x ++ sep ++ join sep rest
  end.

(** Python's [str.isspace] on one character, which is also what [\s] matches
    in a [str] pattern: TAB..CR, FS..US, space, NEL and NBSP. *)
Definition isspace (c : ascii) : bool :=
  let n := nat_of_ascii c in
  ((9 <=? n) && (n <=? 13) || (28 <=? n) && (n <=? 32)
   || (n =? 133) || (n =? 160))%nat.

(** [s.strip()] *)
Fixpoint lstrip (s : str) : str :=
  match s with
  | c :: t => if isspace c then lstrip t else s
  | [] => []
  end.

Definition rstrip (s : str) : str := rev (lstrip (rev s)).

Definition strip (s : str) : str := rstrip (lstrip s).

(** [c.lower()] for one character of the range. *)
Definition lower_char (c : ascii) : ascii :=
  let n := nat_of_ascii c in
  if ((65 <=? n) && (n <=? 90)
      || (192 <=? n) && (n <=? 222) && negb (n =? 215))%nat
  then ascii_of_nat (n + 32) else c.

(** [s.lower()] *)
Definition lower (s : str) : str := map lower_char s.

(** [s.split(sep)] for a one-character separator. *)
Fixpoint split_on (sep : ascii) (s : str) (cur : str) : list str :=
  match s with
  | [] => [rev cur]
  | c :: t => if Ascii.eqb c sep then rev cur :: split_on sep t []
              else split_on sep t (c :: cur)
  end.

Definition split (s : str) (sep : ascii) : list str := split_on sep s [].

End Py.

Import Py.

(** ** extract_div_content *)

Module Extract.

(** The loop of [extract_div_content]: one unit of fuel per iteration. *)
Fixpoint extract_loop (fuel : nat) (html : str) (start_pos depth pos : Z)
  : option (str * Z) :=
  match fuel with
  | O => None
  | S fuel' =>
    if (0 <? depth) && (pos <? len html) then
      let next_open := find html (py "<div") pos in
      let next_close := find html (py "</div>") pos in
      if next_close =? -1 then
        Some (slice_from html start_pos, len html)
      else if negb (next_open =? -1) && (next_open <? next_close) then
        extract_loop fuel' html start_pos (depth + 1) (next_open + 4)
      else
        let depth := depth - 1 in
        if depth =? 0 then
          Some (slice html start_pos next_close, next_close + 6)
        else
          extract_loop fuel' html start_pos depth (next_close + 6)
    else Some (slice_from html start_pos, len html)
  end.

Definition extract_div_content_fuel (fuel : nat) (html : str) (start_pos : Z)
  : option (str * Z) :=
  extract_loop fuel html start_pos 1 start_pos.

(** [extract_div_content(html, start_pos)]: every iteration moves [pos]
    forward, so one more unit of fuel than there are characters is enough
    (see [extract_loop_spec]). *)
Definition extract_div_content (html : str) (start_pos : Z) : option (str * Z) :=
  extract_div_content_fuel (S (length html)) html start_pos.

(** What the specification calls the matching closing tag, read character by
    character: every opening tag increments the depth, every closing tag
    decrements it, and the closing tag that meets depth zero is the matching
    one.  An opening tag is an occurrence of [<div] and a closing tag an
    occurrence of [</div>], as the script looks for them; [s] is the text
    from index [i] on and [depth] counts the containers opened since the
    start position and not yet closed. *)
Fixpoint matching_close_from (s : str) (i : Z) (depth : nat) : option Z :=
  match s with
  | [] => None
  | _ :: t =>
    if startswith s (py "</div>") then
      match depth with
      | O => Some i
      | S d => matching_close_from t (i + 1) d
      end
    else if startswith s (py "<div") then matching_close_from t (i + 1) (S depth)
    else matching_close_from t (i + 1) depth
  end.

Definition matching_close (html : str) (start_pos : Z) : option Z :=
  matching_close_from (skipn (Z.to_nat start_pos) html) start_pos 0.

(** Neither tag begins the text. *)
Definition no_tag_at (s : str) : Prop :=
  startswith s (py "</div>") = false /\ startswith s (py "<div") = false.

(** The offset of the first occurrence of [sub] in [s]; [find_from] is this
    offset added to the index of [s] (lemma [find_from_first_occ]). *)
Fixpoint first_occ (sub s : str) : option nat :=
  if startswith s sub then Some O
  else match s with
       | [] => None
       | _ :: t => option_map S (first_occ sub t)
       end.

End Extract.

(** ** Regular expressions: the part of Python's [re] the script uses *)

Module Re.

(** An item of a character set. *)
Inductive citem :=
| ILit (c : ascii)
| ISpace.

(** What matches one character. *)
Inductive atom :=
| ALit (c : ascii)
| ADot
| ASpace
| ASet (neg : bool) (items : list citem).

(** Patterns.  Every quantifier of the script applies to one character, so
    [Rep] repeats an atom: [mn] times at least, [mx] times at most when it is
    given, greedily or lazily. *)
Inductive regex :=
| Eps
| Atom (a : atom)
| Rep (a : atom) (mn : nat) (mx : option nat) (greedy : bool)
| Seq (r1 r2 : regex)
| Alt (r1 r2 : regex)
| Group (n : nat) (r : regex)
| Bol
| Eol
| WordB
| Look (r : regex).

Record flags := { ignorecase : bool; dotall : bool }.

Definition NOFLAGS := {| ignorecase := false; dotall := false |}.
Definition DOTALL := {| ignorecase := false; dotall := true |}.
Definition IGNORECASE := {| ignorecase := true; dotall := false |}.
Definition DOTALL_IGNORECASE := {| ignorecase := true; dotall := true |}.

(** [\w] on one character: letters, digits and numerals of the range, and
    the underscore. *)
Definition isword (c : ascii) : bool :=
  let n := nat_of_ascii c in
  ((48 <=? n) && (n <=? 57) || (65 <=? n) && (n <=? 90) || (n =? 95)
   || (97 <=? n) && (n <=? 122)
   || (n =? 170) || (n =? 178) || (n =? 179) || (n =? 181)
   || (185 <=? n) && (n <=? 186) || (188 <=? n) && (n <=? 190)
   || (192 <=? n) && (n <=? 214) || (216 <=? n) && (n <=? 246)
   || (248 <=? n))%nat.

Definition lit_ok (fl : flags) (x c : ascii) : bool :=
  if ignorecase fl then Ascii.eqb (lower_char c) (lower_char x)
  else Ascii.eqb c x.

Definition item_ok (fl : flags) (c : ascii) (i : citem) : bool :=
  match i with
  | ILit x => lit_ok fl x c
  | ISpace => isspace c
  end.

Definition atom_ok (fl : flags) (a : atom) (c : ascii) : bool :=
  match a with
  | ALit x => lit_ok fl x c
  | ADot => dotall fl || negb (Ascii.eqb c "010")
  | ASpace => isspace c
  | ASet neg items => xorb neg (existsb (item_ok fl c) items)
  end.

(** Capture groups: group number, start and end position; the latest
    binding of a group comes first. *)
Definition caps := list (nat * (nat * nat)).

(** A continuation receives the position reached, the character before it,
    the text from it on, and the groups bound so far. *)
Definition cont := nat -> option ascii -> str -> caps -> option (nat * caps).

Definition under (mx : option nat) (cnt : nat) : bool :=
  match mx with
  | None => true
  | Some n => (cnt <? n)%nat
  end.

(** A greedy repetition takes one more character first and falls back to
    the continuation. *)
Fixpoint rep_greedy (fl : flags) (a : atom) (mn : nat) (mx : option nat)
    (cnt p : nat) (prev : option ascii) (rest : str) (cs : caps) (k : cont)
    {struct rest} : option (nat * caps) :=
  let stop := if (mn <=? cnt)%nat then k p prev rest cs else None in
  match rest with
  | c :: rest' =>
    if atom_ok fl a c && under mx cnt then
      match rep_greedy fl a mn mx (S cnt) (S p) (Some c) rest' cs k with
      | Some r => Some r
      | None => stop
      end
    else stop
  | [] => stop
  end.

(** A lazy repetition tries the continuation first. *)
Fixpoint rep_lazy (fl : flags) (a : atom) (mn : nat) (mx : option nat)
    (cnt p : nat) (prev : option ascii) (rest : str) (cs : caps) (k : cont)
    {struct rest} : option (nat * caps) :=
  let more :=
    match rest with
    | c :: rest' =>
      if atom_ok fl a c && under mx cnt
      then rep_lazy fl a mn mx (S cnt) (S p) (Some c) rest' cs k
      else None
    | [] => None
    end in
  if (mn <=? cnt)%nat then
    match k p prev rest cs with
    | Some r => Some r
    | None => more
    end
  else more.

(** The backtracking matcher: [run fl r p prev rest cs k] matches [r] at
    position [p] and hands what follows to [k]; alternatives are tried in
    the order of Python's [re]. *)
Fixpoint run (fl : flags) (r : regex) (p : nat) (prev : option ascii)
    (rest : str) (cs : caps) (k : cont) {struct r} : option (nat * caps) :=
  match r with
  | Eps => k p prev rest cs
  | Atom a =>
    match rest with
    | c :: rest' => if atom_ok fl a c then k (S p) (Some c) rest' cs else None
    | [] => None
    end
  | Rep a mn mx greedy =>
    if greedy then rep_greedy fl a mn mx 0 p prev rest cs k
    else rep_lazy fl a mn mx 0 p prev rest cs k
  | Seq r1 r2 =>
    run fl r1 p prev rest cs (fun p' prev' rest' cs' => run fl r2 p' prev' rest' cs' k)
  | Alt r1 r2 =>
    match run fl r1 p prev rest cs k with
    | Some x => Some x
    | None => run fl r2 p prev rest cs k
    end
  | Group n r1 =>
    run fl r1 p prev rest cs (fun p' prev' rest' cs' => k p' prev' rest' ((n, (p, p')) :: cs'))
  | Bol => if (p =? 0)%nat then k p prev rest cs else None
  | Eol =>
    match rest with
    | [] => k p prev rest cs
    | [c] => if Ascii.eqb c "010" then k p prev rest cs else None
    | _ => None
    end
  | WordB =>
    let before := match prev with Some c => isword c | None => false end in
    let after := match rest with c :: _ => isword c | [] => false end in
    if xorb before after then k p prev rest cs else None
  | Look r1 =>
    match run fl r1 p prev rest cs (fun p' _ _ cs' => Some (p', cs')) with
    | Some (_, cs') => k p prev rest cs'
    | None => None
    end
  end.

Definition accept : cont := fun p _ _ cs => Some (p, cs).

(** A match object. *)
Record rmatch := { m_subj : str; m_start : nat; m_end : nat; m_caps : caps }.

Fixpoint lookup_group (n : nat) (cs : caps) : option (nat * nat) :=
  match cs with
  | [] => None
  | (g, se) :: cs' => if (g =? n)%nat then Some se else lookup_group n cs'
  end.

Definition span (s : str) (a b : nat) : str := firstn (b - a) (skipn a s).

(** [m.group(n)]; [m.group()] is [group m 0].  A group that took no part in
    the match reads as the empty string here, as it does in a replacement
    template. *)
Definition group (m : rmatch) (n : nat) : str :=
  match n with
  | O => span (m_subj m) (m_start m) (m_end m)
  | _ => match lookup_group n (m_caps m) with
         | Some (a, b) => span (m_subj m) a b
         | None => []
         end
  end.

(** [m.start()] and [m.end()] *)
Definition mstart (m : rmatch) : Z := Z.of_nat (m_start m).
Definition mend (m : rmatch) : Z := Z.of_nat (m_end m).

(** The leftmost match that starts at position [p] or later. *)
Fixpoint search_from (fl : flags) (r : regex) (subj : str) (p : nat)
    (prev : option ascii) (rest : str) {struct rest} : option rmatch :=
  match run fl r p prev rest [] accept with
  | Some (e, cs) => Some {| m_subj := subj; m_start := p; m_end := e; m_caps := cs |}
  | None =>
    match rest with
    | [] => None
    | c :: rest' => search_from fl r subj (S p) (Some c) rest'
    end
  end.

Definition prev_at (s : str) (p : nat) : option ascii :=
  match p with
  | O => None
  | S q => nth_error s q
  end.

Definition search_at (fl : flags) (r : regex) (subj : str) (p : nat) : option rmatch :=
  search_from fl r subj p (prev_at subj p) (skipn p subj).

(** [re.match(r, s, flags)] *)
Definition re_match (r : regex) (s : str) (fl : flags) : option rmatch :=
  match run fl r 0 None s [] accept with
  | Some (e, cs) => Some {| m_subj := s; m_start := 0; m_end := e; m_caps := cs |}
  | None => None
  end.

(** [re.search(r, s, flags)] *)
Definition search (r : regex) (s : str) (fl : flags) : option rmatch :=
  search_at fl r s 0.

(** The successive non-overlapping matches, left to right.  After an empty
    match the scan moves one character on; no pattern of the script matches
    the empty string.  There are at most [length s + 1] matches. *)
Fixpoint matches_from (fuel : nat) (fl : flags) (r : regex) (s : str) (p : nat)
  : list rmatch :=
  match fuel with
  | O => []
  | S fuel' =>
    if (length s <? p)%nat then []
    else match search_at fl r s p with
         | None => []
         | Some m =>
           let next := if (m_end m =? m_start m)%nat then S (m_end m) else m_end m in
           m :: matches_from fuel' fl r s next
         end
  end.

(** [list(re.finditer(r, s, flags))] *)
Definition finditer (r : regex) (s : str) (fl : flags) : list rmatch :=
  matches_from (S (length s)) fl r s 0.

(** [re.findall(r, s, flags)] for a pattern with three groups. *)
Definition findall3 (r : regex) (s : str) (fl : flags) : list (str * str * str) :=
  map (fun m => (group m 1, group m 2, group m 3)) (finditer r s fl).

(** The text of [s] with every match replaced: [p] is the position reached
    in [s]. *)
Fixpoint replace_matches (repl : rmatch -> str) (s : str) (p : nat)
    (ms : list rmatch) : str :=
  match ms with
  | [] => skipn p s
  | m :: ms' => span s p (m_start m) ++ repl m ++ replace_matches repl s (m_end m) ms'
  end.

(** [re.sub(r, repl, s, flags=fl)], the replacement being a function of the
    match (a template is the function that expands it). *)
Definition sub (r : regex) (repl : rmatch -> str) (s : str) (fl : flags) : str :=
  replace_matches repl s 0 (finditer r s fl).

(** Pattern builders. *)
Definition lit (s : str) : regex := fold_right (fun c r => Seq (Atom (ALit c)) r) Eps s.
Definition seq (rs : list regex) : regex := fold_right Seq Eps rs.
Definition star (a : atom) : regex := Rep a 0 None true.
Definition plus (a : atom) : regex := Rep a 1 None true.
Definition opt (a : atom) : regex := Rep a 0 (Some 1%nat) true.
Definition lazy_star (a : atom) : regex := Rep a 0 None false.
Definition at_least (n : nat) (a : atom) : regex := Rep a n None true.
Definition not_char (c : ascii) : atom := ASet true [ILit c].

End Re.

Import Re.

(** ** The script *)

Module Modernize.

(** A literal of the script that contains double quotes is written with
    apostrophes in their place: [qq] reads every apostrophe as a double
    quote.  No pattern or template of the script contains an apostrophe.
    The comments that quote a pattern follow the same convention. *)
Definition qq (s : string) : str :=
  map (fun c => if Ascii.eqb c "'" then "034"%char else c) (py s).

Definition str_eqb (a b : str) : bool := bool_decide (a = b).

(** A document path, by its parts relative to [SITE_ROOT]: every use of
    [file_path] starts with [file_path.relative_to(SITE_ROOT)], and [main]
    only passes paths it found under [SITE_ROOT]. *)
Definition path := list str.

Definition NAV_ITEMS : list (str * str) :=
  [ (py "Home", py "index.html");
    (py "What", py "what.html");
    (py "Who", py "who.html");
    (py "Why", py "why.html");
    (py "Headaches", py "headaches/");
    (py "Pawlet Box", py "pog/the_pawlet_box/") ].

(** [str(rel)] for the relative path [rel]. *)
Definition rel_str (rel : path) : str :=
  match rel with
  | [] => py "."
  | _ => join (py "/") rel
  end.

(** [relative_root(file_path)] *)
Definition relative_root (file_path : path) : str :=
  let rel := file_path in
  let depth := Z.of_nat (length rel) - 1 in
  if depth =? 0 then []
  else str_mul (py "../") depth.

(** [get_active_nav(file_path)] *)
Definition get_active_nav (file_path : path) : str :=
  let rel := rel_str file_path in
  if str_eqb rel (py "index.html") then py "index.html"
  else if startswith rel (py "what") then py "what.html"
  else if startswith rel (py "who") then py "who.html"
  else if startswith rel (py "why") then py "why.html"
  else if startswith rel (py "headaches/") || startswith rel (py "migraines/")
          || startswith rel (py "damage/") then py "headaches/"
  else if startswith rel (py "pog/") then py "pog/the_pawlet_box/"
  else [].

(** [<title[^>]*>(.*?)</title>] *)
Definition title_re : regex :=
  seq [lit (py "<title"); star (not_char ">"); lit (py ">");
       Group 1 (lazy_star ADot); lit (py "</title>")].

(** [extract_title(html)] *)
Definition extract_title (html : str) : str :=
  match search title_re html DOTALL_IGNORECASE with
  | None => py "Mighty Cheese"
  | Some m =>
    let raw := strip (group m 1) in
    let parts := map strip (split raw "|") in
    match parts with
    | p0 :: _ => p0
    | [] => py "Mighty Cheese"
    end
  end.

(** [<div\s+id='main-content'[^>]*>] *)
Definition main_content_re : regex :=
  seq [lit (py "<div"); plus ASpace; lit (qq "id='main-content'");
       star (not_char ">"); lit (py ">")].

(** [extract_main_content(html)] *)
Definition extract_main_content (html : str) : option str :=
  match search main_content_re html IGNORECASE with
  | None => Some []
  | Some m =>
    '(content, _) ← Extract.extract_div_content html (mend m);
    Some content
  end.

(** [<div\s+id='index'\s+class='(?:general|photogrid)-index'>] *)
Definition index_re : regex :=
  seq [lit (py "<div"); plus ASpace; lit (qq "id='index'"); plus ASpace;
       lit (qq "class='"); Alt (lit (py "general")) (lit (py "photogrid"));
       lit (qq "-index'>")].

(** [^\s*<!--[^>]*-->] *)
Definition trailing_comment_re : regex :=
  seq [Bol; star ASpace; lit (py "<!--"); star (not_char ">"); lit (py "-->")].

(** [extract_index_section(content)] *)
Definition extract_index_section (content : str) : option (str * str * str) :=
  match search index_re content NOFLAGS with
  | None => Some (content, [], [])
  | Some m =>
    let before := slice_to content (mstart m) in
    '(idx_inner, end_pos) ← Extract.extract_div_content content (mend m);
    let rest := slice_from content end_pos in
    let rest := sub trailing_comment_re (fun _ => []) rest NOFLAGS in
    Some (before, idx_inner, rest)
  end.

(** The thumbnail pattern, in three pieces:
    [<a\s+href='([^']+)'>\s*<img[^>]*], then [\bsrc='([^']+)'[^>]*], then
    [\balt='(G3)'[^>]*/?\s*>\s*</a>] where the group [G3] is [[^']*]. *)
Definition thumbnail_re : regex :=
  seq [lit (py "<a"); plus ASpace; lit (qq "href='");
       Group 1 (plus (not_char "034")); lit (qq "'>"); star ASpace;
       lit (py "<img"); star (not_char ">"); WordB; lit (qq "src='");
       Group 2 (plus (not_char "034")); lit (qq "'"); star (not_char ">");
       WordB; lit (qq "alt='"); Group 3 (star (not_char "034")); lit (qq "'");
       star (not_char ">"); opt (ALit "/"); star ASpace; lit (py ">");
       star ASpace; lit (py "</a>")].

(** [<h3[^>]*><a\s+href='([^']+)'>(.*?)</a></h3>(.*?)(?=<h3|$)] *)
Definition entry_re : regex :=
  seq [lit (py "<h3"); star (not_char ">"); lit (py "><a"); plus ASpace;
       lit (qq "href='"); Group 1 (plus (not_char "034")); lit (qq "'>");
       Group 2 (lazy_star ADot); lit (py "</a></h3>");
       Group 3 (lazy_star ADot); Look (Alt (lit (py "<h3")) Eol)].

(** [<[^>]+>] *)
Definition any_tag_re : regex :=
  seq [lit (py "<"); plus (not_char ">"); lit (py ">")].

(** [class='article-summary'[^>]*>(.*?)</div>] *)
Definition summary_re : regex :=
  seq [lit (qq "class='article-summary'"); star (not_char ">"); lit (py ">");
       Group 1 (lazy_star ADot); lit (py "</div>")].

Definition nonempty {A} (l : list A) : bool :=
  match l with
  | [] => false
  | _ :: _ => true
  end.

(** The body of the loop over the thumbnails. *)
Definition gallery_item (t : str * str * str) : str :=
  let '(href, src, alt) := t in
  qq "<div class='gallery-item'>"
  ++ qq "<a href='" ++ href ++ qq "'><img src='" ++ src ++ qq "' alt='" ++ alt
  ++ qq "' loading='lazy' /></a>"
  ++ py "</div>".

(** The body of the loop over the entries. *)
Definition index_item (entry : rmatch) : str :=
  let href := group entry 1 in
  let title_html := group entry 2 in
  let rest := group entry 3 in
  let title := strip (sub any_tag_re (fun _ => []) title_html NOFLAGS) in
  let summary_match := search summary_re rest DOTALL in
  let summary :=
    match summary_match with
    | Some sm => strip (group sm 1)
    | None => []
    end in
  let li := qq "<li><a href='" ++ href ++ qq "'>" ++ title ++ py "</a>" in
  let li := if nonempty summary
            then li ++ nl ++ qq "<div class='summary'>" ++ summary ++ py "</div>"
            else li in
  li ++ py "</li>".

(** [transform_gallery_index(idx_inner)] *)
Definition transform_gallery_index (idx_inner : str) : str :=
  let thumbnails := findall3 thumbnail_re idx_inner DOTALL in
  if nonempty thumbnails then
    let items := map gallery_item thumbnails in
    qq "<div class='gallery-grid'>" ++ nl ++ join nl items ++ nl ++ py "</div>"
  else
    let entries := finditer entry_re idx_inner DOTALL in
    if negb (nonempty entries) then []
    else
      let items := map index_item entries in
      qq "<ul class='index-list'>" ++ nl ++ join nl items ++ nl ++ py "</ul>".

(** [<div[\s>]] *)
Definition open_re : regex :=
  seq [lit (py "<div"); Atom (ASet false [ISpace; ILit ">"])].

(** [</div\s*>] *)
Definition close_re : regex :=
  seq [lit (py "</div"); star ASpace; lit (py ">")].

(** [html[pos]], which the loop of [balance_divs] only reads under its guard
    [pos < len(html)], [pos] never being negative. *)
Definition char_at (html : str) (pos : Z) : str := slice html pos (pos + 1).

(** The loop of [balance_divs]: one unit of fuel per iteration. *)
Fixpoint balance_loop (fuel : nat) (html : str) (result : list str)
    (depth pos : Z) : option (list str) :=
  match fuel with
  | O => None
  | S fuel' =>
    if pos <? len html then
      let open_match := re_match open_re (slice_from html pos) NOFLAGS in
      let close_match := re_match close_re (slice_from html pos) NOFLAGS in
      match open_match, close_match with
      | Some _, _ =>
        let depth := depth + 1 in
        let end_ := find html (py ">") pos + 1 in
        balance_loop fuel' html (result ++ [slice html pos end_]) depth end_
      | None, Some cm =>
        if 0 <? depth then
          balance_loop fuel' html (result ++ [group cm 0]) (depth - 1) (pos + mend cm)
        else
          balance_loop fuel' html result depth (pos + mend cm)
      | None, None =>
        balance_loop fuel' html (result ++ [char_at html pos]) depth (pos + 1)
      end
    else Some result
  end.

Definition balance_divs_fuel (fuel : nat) (html : str) : option str :=
  option_map (join []) (balance_loop fuel html [] 0 0).

(** [balance_divs(html)].  When the loop ends at all it ends within
    [len(html) + 1] iterations, and with less fuel than it needs it has not
    ended ([balance_divs_fuel_enough], [balance_divs_never_returns]). *)
Definition balance_divs (html : str) : option str :=
  balance_divs_fuel (S (length html)) html.

(** The patterns of [clean_content], in the order of the script. *)

(** [<div\s+ATTR], [ATTR] being an attribute with its value. *)
Definition div_with (attr : string) : list regex :=
  [lit (py "<div"); plus ASpace; lit (qq attr)].

(** [<div\s+ATTR>\s*</div>] *)
Definition empty_div (attr : string) : regex :=
  seq (div_with attr ++ [lit (py ">"); star ASpace; lit (py "</div>")]).

(** [<div\s+ATTR>] *)
Definition div_open (attr : string) : regex :=
  seq (div_with attr ++ [lit (py ">")]).

(** [<div\s+id='main-(?:top|bottom)'>\s*</div>] *)
Definition main_top_bottom_re : regex :=
  seq (div_with "id='main-"
       ++ [Alt (lit (py "top")) (lit (py "bottom")); lit (qq "'>");
           star ASpace; lit (py "</div>")]).

(** [<!--.*?-->] *)
Definition comment_re : regex :=
  seq [lit (py "<!--"); lazy_star ADot; lit (py "-->")].

(** [\s+id='k-[^']*'] *)
Definition sandvox_id_re : regex :=
  seq [plus ASpace; lit (qq "id='k-"); star (not_char "034"); lit (qq "'")].

(** [<span\s+class='in'>(.*?)</span>] *)
Definition span_in_re : regex :=
  seq [lit (py "<span"); plus ASpace; lit (qq "class='in'>");
       Group 1 (lazy_star ADot); lit (py "</span>")].

(** [\s+style='[^']*'] *)
Definition style_re : regex :=
  seq [plus ASpace; lit (qq "style='"); star (not_char "034"); lit (qq "'")].

(** [<br\s+class='webkit-block-placeholder'\s*/?>] *)
Definition placeholder_br_re : regex :=
  seq [lit (py "<br"); plus ASpace; lit (qq "class='webkit-block-placeholder'");
       star ASpace; opt (ALit "/"); lit (py ">")].

(** [<div\s+class='callout-container'>\s*</div>] *)
Definition empty_callout_container_re : regex := empty_div "class='callout-container'".

(** [<div\s+class='article-info'>\s*</div>] *)
Definition empty_article_info_re : regex := empty_div "class='article-info'".

(** [<div\s+class='clear'>\s*</div>] *)
Definition clear_re : regex := empty_div "class='clear'".

(** [<div\s+class='article-summary'>\s*</div>] *)
Definition empty_summary_re : regex := empty_div "class='article-summary'".

(** [<p>\s*<br\s*/?>\s*</p>] *)
Definition empty_p_re : regex :=
  seq [lit (py "<p>"); star ASpace; lit (py "<br"); star ASpace;
       opt (ALit "/"); lit (py ">"); star ASpace; lit (py "</p>")].

(** [<div>\s*<br\s*/?>\s*</div>] *)
Definition empty_br_div_re : regex :=
  seq [lit (py "<div>"); star ASpace; lit (py "<br"); star ASpace;
       opt (ALit "/"); lit (py ">"); star ASpace; lit (py "</div>")].

(** [<i>\s*</i>] *)
Definition empty_i_re : regex :=
  seq [lit (py "<i>"); star ASpace; lit (py "</i>")].

(** [<div\s+class='caption'>\s*</div>] *)
Definition empty_caption_re : regex := empty_div "class='caption'".

(** [<div\s+class='RichTextElement'>\s*<div>(.*?)</div>\s*</div>] *)
Definition rich_text_div_re : regex :=
  seq (div_with "class='RichTextElement'"
       ++ [lit (py ">"); star ASpace; lit (py "<div>");
           Group 1 (lazy_star ADot); lit (py "</div>"); star ASpace;
           lit (py "</div>")]).

(** [<div(?:\s+class='RichTextElement')>\s*(.*?)\s*</div>] *)
Definition rich_text_re : regex :=
  seq [lit (py "<div"); seq [plus ASpace; lit (qq "class='RichTextElement'")];
       lit (py ">"); star ASpace; Group 1 (lazy_star ADot); star ASpace;
       lit (py "</div>")].

(** [<div\s+class='article-content'>\s*] *)
Definition article_content_re : regex :=
  seq (div_with "class='article-content'" ++ [lit (py ">"); star ASpace]).

(** [<div\s+class='article-info'>\s*<div\s+class='timestamp'>\s*(.*?)\s*</div>\s*</div>] *)
Definition timestamp_re : regex :=
  seq (div_with "class='article-info'"
       ++ [lit (py ">"); star ASpace]
       ++ div_with "class='timestamp'"
       ++ [lit (py ">"); star ASpace; Group 1 (lazy_star ADot);
           star ASpace; lit (py "</div>"); star ASpace; lit (py "</div>")]).

(** [<div\s+class='article[^']*'>\s*] *)
Definition article_wrapper_re : regex :=
  seq (div_with "class='article"
       ++ [star (not_char "034"); lit (qq "'>"); star ASpace]).

(** [<div\s+class='callout-top'>\s*</div>] *)
Definition callout_top_re : regex := empty_div "class='callout-top'".

(** [<div\s+class='callout-bottom'>\s*</div>] *)
Definition callout_bottom_re : regex := empty_div "class='callout-bottom'".

(** [<div\s+class='pagelet[^']*'>] *)
Definition pagelet_re : regex :=
  seq (div_with "class='pagelet" ++ [star (not_char "034"); lit (qq "'>")]).

(** [<div\s+class='pagelet-body'>] *)
Definition pagelet_body_re : regex := div_open "class='pagelet-body'".

(** [<div\s+class='elementIntroduction'>] *)
Definition element_introduction_re : regex := div_open "class='elementIntroduction'".

(** [<div\s+class='callout'>] *)
Definition callout_re : regex := div_open "class='callout'".

(** [<div\s+class='callout-container'>\s*(.*?)\s*</div>] *)
Definition callout_container_re : regex :=
  seq (div_with "class='callout-container'"
       ++ [lit (py ">"); star ASpace; Group 1 (lazy_star ADot);
           star ASpace; lit (py "</div>")]).

(** [\n{3,}] *)
Definition blank_lines_re : regex := at_least 3 (ALit "010").

(** [[ \t]+\n] *)
Definition trailing_space_re : regex :=
  seq [plus (ASet false [ILit " "; ILit "009"]); lit nl].

(** The replacements: the empty string, the template [\1], and the others. *)
Definition remove : rmatch -> str := fun _ => [].
Definition group1 : rmatch -> str := fun m => group m 1.
Definition plain_br : rmatch -> str := fun _ => py "<br />".
Definition timestamp_p : rmatch -> str :=
  fun m => qq "<p class='timestamp'>" ++ group m 1 ++ py "</p>".
Definition callout_content : rmatch -> str :=
  fun m => if nonempty (strip (group m 1))
           then qq "<div class='callout-content'>" ++ group m 1 ++ py "</div>"
           else [].

(** The substitutions of [clean_content] up to the call of [balance_divs]. *)
Definition clean_rules (content : str) : str :=
  let content := sub main_top_bottom_re remove content NOFLAGS in
  let content := sub comment_re remove content DOTALL in
  let content := sub sandvox_id_re remove content NOFLAGS in
  (* for _ in range(3) *)
  let content := sub span_in_re group1 content DOTALL in
  let content := sub span_in_re group1 content DOTALL in
  let content := sub span_in_re group1 content DOTALL in
  let content := sub style_re remove content NOFLAGS in
  let content := sub placeholder_br_re plain_br content NOFLAGS in
  let content := sub empty_callout_container_re remove content DOTALL in
  let content := sub empty_article_info_re remove content DOTALL in
  let content := sub clear_re remove content NOFLAGS in
  let content := sub empty_summary_re remove content NOFLAGS in
  let content := sub empty_p_re remove content NOFLAGS in
  let content := sub empty_br_div_re remove content NOFLAGS in
  let content := sub empty_i_re remove content NOFLAGS in
  let content := sub empty_caption_re remove content NOFLAGS in
  let content := sub rich_text_div_re group1 content DOTALL in
  let content := sub rich_text_re group1 content DOTALL in
  let content := sub article_content_re remove content NOFLAGS in
  let content := sub timestamp_re timestamp_p content DOTALL in
  let content := sub article_wrapper_re remove content NOFLAGS in
  let content := sub callout_top_re remove content NOFLAGS in
  let content := sub callout_bottom_re remove content NOFLAGS in
  let content := sub pagelet_re remove content NOFLAGS in
  let content := sub pagelet_body_re remove content NOFLAGS in
  let content := sub element_introduction_re remove content NOFLAGS in
  let content := sub callout_re remove content NOFLAGS in
  let content := sub callout_container_re callout_content content DOTALL in
  content.

(** [clean_content(content)] *)
Definition clean_content (content : str) : option str :=
  let content := clean_rules content in
  content ← balance_divs content;
  let content := sub blank_lines_re (fun _ => nl ++ nl) content NOFLAGS in
  let content := sub trailing_space_re (fun _ => nl) content NOFLAGS in
  Some (strip content).

(** [build_nav(root_prefix, active)] *)
Definition nav_item (root_prefix active : str) (item : str * str) : str :=
  let '(label, href) := item in
  let cls := if str_eqb href active then qq " class='active'" else [] in
  let full_href := root_prefix ++ href in
  py "          <li" ++ cls ++ qq "><a href='" ++ full_href ++ qq "'>" ++ label
  ++ py "</a></li>".

Definition build_nav (root_prefix active : str) : str :=
  join nl (map (nav_item root_prefix active) NAV_ITEMS).

(** [make_page(title, nav_html, content, root_prefix)] *)
Definition make_page (title nav_html content root_prefix : str) : str :=
  let css_path := root_prefix ++ py "style.css" in
  py "<!DOCTYPE html>" ++ nl
  ++ qq "<html lang='en'>" ++ nl
  ++ py "<head>" ++ nl
  ++ qq "  <meta charset='UTF-8' />" ++ nl
  ++ qq "  <meta name='viewport' content='width=device-width, initial-scale=1.0' />" ++ nl
  ++ py "  <title>" ++ title ++ py " | Mighty Cheese</title>" ++ nl
  ++ qq "  <meta name='author' content='Colin Summers' />" ++ nl
  ++ qq "  <link rel='stylesheet' href='" ++ css_path ++ qq "' />" ++ nl
  ++ py "</head>" ++ nl
  ++ py "<body>" ++ nl
  ++ qq "  <nav class='navbar'>" ++ nl
  ++ qq "    <div class='navbar-inner'>" ++ nl
  ++ qq "      <a class='navbar-brand' href='"
       ++ (if nonempty root_prefix then root_prefix else py "./")
       ++ qq "'>Mighty Cheese</a>" ++ nl
  ++ qq "      <input type='checkbox' id='nav-toggle' class='nav-toggle' />" ++ nl
  ++ qq "      <label for='nav-toggle' class='nav-toggle-label'><span></span></label>" ++ nl
  ++ qq "      <ul class='nav-links'>" ++ nl
  ++ nav_html ++ nl
  ++ py "      </ul>" ++ nl
  ++ py "    </div>" ++ nl
  ++ py "  </nav>" ++ nl
  ++ py "  <main>" ++ nl
  ++ content ++ nl
  ++ py "  </main>" ++ nl
  ++ py "  <footer>" ++ nl
  ++ py "    <p>Copyright Colin Summers 2006 and other years.</p>" ++ nl
  ++ py "  </footer>" ++ nl
  ++ py "</body>" ++ nl
  ++ py "</html>" ++ nl.

(** The test of [main] on the sample file:
    ['<!DOCTYPE html>' in sample[:50] and 'navbar' in sample[:500]]. *)
Definition already_modernized (sample : str) : bool :=
  str_in (py "<!DOCTYPE html>") (slice_to sample 50)
  && str_in (py "navbar") (slice_to sample 500).

(** The world [process_file] acts on: the texts of the documents, and what
    has been printed. *)
Record world := { files : gmap path str; stdout : list str }.

Definition print (line : str) (w : world) : world :=
  {| files := files w; stdout := stdout w ++ [line] |}.

(** [file_path.write_text(text, encoding='utf-8')] *)
Definition write_text (file_path : path) (text : str) (w : world) : world :=
  {| files := <[file_path := text]> (files w); stdout := stdout w |}.

Section ProcessFile.

(** The text of [SITE_ROOT], which the script derives from its own location
    when it starts. *)
Variable SITE_ROOT : str.

(** [str(file_path)] *)
Definition path_str (file_path : path) : str :=
  SITE_ROOT ++ py "/" ++ join (py "/") file_path.

(** [process_file(file_path, original_html)]: the answer and the world it
    leaves, or [None] when the call does not return. *)
Definition process_file (file_path : path) (original_html : str) (w : world)
  : option (bool * world) :=
  let html := original_html in
  if negb (str_in (py "sandvox") (lower html))
     && negb (str_in (py "main-content") html)
  then Some (false, w)
  else
    let title := extract_title html in
    main_content ← extract_main_content html;
    if negb (nonempty main_content) then
      Some (false, print (py "  WARNING: No main-content found in " ++ path_str file_path) w)
    else
      '(before_idx, idx_inner, after_idx) ← extract_index_section main_content;
      let content :=
        if nonempty idx_inner then
          let idx_html := transform_gallery_index idx_inner in
          before_idx ++ nl ++ idx_html ++ nl ++ after_idx
        else main_content in
      content ← clean_content content;
      let root_prefix := relative_root file_path in
      let active := get_active_nav file_path in
      let nav_html := build_nav root_prefix active in
      let output := make_page title nav_html content root_prefix in
      Some (true, write_text file_path output w).

End ProcessFile.

(** *** Texts and tests the theorems speak of *)

(** The text of a page before the first [navbar]. *)
Definition page_head (title root_prefix : str) : str :=
  py "<!DOCTYPE html>" ++ nl
  ++ qq "<html lang='en'>" ++ nl
  ++ py "<head>" ++ nl
  ++ qq "  <meta charset='UTF-8' />" ++ nl
  ++ qq "  <meta name='viewport' content='width=device-width, initial-scale=1.0' />" ++ nl
  ++ py "  <title>" ++ title ++ py " | Mighty Cheese</title>" ++ nl
  ++ qq "  <meta name='author' content='Colin Summers' />" ++ nl
  ++ qq "  <link rel='stylesheet' href='" ++ root_prefix ++ py "style.css" ++ qq "' />" ++ nl
  ++ py "</head>" ++ nl
  ++ py "<body>" ++ nl
  ++ qq "  <nav class='".

(** The navigation line of [build_nav] for one item, with its link written
    below [prefix]. *)
Definition nav_line (prefix active : str) (item : str * str) : str :=
  py "          <li"
  ++ (if str_eqb (snd item) active then qq " class='active'" else [])
  ++ qq "><a href='" ++ prefix ++ snd item ++ qq "'>" ++ fst item ++ py "</a></li>".

(** The two listings, written independently of the loops of
    [transform_gallery_index].  A grid container holds one wrapped, lazily
    loaded image link for each item, in the order of the items. *)
Definition image_link (t : str * str * str) : str :=
  let '(href, src, alt) := t in
  qq "<div class='gallery-item'><a href='" ++ href
  ++ qq "'><img src='" ++ src ++ qq "' alt='" ++ alt
  ++ qq "' loading='lazy' /></a></div>".

Definition grid_container (items : list (str * str * str)) : str :=
  qq "<div class='gallery-grid'>" ++ nl
  ++ join nl (map image_link items) ++ nl ++ py "</div>".

(** A titled list holds one item for each entry, in the order of the
    entries: the title link and, when there is a summary, a following block
    that holds it. *)
Definition titled_item (e : str * str * str) : str :=
  let '(href, title, summary) := e in
  qq "<li><a href='" ++ href ++ qq "'>" ++ title ++ py "</a>"
  ++ (if nonempty summary
      then nl ++ qq "<div class='summary'>" ++ summary ++ py "</div>"
      else [])
  ++ py "</li>".

Definition titled_list (items : list (str * str * str)) : str :=
  qq "<ul class='index-list'>" ++ nl
  ++ join nl (map titled_item items) ++ nl ++ py "</ul>".

(** The output is a gallery grid: the grid container of one item or more,
    and nothing else, no attribute value of which holds a double quote. *)
Definition is_gallery_grid (out : str) : Prop :=
  exists items : list (str * str * str),
    items <> [] /\
    Forall (fun t : str * str * str =>
              let '(href, src, alt) := t in
              ~ In "034"%char href /\ ~ In "034"%char src
              /\ ~ In "034"%char alt) items /\
    out = grid_container items.

(** The output is a titled list: the list of one item or more, and nothing
    else, no link target of which holds a double quote. *)
Definition is_index_list (out : str) : Prop :=
  exists items : list (str * str * str),
    items <> [] /\
    Forall (fun e : str * str * str =>
              let '(href, _, _) := e in ~ In "034"%char href) items /\
    out = titled_list items.

(** An ordered list, as HTML has it: the text begins an [ol] element. *)
Definition is_ordered_list (out : str) : bool := startswith out (py "<ol").

(** [href], [title] and [summary] in the body of the loop over the
    entries. *)
Definition entry_fields (entry : rmatch) : str * str * str :=
  let href := group entry 1 in
  let title_html := group entry 2 in
  let rest := group entry 3 in
  let title := strip (sub any_tag_re (fun _ => []) title_html NOFLAGS) in
  let summary_match := search summary_re rest DOTALL in
  let summary :=
    match summary_match with
    | Some sm => strip (group sm 1)
    | None => []
    end in
  (href, title, summary).

(** The content region of the scenario, its index, and the list the
    transformer makes of it. *)
Definition scenario_index_inner : str :=
  qq "<h3><a href='a.html'>Title A</a></h3><div class='article-summary'>Sum A</div>".

Definition scenario_region : str :=
  qq "<div id='main-content'><div id='index' class='general-index'>"
  ++ scenario_index_inner ++ py "</div></div>".

Definition scenario_list : str :=
  qq "<ul class='index-list'>" ++ nl
  ++ qq "<li><a href='a.html'>Title A</a>" ++ nl
  ++ qq "<div class='summary'>Sum A</div></li>" ++ nl
  ++ py "</ul>".

(** A page with the legacy marker and an empty content container. *)
Definition empty_page : str := qq "<!-- Sandvox --><div id='main-content'></div>".

Definition empty_page_world : world :=
  {| files := {[ [py "headaches"; py "a.html"] := empty_page ]}; stdout := [] |}.

End Modernize.

Import Modernize.

(** ** Reading [balance_divs] tag by tag *)

Module Tags.

(** What [open_re] and [close_re] decide at the head of a text
    ([re_match_open_re], [re_match_close_re]). *)
Definition is_open (s : str) : bool :=
  match s with
  | c1 :: c2 :: c3 :: c4 :: c5 :: _ =>
    Ascii.eqb c1 "<" && Ascii.eqb c2 "d" && Ascii.eqb c3 "i" && Ascii.eqb c4 "v"
    && (isspace c5 || Ascii.eqb c5 ">")
  | _ => false
  end.

(** After [</div]: white space, then [>]; [n] characters have been read. *)
Fixpoint close_tail (t : str) (n : nat) : option nat :=
  match t with
  | c :: t' =>
    if isspace c then close_tail t' (S n)
    else if Ascii.eqb c ">" then Some (S n)
    else None
  | [] => None
  end.

(** The length of the closing tag at the head of a text. *)
Definition close_len (s : str) : option nat :=
  match s with
  | c1 :: c2 :: c3 :: c4 :: c5 :: t =>
    if Ascii.eqb c1 "<" && Ascii.eqb c2 "/" && Ascii.eqb c3 "d" && Ascii.eqb c4 "i"
       && Ascii.eqb c5 "v"
    then close_tail t 5
    else None
  | _ => None
  end.

(** What follows [\s*] in [close_re]. *)
Definition gt_then_accept : cont :=
  fun p' prev' rest' cs' =>
    run NOFLAGS (Seq (Atom (ALit ">")) Eps) p' prev' rest' cs' accept.

(** The pieces [balance_divs] appends to [result]. *)
Inductive piece :=
| POpen (tag : str)
| PClose (tag : str)
| PChar (c : ascii).

Definition text (p : piece) : str :=
  match p with
  | POpen t => t
  | PClose t => t
  | PChar c => [c]
  end.

(** The pieces that are kept: a closing tag is dropped at depth zero. *)
Fixpoint keep (ps : list piece) (depth : nat) : list piece :=
  match ps with
  | [] => []
  | POpen t :: ps' => POpen t :: keep ps' (S depth)
  | PClose t :: ps' =>
    match depth with
    | O => keep ps' O
    | S d => PClose t :: keep ps' d
    end
  | PChar c :: ps' => PChar c :: keep ps' depth
  end.

(** [Scan s ps]: the loop reads the text [s] as the pieces [ps]. *)
Inductive Scan : str -> list piece -> Prop :=
| scan_end : Scan [] []
| scan_open s j ps :
    is_open s = true -> Extract.first_occ (py ">") s = Some j ->
    Scan (skipn (S j) s) ps -> Scan s (POpen (firstn (S j) s) :: ps)
| scan_close s n ps :
    is_open s = false -> close_len s = Some n ->
    Scan (skipn n s) ps -> Scan s (PClose (firstn n s) :: ps)
| scan_char c t ps :
    is_open (c :: t) = false -> close_len (c :: t) = None ->
    Scan t ps -> Scan (c :: t) (PChar c :: ps).

(** [Stuck s]: reading [s], the loop comes to an opening tag that no [>]
    follows. *)
Inductive Stuck : str -> Prop :=
| stuck_here s :
    is_open s = true -> Extract.first_occ (py ">") s = None -> Stuck s
| stuck_open s j :
    is_open s = true -> Extract.first_occ (py ">") s = Some j ->
    Stuck (skipn (S j) s) -> Stuck s
| stuck_close s n :
    is_open s = false -> close_len s = Some n -> Stuck (skipn n s) -> Stuck s
| stuck_char c t :
    is_open (c :: t) = false -> close_len (c :: t) = None -> Stuck t ->
    Stuck (c :: t).

(** The characters of a text before its first [<]. *)
Fixpoint run_until_lt (s : str) : str :=
  match s with
  | c :: t => if Ascii.eqb c "<" then [] else c :: run_until_lt t
  | [] => []
  end.

(** [stray_ok w]: a [<] followed by the characters [w] is not the beginning
    of a tag of the rebalancer, whatever comes after [w] ([stray_ok_spec]):
    completed the way a tag would go on, it is no tag. *)
Definition stray_ok (w : str) : bool :=
  negb (is_open ("<"%char :: w ++ skipn (length w) (py "div>")))
  && match close_len ("<"%char :: w ++ skipn (length w) (py "/div") ++ py ">") with
     | Some _ => false
     | None => true
     end.

(** A well-tagged text: every [<] begins an opening tag, or a closing tag,
    or, with the characters up to the next [<], something that is not the
    beginning of either; no opening tag holds a second [<]; and every
    opening tag is ended by a [>].  [in_tag] tells that the text starts
    inside an opening tag. *)
Fixpoint well_tagged_from (s : str) (in_tag : bool) : bool :=
  match s with
  | [] => negb in_tag
  | c :: t =>
    if Ascii.eqb c "<" then
      negb in_tag &&
      (if is_open s then well_tagged_from t true
       else match close_len s with
            | Some _ => well_tagged_from t false
            | None => stray_ok (run_until_lt t) && well_tagged_from t false
            end)
    else if Ascii.eqb c ">" then well_tagged_from t false
    else well_tagged_from t in_tag
  end.

Definition well_tagged (html : str) : bool := well_tagged_from html false.

(** The number of positions of [s] at which a tag begins. *)
Fixpoint count_tags (tag : str -> bool) (s : str) : nat :=
  match s with
  | [] => 0
  | _ :: t => (if tag s then 1 else 0) + count_tags tag t
  end.

Definition opening (s : str) : bool :=
  match re_match open_re s NOFLAGS with Some _ => true | None => false end.

Definition closing (s : str) : bool :=
  match re_match close_re s NOFLAGS with Some _ => true | None => false end.

(** No character of the text is [<]. *)
Definition no_lt (s : str) : bool :=
  forallb (fun c => negb (Ascii.eqb c "<")) s.

(** The characters of the pieces before the first tag or [<]. *)
Fixpoint plain_run (ps : list piece) : str :=
  match ps with
  | PChar c :: ps' => if Ascii.eqb c "<" then [] else c :: plain_run ps'
  | _ => []
  end.

(** A piece that reads as itself before the pieces [after]: a tag holds no
    [<] but the one that begins it, and a stray [<] is not the beginning of
    a tag. *)
Definition clean_piece (p : piece) (after : list piece) : Prop :=
  match p with
  | POpen t =>
    is_open t = true /\ Extract.first_occ (py ">") t = Some (length t - 1)%nat /\
    no_lt (tl t) = true
  | PClose t => close_len t = Some (length t) /\ no_lt (tl t) = true
  | PChar c => Ascii.eqb c "<" = true -> stray_ok (plain_run after) = true
  end.

Fixpoint clean_pieces (ps : list piece) : Prop :=
  match ps with
  | [] => True
  | p :: ps' => clean_piece p ps' /\ clean_pieces ps'
  end.

(** What the specification asks of [balance_divs] on the text [html]: it
    answers, answers the same when it is given its answer, and no prefix of
    its answer holds more closing tags than opening tags. *)
Definition rebalanced (html : str) : Prop :=
  exists out,
    balance_divs html = Some out /\
    balance_divs out = Some out /\
    forall n, (count_tags closing (firstn n out) <= count_tags opening (firstn n out))%nat.

(** An article after the cleaning rules: its wrappers have lost their
    opening tags and left two closing tags behind. *)
Definition unwrapped_article : str :=
  qq "<p>a < b</p></div><div class='x'><b>c</b><br /></div  ></div>d".

End Tags.

Import Extract Re Modernize Tags.

(** ** The file filter of [main] *)

Module Driver.

(** [SKIP_DIRS], a set in the script: the loop over it only asks whether
    some member matches, so the order of the list does not matter. *)
Definition SKIP_DIRS : list str :=
  [py "_Resources"; py "_Media"; py "_tools"; py "sandvox_Sunburst";
   py "sandvox_Imagine"; py "cgi-bin"; py ".git"; py ".claude";
   py "node_modules"].

(** The value of [skip] at the end of the body of the loop of [main] over
    the documents, [rel] being the path relative to [SITE_ROOT]. *)
Definition main_skips (rel : path) : bool :=
  let parts := rel in
  let skip :=
    existsb (fun skip_dir =>
               existsb (fun p => str_eqb p skip_dir) (removelast parts))
            SKIP_DIRS in
  if startswith (rel_str rel) (py "pog/Media") then true else skip.

(** [files] after the loop, [found] being [sorted(SITE_ROOT.rglob('*.html'))]
    relative to [SITE_ROOT]. *)
Definition discover (found : list path) : list path :=
  filter (fun rel => negb (main_skips rel)) found.

(** The last loop of [main], over the documents found: [originals] holds
    the texts read before any document was changed, and a document whose
    text could not be read is passed over.  The answer is the value of
    [modified] and the world at the end of the loop. *)
Fixpoint main_loop (SITE_ROOT : str) (paths : list path)
    (originals : gmap path str) (modified : Z) (w : world)
  : option (Z * world) :=
  match paths with
  | [] => Some (modified, w)
  | file_path :: paths' =>
    match originals !! file_path with
    | None => main_loop SITE_ROOT paths' originals modified w
    | Some html =>
      '(result, w) ← process_file SITE_ROOT file_path html w;
      if (result : bool)
      then main_loop SITE_ROOT paths' originals (modified + 1)
             (print (py "  OK  " ++ rel_str file_path) w)
      else main_loop SITE_ROOT paths' originals modified w
    end
  end.

End Driver.

(** ** Notions the further theorems speak of *)

Module Props.

(** The lines of [build_nav] that carry the active class. *)
Definition active_lines (root_prefix active : str) : list str :=
  filter (fun line => startswith line (qq "          <li class='active'>"))
         (map (nav_item root_prefix active) NAV_ITEMS).

(** [Removes s t]: the text [t] is the text [s] with some closing tags of
    the rebalancer cut out, every other character kept in its place. *)
Inductive Removes : str -> str -> Prop :=
| removes_nil : Removes [] []
| removes_keep c s t : Removes s t -> Removes (c :: s) (c :: t)
| removes_tag tag s t :
    close_len tag = Some (length tag) -> Removes s t -> Removes (tag ++ s) t.

(** Somewhere in the text an opening tag of the rebalancer begins that no
    [>] follows. *)
Fixpoint has_unclosed_open (s : str) : bool :=
  (opening s && negb (str_in (py ">") s))
  || match s with
     | [] => false
     | _ :: t => has_unclosed_open t
     end.

(** An opening tag, a closing tag of [extract_div_content] begins the
    text. *)
Definition opens_at (s : str) : bool := startswith s (py "<div").
Definition closes_at (s : str) : bool := startswith s (py "</div>").

(** The number of positions below [n] of [s] at which a tag begins. *)
Fixpoint count_below (tag : str -> bool) (s : str) (n : nat) {struct n} : nat :=
  match n, s with
  | S n', _ :: t => (if tag s then 1 else 0) + count_below tag t n'
  | _, _ => 0
  end.

(** The matches [ms] lie in the text [s] one after the other, from position
    [p] on. *)
Fixpoint matches_in (s : str) (p : nat) (ms : list rmatch) : Prop :=
  match ms with
  | [] => True
  | m :: ms' =>
    (p <= m_start m <= m_end m)%nat /\ (m_end m <= length s)%nat /\
    matches_in s (m_end m) ms'
  end.

(** [process_file] answers [True] on the original text of the document. *)
Definition modernizes (SITE_ROOT : str) (originals : gmap path str) (w : world)
    (file_path : path) : bool :=
  match originals !! file_path with
  | Some html =>
    match process_file SITE_ROOT file_path html w with
    | Some (true, _) => true
    | _ => false
    end
  | None => false
  end.

(** The text of a page before its title element. *)
Definition title_lead : str :=
  py "<!DOCTYPE html>" ++ nl
  ++ qq "<html lang='en'>" ++ nl
  ++ py "<head>" ++ nl
  ++ qq "  <meta charset='UTF-8' />" ++ nl
  ++ qq "  <meta name='viewport' content='width=device-width, initial-scale=1.0' />" ++ nl
  ++ py "  ".

(** No match of the title pattern can begin within [pre], whatever text
    follows [pre]: every [<] of [pre] is followed, within [pre], by a
    character other than [t] and [T]. *)
Fixpoint no_title_start (pre : str) : bool :=
  match pre with
  | [] => true
  | c :: t =>
    (negb (Ascii.eqb c "<")
     || match t with
        | d :: _ => negb (Ascii.eqb (lower_char d) "t")
        | [] => false
        end)
    && no_title_start t
  end.

(** The least number of characters a match of the pattern takes outside
    its groups. *)
Fixpoint width_out (r : regex) : nat :=
  match r with
  | Atom _ => 1
  | Rep _ mn _ _ => mn
  | Seq r1 r2 => width_out r1 + width_out r2
  | Alt r1 r2 => Nat.min (width_out r1) (width_out r2)
  | _ => 0
  end.

(** The pattern has no group. *)
Fixpoint groupless (r : regex) : bool :=
  match r with
  | Seq r1 r2 | Alt r1 r2 => groupless r1 && groupless r2
  | Group _ _ => false
  | Look r1 => groupless r1
  | _ => true
  end.

(** Every group of the pattern is a repetition of one character class,
    and none lies in a lookahead: so it is with every pattern of the
    script. *)
Fixpoint flat (r : regex) : bool :=
  match r with
  | Seq r1 r2 | Alt r1 r2 => flat r1 && flat r2
  | Group _ (Rep _ _ _ _) => true
  | Group _ _ => false
  | Look r1 => groupless r1
  | _ => true
  end.

(** The groups of a flat pattern: the number of the group, the character
    class it repeats, and how often at least. *)
Fixpoint group_atoms (r : regex) : list (nat * (atom * nat)) :=
  match r with
  | Seq r1 r2 | Alt r1 r2 => group_atoms r1 ++ group_atoms r2
  | Group n (Rep a mn _ _) => [(n, (a, mn))]
  | _ => []
  end.

(** The groups every match of the pattern binds: those that lie on no
    alternative. *)
Fixpoint bound_groups (r : regex) : list nat :=
  match r with
  | Seq r1 r2 => bound_groups r1 ++ bound_groups r2
  | Group n r1 => n :: bound_groups r1
  | _ => []
  end.

(** The number of characters the groups took. *)
Fixpoint gsum (cs : caps) : nat :=
  match cs with
  | [] => 0
  | (_, (a, b)) :: cs' => (b - a) + gsum cs'
  end.

(** A group bound by a match of [r] that began at position [p] of a text,
    [rest] being the text from [p] on, and ended at [p']: the group lies
    within the match, and it is made of characters of its class, as many
    as the pattern asks for. *)
Definition cap_ok (fl : flags) (r : regex) (p : nat) (rest : str) (p' : nat)
    (c : nat * (nat * nat)) : Prop :=
  let '(n, (a, b)) := c in
  (p <= a)%nat /\ (a <= b)%nat /\ (b <= p')%nat /\
  exists (at_ : atom) (mn : nat),
    In (n, (at_, mn)) (group_atoms r) /\ (mn <= b - a)%nat /\
    Forall (fun ch => atom_ok fl at_ ch = true)
           (firstn (b - a) (skipn (a - p) rest)).

(** [m] is a match of [r] in the text [s]. *)
Definition is_match (fl : flags) (r : regex) (s : str) (m : rmatch) : Prop :=
  m_subj m = s /\ (m_start m <= length s)%nat /\
  exists prev,
    run fl r (m_start m) prev (skipn (m_start m) s) [] accept
    = Some (m_end m, m_caps m).

(** A markup tag begins the text: a [<], a character other than [>], and
    a [>] further on. *)
Definition tag_at (s : str) : bool :=
  match s with
  | a :: c :: t =>
    Ascii.eqb a "<" && negb (Ascii.eqb c ">")
    && existsb (fun d => Ascii.eqb d ">") t
  | _ => false
  end.

(** A markup tag begins somewhere in the text. *)
Fixpoint has_tag (s : str) : bool :=
  tag_at s
  || match s with
     | [] => false
     | _ :: t => has_tag t
     end.

(** A space or a tab. *)
Definition is_blank (c : ascii) : bool :=
  Ascii.eqb c " " || Ascii.eqb c "009".

(** The text begins with spaces and tabs that end a line: one or more of
    them, and then a line feed. *)
Fixpoint line_end_at (s : str) : bool :=
  match s with
  | c :: t => is_blank c && (startswith t nl || line_end_at t)
  | [] => false
  end.

(** The text begins with a space or a tab right before a line feed. *)
Definition blank_nl_at (s : str) : bool :=
  match s with
  | c :: t => is_blank c && startswith t nl
  | [] => false
  end.

(** Somewhere in the text a space or a tab stands right before a line
    feed. *)
Fixpoint has_trailing_blank (s : str) : bool :=
  blank_nl_at s
  || match s with
     | [] => false
     | _ :: t => has_trailing_blank t
     end.

(** The text does not begin with white space. *)
Definition no_lead (s : str) : Prop :=
  match s with
  | c :: _ => isspace c = false
  | [] => True
  end.

End Props.

(** ** Texts the further theorems speak of *)

Module Samples.

(** A legacy page, the world that holds it, and the world after
    [process_file]. *)
Definition legacy_page : str :=
  qq "<!-- Sandvox --><title>Hi | Old</title><div id='main-content'><p>x</p></div>".

Definition legacy_world : world :=
  {| files := {[ [py "a.html"] := legacy_page; [py "b.html"] := py "other" ]};
     stdout := [] |}.

Definition modern_page : str :=
  make_page (py "Hi") (build_nav [] (get_active_nav [py "a.html"])) (py "<p>x</p>") [].

Definition modern_world : world := write_text [py "a.html"] modern_page legacy_world.

(** A piece of legacy content with a time stamp, a placeholder line break
    and trailing white space. *)
Definition legacy_article : str :=
  qq "<div class='article-info'> <div class='timestamp'>May 4</div> </div>"
  ++ qq "<p>a</p>  " ++ nl ++ qq "<br class='webkit-block-placeholder' />".

(** A legacy page whose main content breaks off inside an opening tag. *)
Definition cut_off_page : str :=
  qq "<div id='main-content'><p>x</p><div ".

End Samples.

(** * Theorems *)

Import Extract Re Modernize Tags Driver Props Samples.

(** ** The model at work *)

Section Examples.

Example extract_nested :
  extract_div_content (py "<div>a<div>b</div>c</div>d") 5
  = Some (py "a<div>b</div>c", 25).
Proof. reflexivity. Qed.

Example extract_unclosed :
  extract_div_content (py "<div>a<div>b</div>c") 5
  = Some (py "a<div>b</div>c", 19).
Proof. reflexivity. Qed.

Example balance_drops_unmatched :
  balance_divs (qq "a<div class='x'>b</div  ></div>c</div><div>")
  = Some (qq "a<div class='x'>b</div  >c<div>").
Proof. vm_compute; reflexivity. Qed.

Example thumbnails_need_src_before_alt :
  findall3 thumbnail_re
    (qq "<a href='p1.html'><img alt='Pic 1' src='p1.jpg' /></a> <a href='p2.html'><img  class='x' src='p2.jpg' width='3' alt='' ></a>")
    DOTALL
  = [(py "p2.html", py "p2.jpg", [])].
Proof. vm_compute; reflexivity. Qed.

Example gallery_of_one :
  transform_gallery_index (qq "<a href='p1.html'><img src='p1.jpg' alt='Pic 1'/></a>")
  = qq "<div class='gallery-grid'>" ++ nl
    ++ qq "<div class='gallery-item'><a href='p1.html'><img src='p1.jpg' alt='Pic 1' loading='lazy' /></a></div>"
    ++ nl ++ py "</div>".
Proof. vm_compute; reflexivity. Qed.

Example title_before_the_bar :
  extract_title (qq "<html><TITLE lang='x'> Foo | Bar </title>") = py "Foo".
Proof. vm_compute; reflexivity. Qed.

Example index_section_split :
  extract_index_section
    (qq "pre<div id='index' class='photogrid-index'>abc<div>d</div></div>  <!-- index -->post")
  = Some (py "pre", py "abc<div>d</div>", py "post").
Proof. vm_compute; reflexivity. Qed.

End Examples.

(** ** Strings: slices, prefixes and [find] *)

Section StrFacts.

Lemma len_nonneg (s : str) : 0 <= len s.
Proof. unfold len; lia. Qed.

Lemma len_app (s t : str) : len (s ++ t) = len s + len t.
Proof. unfold len; rewrite length_app; lia. Qed.

Lemma clamp_in_range (n i : Z) : 0 <= i <= n -> clamp n i = i.
Proof. intros H; unfold clamp; destruct (Z.ltb_spec i 0); lia. Qed.

Lemma slice_in_range (s : str) (a b : Z) :
  0 <= a <= b -> b <= len s ->
  slice s a b = firstn (Z.to_nat (b - a)) (skipn (Z.to_nat a) s).
Proof.
  intros Ha Hb; unfold slice.
  rewrite !clamp_in_range by lia; reflexivity.
Qed.

Lemma slice_from_in_range (s : str) (a : Z) :
  0 <= a <= len s -> slice_from s a = skipn (Z.to_nat a) s.
Proof.
  intros Ha; unfold slice_from.
  rewrite slice_in_range by lia.
  apply firstn_all2.
  rewrite length_skipn; unfold len; lia.
Qed.

Lemma len_slice (s : str) (a b : Z) :
  0 <= a <= b -> b <= len s -> len (slice s a b) = b - a.
Proof.
  intros Ha Hb; rewrite slice_in_range by lia.
  unfold len in *; rewrite length_firstn, length_skipn; lia.
Qed.

Lemma startswith_app (s p : str) :
  startswith s p = true <-> exists t, s = p ++ t.
Proof.
  revert s; induction p as [|c p IH]; intros s; simpl.
  - split; [intros _; exists s; reflexivity | reflexivity].
  - destruct s as [|d s]; [split; [discriminate | intros [t Ht]; discriminate]|].
    rewrite andb_true_iff, IH, Ascii.eqb_eq.
    split.
    + intros [-> [t ->]]; exists t; reflexivity.
    + intros [t Ht]; injection Ht as -> ->; split; [reflexivity | exists t; reflexivity].
Qed.

Lemma startswith_length (s p : str) :
  startswith s p = true -> (length p <= length s)%nat.
Proof.
  intros H; apply startswith_app in H as [t ->]; rewrite length_app; lia.
Qed.

Lemma find_from_first_occ (sub s : str) (i : Z) :
  find_from sub s i =
  match first_occ sub s with Some k => i + Z.of_nat k | None => -1 end.
Proof.
  revert i; induction s as [|c s IH]; intros i; simpl.
  - destruct sub; simpl; [lia | reflexivity].
  - destruct (startswith (c :: s) sub); [lia|].
    rewrite IH; destruct (first_occ sub s); simpl; lia.
Qed.

Lemma find_in_range (html sub : str) (pos : Z) :
  0 <= pos <= len html ->
  find html sub pos = find_from sub (skipn (Z.to_nat pos) html) pos.
Proof.
  intros H; unfold find.
  destruct (Z.ltb_spec (len html) pos); [lia|].
  rewrite clamp_in_range by lia; reflexivity.
Qed.

Lemma first_occ_none (sub s : str) :
  first_occ sub s = None -> forall k, startswith (skipn k s) sub = false.
Proof.
  induction s as [|c s IH]; simpl; intros H k.
  - destruct (startswith [] sub) eqn:E; [discriminate|].
    destruct k; exact E.
  - destruct (startswith (c :: s) sub) eqn:E; [discriminate|].
    destruct (first_occ sub s); [discriminate|].
    destruct k; [exact E | apply IH; reflexivity].
Qed.

Lemma first_occ_some (sub s : str) (k : nat) :
  first_occ sub s = Some k ->
  startswith (skipn k s) sub = true /\
  (forall j, (j < k)%nat -> startswith (skipn j s) sub = false).
Proof.
  revert k; induction s as [|c s IH]; simpl; intros k H.
  - destruct (startswith [] sub) eqn:E; [|discriminate].
    injection H as <-; split; [exact E | intros j Hj; lia].
  - destruct (startswith (c :: s) sub) eqn:E.
    + injection H as <-; split; [exact E | intros j Hj; lia].
    + destruct (first_occ sub s) as [k'|]; [|discriminate].
      injection H as <-.
      destruct (IH k' eq_refl) as [H1 H2].
      split; [exact H1|].
      intros [|j] Hj; [exact E | apply H2; lia].
Qed.

Lemma first_occ_bound (sub s : str) (k : nat) :
  sub <> [] -> first_occ sub s = Some k -> (k + length sub <= length s)%nat.
Proof.
  intros Hne H; apply first_occ_some in H as [H _].
  apply startswith_length in H.
  rewrite length_skipn in H.
  destruct sub as [|c sub]; [congruence|]; simpl in *; lia.
Qed.

End StrFacts.

(** ** The nested-container extractor *)

Section ExtractFacts.

Lemma matching_close_skip (n : nat) : forall (s : str) (i : Z) (d : nat),
  (forall j, (j < n)%nat -> no_tag_at (skipn j s)) ->
  (n <= length s)%nat ->
  matching_close_from s i d =
  matching_close_from (skipn n s) (i + Z.of_nat n) d.
Proof.
  induction n as [|n IH]; intros s i d Hno Hn.
  - simpl; f_equal; lia.
  - destruct s as [|c s]; [simpl in Hn; lia|].
    destruct (Hno O ltac:(lia)) as [Hc Ho].
    change (skipn 0 (c :: s)) with (c :: s) in Hc, Ho.
    change (matching_close_from (c :: s) i d)
      with (if startswith (c :: s) (py "</div>") then
              match d with O => Some i | S d' => matching_close_from s (i + 1) d' end
            else if startswith (c :: s) (py "<div")
                 then matching_close_from s (i + 1) (S d)
                 else matching_close_from s (i + 1) d).
    rewrite Hc, Ho.
    rewrite (IH s (i + 1) d).
    + simpl skipn; f_equal; lia.
    + intros j Hj; apply (Hno (S j)); lia.
    + simpl in Hn; lia.
Qed.

Lemma matching_close_none (s : str) : forall (i : Z) (d : nat),
  (forall k, startswith (skipn k s) (py "</div>") = false) ->
  matching_close_from s i d = None.
Proof.
  induction s as [|c s IH]; intros i d H; [reflexivity|].
  pose proof (H O) as H0; change (skipn 0 (c :: s)) with (c :: s) in H0.
  change (matching_close_from (c :: s) i d)
    with (if startswith (c :: s) (py "</div>") then
            match d with O => Some i | S d' => matching_close_from s (i + 1) d' end
          else if startswith (c :: s) (py "<div")
               then matching_close_from s (i + 1) (S d)
               else matching_close_from s (i + 1) d).
  rewrite H0.
  destruct (startswith (c :: s) (py "<div")); apply IH; intros k; apply (H (S k)).
Qed.

Lemma matching_close_at_open (t : str) (i : Z) (d : nat) :
  matching_close_from (py "<div" ++ t) i d = matching_close_from t (i + 4) (S d).
Proof.
  change (matching_close_from t (i + 1 + 1 + 1 + 1) (S d)
          = matching_close_from t (i + 4) (S d)).
  f_equal; lia.
Qed.

Lemma matching_close_at_close (t : str) (i : Z) (d : nat) :
  matching_close_from (py "</div>" ++ t) i d =
  match d with
  | O => Some i
  | S d' => matching_close_from t (i + 6) d'
  end.
Proof.
  destruct d as [|d']; [reflexivity|].
  change (matching_close_from t (i + 1 + 1 + 1 + 1 + 1 + 1) d'
          = matching_close_from t (i + 6) d').
  f_equal; lia.
Qed.

Lemma skipn_skipn_add {A} (n m : nat) (l : list A) :
  skipn n (skipn m l) = skipn (m + n) l.
Proof.
  revert l; induction m as [|m IH]; intros l; [reflexivity|].
  destruct l; [now rewrite !skipn_nil | simpl; apply IH].
Qed.

Lemma skipn_app_eq {A} (p t l : list A) (k : nat) :
  skipn k l = p ++ t -> skipn (k + length p) l = t.
Proof.
  intros H; rewrite <- skipn_skipn_add, H.
  rewrite skipn_app, Nat.sub_diag, skipn_all; reflexivity.
Qed.

(** One iteration of the scan, seen from the two [find] results. *)
Lemma matching_close_step (s : str) (i : Z) (d : nat) :
  match first_occ (py "</div>") s with
  | None => matching_close_from s i d = None
  | Some kc =>
    let at_close :=
      matching_close_from s i d =
      match d with
      | O => Some (i + Z.of_nat kc)
      | S d' => matching_close_from (skipn (kc + 6) s) (i + Z.of_nat kc + 6) d'
      end in
    match first_occ (py "<div") s with
    | Some ko =>
      if (ko <? kc)%nat
      then matching_close_from s i d =
           matching_close_from (skipn (ko + 4) s) (i + Z.of_nat ko + 4) (S d)
      else at_close
    | None => at_close
    end
  end.
Proof.
  destruct (first_occ (py "</div>") s) as [kc|] eqn:Ec.
  2:{ apply matching_close_none, first_occ_none, Ec. }
  pose proof (first_occ_bound (py "</div>") s kc ltac:(cbv; discriminate) Ec) as Bc.
  simpl length in Bc.
  destruct (first_occ_some _ _ _ Ec) as [Hc Hc'].
  assert (Hclose : forall ko',
    (forall j, (j < kc)%nat -> (j < ko')%nat \/ first_occ (py "<div") s = None) ->
    (forall j, (j < ko')%nat -> startswith (skipn j s) (py "<div") = false) ->
    matching_close_from s i d =
      match d with
      | O => Some (i + Z.of_nat kc)
      | S d' => matching_close_from (skipn (kc + 6) s) (i + Z.of_nat kc + 6) d'
      end).
  { intros ko' Hlt Hno.
    rewrite (matching_close_skip kc) by
      first [ lia
            | intros j Hj; split; [apply Hc', Hj|];
              destruct (Hlt j Hj) as [Hj'|Hn];
              [apply Hno, Hj' | apply first_occ_none, Hn] ].
    apply startswith_app in Hc as [t Ht].
    rewrite Ht, matching_close_at_close.
    pose proof (skipn_app_eq _ _ _ _ Ht) as Hs; simpl length in Hs.
    rewrite Hs; reflexivity. }
  cbv zeta.
  destruct (first_occ (py "<div") s) as [ko|] eqn:Eo.
  - pose proof (first_occ_bound (py "<div") s ko ltac:(cbv; discriminate) Eo) as Bo.
    simpl length in Bo.
    destruct (first_occ_some _ _ _ Eo) as [Ho Ho'].
    destruct (Nat.ltb_spec ko kc) as [Hlt|Hge].
    + rewrite (matching_close_skip ko) by
        first [ lia | intros j Hj; split; [apply Hc'; lia | apply Ho', Hj] ].
      apply startswith_app in Ho as [t Ht].
      rewrite Ht, matching_close_at_open.
      pose proof (skipn_app_eq _ _ _ _ Ht) as Hs; simpl length in Hs.
      rewrite Hs; reflexivity.
    + apply (Hclose ko); [intros j Hj; left; lia | exact Ho'].
  - apply (Hclose O); [intros j Hj; right; reflexivity | intros j Hj; lia].
Qed.

(** The loop computes the matching closing tag, and never runs out of fuel
    when it is given more fuel than there are characters left. *)
Lemma extract_loop_spec (html : str) (start : Z) :
  forall (fuel : nat) (pos depth : Z),
  0 <= pos <= len html -> 1 <= depth ->
  (Z.to_nat (len html - pos) < fuel)%nat ->
  extract_loop fuel html start depth pos =
  Some match matching_close_from (skipn (Z.to_nat pos) html) pos
               (Z.to_nat (depth - 1)) with
       | Some e => (slice html start e, e + 6)
       | None => (slice_from html start, len html)
       end.
Proof.
  induction fuel as [|fuel IH]; intros pos depth Hpos Hdepth Hfuel; [lia|].
  cbn [extract_loop].
  destruct (Z.ltb_spec 0 depth) as [_|]; [|lia].
  destruct (Z.ltb_spec pos (len html)) as [Hlt|Hge]; cbn [andb].
  2:{ rewrite skipn_all2 by (unfold len in *; lia); reflexivity. }
  rewrite !find_in_range, !find_from_first_occ by lia.
  set (s := skipn (Z.to_nat pos) html).
  assert (Hlen : length s = (length html - Z.to_nat pos)%nat)
    by (unfold s; apply length_skipn).
  pose proof (matching_close_step s pos (Z.to_nat (depth - 1))) as Hstep.
  destruct (first_occ (py "</div>") s) as [kc|] eqn:Ec.
  2:{ rewrite Hstep; reflexivity. }
  pose proof (first_occ_bound (py "</div>") s kc ltac:(cbv; discriminate) Ec) as Bc.
  simpl length in Bc.
  destruct (Z.eqb_spec (pos + Z.of_nat kc) (-1)) as [|_]; [lia|].
  assert (Hclose :
    matching_close_from s pos (Z.to_nat (depth - 1)) =
      match Z.to_nat (depth - 1) with
      | O => Some (pos + Z.of_nat kc)
      | S d' => matching_close_from (skipn (kc + 6) s) (pos + Z.of_nat kc + 6) d'
      end ->
    (let depth0 := depth - 1 in
     if depth0 =? 0
     then Some (slice html start (pos + Z.of_nat kc), pos + Z.of_nat kc + 6)
     else extract_loop fuel html start depth0 (pos + Z.of_nat kc + 6)) =
    Some match matching_close_from s pos (Z.to_nat (depth - 1)) with
         | Some e => (slice html start e, e + 6)
         | None => (slice_from html start, len html)
         end).
  { intros ->; cbv zeta.
    destruct (Z.eqb_spec (depth - 1) 0) as [E0|N0].
    - rewrite E0; reflexivity.
    - rewrite IH by (unfold len in *; lia).
      unfold s; rewrite skipn_skipn_add.
      replace (Z.to_nat (pos + Z.of_nat kc + 6)) with (Z.to_nat pos + (kc + 6))%nat by lia.
      destruct (Z.to_nat (depth - 1)) as [|d'] eqn:Ed; [lia|].
      replace (Z.to_nat (depth - 1 - 1)) with d' by lia.
      reflexivity. }
  destruct (first_occ (py "<div") s) as [ko|] eqn:Eo.
  - pose proof (first_occ_bound (py "<div") s ko ltac:(cbv; discriminate) Eo) as Bo.
    simpl length in Bo.
    destruct (Z.eqb_spec (pos + Z.of_nat ko) (-1)) as [|_]; [lia|].
    cbn [negb andb].
    destruct (Z.ltb_spec (pos + Z.of_nat ko) (pos + Z.of_nat kc)) as [Hlt'|Hge'].
    + destruct (Nat.ltb_spec ko kc) as [_|]; [|lia].
      rewrite Hstep, IH by (unfold len in *; lia).
      unfold s; rewrite skipn_skipn_add.
      replace (Z.to_nat (pos + Z.of_nat ko + 4)) with (Z.to_nat pos + (ko + 4))%nat by lia.
      replace (Z.to_nat (depth + 1 - 1)) with (S (Z.to_nat (depth - 1))) by lia.
      reflexivity.
    + destruct (Nat.ltb_spec ko kc) as [|_]; [lia|].
      apply Hclose, Hstep.
  - cbn [Z.eqb negb andb].
    apply Hclose, Hstep.
Qed.

Lemma matching_close_bounds (s : str) : forall (i : Z) (d : nat) (e : Z),
  matching_close_from s i d = Some e -> i <= e /\ e + 6 <= i + len s.
Proof.
  induction s as [|c s IH]; intros i d e H; [discriminate|].
  change (matching_close_from (c :: s) i d)
    with (if startswith (c :: s) (py "</div>") then
            match d with O => Some i | S d' => matching_close_from s (i + 1) d' end
          else if startswith (c :: s) (py "<div")
               then matching_close_from s (i + 1) (S d)
               else matching_close_from s (i + 1) d) in H.
  assert (Hl : len (c :: s) = len s + 1) by (unfold len; simpl length; lia).
  destruct (startswith (c :: s) (py "</div>")) eqn:E.
  - destruct d as [|d'].
    + injection H as <-.
      apply startswith_length in E; simpl length in E.
      unfold len; simpl length; lia.
    + apply IH in H; lia.
  - destruct (startswith (c :: s) (py "<div")); apply IH in H; lia.
Qed.

Lemma extract_div_content_fuel_spec (html : str) (start_pos : Z) (fuel : nat) :
  0 <= start_pos <= len html -> (length html < fuel)%nat ->
  extract_div_content_fuel fuel html start_pos =
  Some match matching_close html start_pos with
       | Some e => (slice html start_pos e, e + 6)
       | None => (slice_from html start_pos, len html)
       end.
Proof.
  intros Hs Hf; unfold extract_div_content_fuel, matching_close.
  rewrite extract_loop_spec by (unfold len in *; lia).
  reflexivity.
Qed.

(** C1. [extract_div_content] is total on every text and every start
    position within it: it returns (with any fuel beyond the length of the
    text) a region that is the slice of the text from the start position to
    some end position no later than the end of the text, so the region is
    never longer than what remains of the text; the end position is the
    matching closing tag when there is one, and the end of the text when
    there is none. *)
Theorem extract_div_content_total (html : str) (start_pos : Z) :
  0 <= start_pos <= len html ->
  exists (region : str) (next e : Z),
    extract_div_content html start_pos = Some (region, next) /\
    (forall fuel, (length html < fuel)%nat ->
       extract_div_content_fuel fuel html start_pos = Some (region, next)) /\
    start_pos <= e <= len html /\
    region = slice html start_pos e /\
    len region <= len html - start_pos /\
    (forall e', matching_close html start_pos = Some e' ->
       region = slice html start_pos e' /\ next = e' + 6) /\
    (matching_close html start_pos = None ->
       region = slice_from html start_pos /\ next = len html).
Proof.
  intros Hs.
  pose proof (extract_div_content_fuel_spec html start_pos) as Hspec.
  unfold extract_div_content.
  destruct (matching_close html start_pos) as [e|] eqn:Em.
  - unfold matching_close in Em.
    apply matching_close_bounds in Em.
    assert (len (skipn (Z.to_nat start_pos) html) = len html - start_pos)
      by (unfold len in *; rewrite length_skipn; lia).
    exists (slice html start_pos e), (e + 6), e.
    repeat split; try lia.
    + apply Hspec; [exact Hs | lia].
    + intros fuel Hf; apply Hspec; [exact Hs | exact Hf].
    + rewrite len_slice by lia; lia.
    + injection H0 as <-; reflexivity.
    + injection H0 as <-; reflexivity.
    + discriminate.
    + discriminate.
  - exists (slice_from html start_pos), (len html), (len html).
    repeat split; try lia; try discriminate.
    + apply Hspec; [exact Hs | lia].
    + intros fuel Hf; apply Hspec; [exact Hs | exact Hf].
    + unfold slice_from; rewrite len_slice by lia; lia.
Qed.

Lemma extract_div_content_total_witness :
  0 <= 5 <= len (py "<div>a<div>b</div>c") /\
  exists (region : str) (next e : Z),
    extract_div_content (py "<div>a<div>b</div>c") 5 = Some (region, next) /\
    (forall fuel, (length (py "<div>a<div>b</div>c") < fuel)%nat ->
       extract_div_content_fuel fuel (py "<div>a<div>b</div>c") 5
       = Some (region, next)) /\
    5 <= e <= len (py "<div>a<div>b</div>c") /\
    region = slice (py "<div>a<div>b</div>c") 5 e /\
    len region <= len (py "<div>a<div>b</div>c") - 5 /\
    (forall e', matching_close (py "<div>a<div>b</div>c") 5 = Some e' ->
       region = slice (py "<div>a<div>b</div>c") 5 e' /\ next = e' + 6) /\
    (matching_close (py "<div>a<div>b</div>c") 5 = None ->
       region = slice_from (py "<div>a<div>b</div>c") 5 /\
       next = len (py "<div>a<div>b</div>c")).
Proof.
  split; [vm_compute; split; discriminate|].
  apply (extract_div_content_total (py "<div>a<div>b</div>c") 5).
  vm_compute; split; discriminate.
Defined.

End ExtractFacts.

(** ** The page assembler and the test for pages already modernized *)

Section PageFacts.

Lemma startswith_self_app (p t : str) : startswith (p ++ t) p = true.
Proof. apply startswith_app; exists t; reflexivity. Qed.

Lemma str_in_app (pre sub post : str) : str_in sub (pre ++ sub ++ post) = true.
Proof.
  induction pre as [|c pre IH].
  - destruct sub as [|d sub]; [destruct post; reflexivity|].
    cbn [app str_in].
    change (d :: sub ++ post) with ((d :: sub) ++ post).
    rewrite startswith_self_app; reflexivity.
  - cbn [app str_in]; rewrite IH; apply orb_true_r.
Qed.

Lemma slice_to_firstn (s : str) (n : Z) :
  0 <= n -> slice_to s n = firstn (Z.to_nat n) s.
Proof.
  intros Hn; unfold slice_to, slice.
  pose proof (len_nonneg s) as Hl.
  rewrite (clamp_in_range (len s) 0) by lia.
  unfold clamp; destruct (Z.ltb_spec n 0) as [|_]; [lia|].
  change (skipn (Z.to_nat 0) s) with s; rewrite Z.sub_0_r.
  destruct (Z.le_ge_cases n (len s)) as [Hle|Hge].
  - rewrite Z.min_l by lia; reflexivity.
  - rewrite Z.min_r by lia.
    rewrite !firstn_all2 by (unfold len in *; lia); reflexivity.
Qed.

Lemma str_in_firstn (pre sub post : str) (n : nat) :
  (length pre + length sub <= n)%nat ->
  str_in sub (firstn n (pre ++ sub ++ post)) = true.
Proof.
  intros Hn.
  replace n with (length (pre ++ sub) + (n - length (pre ++ sub)))%nat
    by (rewrite length_app; lia).
  rewrite app_assoc, firstn_app_2, <- app_assoc.
  apply str_in_app.
Qed.

Lemma make_page_navbar (title nav_html content root_prefix : str) :
  exists rest,
    make_page title nav_html content root_prefix
    = page_head title root_prefix ++ py "navbar" ++ rest.
Proof.
  eexists; unfold make_page, page_head.
  rewrite <- !app_assoc.
  reflexivity.
Qed.

Lemma make_page_doctype (title nav_html content root_prefix : str) :
  exists rest,
    make_page title nav_html content root_prefix
    = [] ++ py "<!DOCTYPE html>" ++ rest.
Proof. eexists; reflexivity. Qed.

Lemma length_page_head (title root_prefix : str) :
  length (page_head title root_prefix)
  = (299 + length title + length root_prefix)%nat.
Proof.
  unfold page_head.
  repeat (rewrite length_app; cbn [length py qq nl map list_ascii_of_string]).
  lia.
Qed.

(** C4, as the script has it.  A page made by [make_page] is recognised as
    already modernized whenever its title and its root prefix together are
    at most 195 characters long, whatever the navigation and the content:
    the first [navbar] then ends within the first 500 characters. *)
Theorem make_page_detected (title nav_html content root_prefix : str) :
  len title + len root_prefix <= 195 ->
  already_modernized (make_page title nav_html content root_prefix) = true.
Proof.
  intros Hlen; unfold already_modernized.
  rewrite !slice_to_firstn by lia.
  apply andb_true_iff; split.
  - destruct (make_page_doctype title nav_html content root_prefix) as [r ->].
    apply str_in_firstn; cbn; lia.
  - destruct (make_page_navbar title nav_html content root_prefix) as [r ->].
    apply str_in_firstn.
    rewrite length_page_head; unfold len in Hlen; cbn; lia.
Qed.

Lemma make_page_detected_witness :
  len (py "Damage") + len (py "../") <= 195 /\
  already_modernized
    (make_page (py "Damage") (build_nav (py "../") (py "headaches/"))
               (py "<p>Hello</p>") (py "../")) = true.
Proof.
  split; [vm_compute; discriminate|].
  apply make_page_detected; vm_compute; discriminate.
Defined.

(** C4, as the specification has it, fails: with a title of 196 characters
    the first [navbar] ends at character 501 of the page that [make_page]
    produces, and the page is not recognised. *)
Lemma make_page_long_title_not_detected :
  already_modernized (make_page (repeat "a"%char 196) [] [] []) = false.
Proof. vm_compute; reflexivity. Qed.

End PageFacts.

(** ** The relative root *)

Section RootFacts.

Lemma relative_root_repeat (file_path : path) :
  relative_root file_path = concat (repeat (py "../") (length file_path - 1)).
Proof.
  unfold relative_root, str_mul.
  destruct (Z.eqb_spec (Z.of_nat (length file_path) - 1) 0) as [E|N].
  - replace (length file_path - 1)%nat with O by lia; reflexivity.
  - replace (Z.to_nat (Z.of_nat (length file_path) - 1))
      with (length file_path - 1)%nat by lia.
    reflexivity.
Qed.

(** C9. The relative root of a document is [../] once per directory between
    the site root and the document, and nothing for a document in the site
    root; for a document two directories down, it is [../../], the stylesheet
    link of its page is [../../style.css], and every navigation link is the
    target of its item below [../../]. *)
Theorem relative_root_depth :
  (forall file_path : path,
     relative_root file_path
     = concat (repeat (py "../") (length file_path - 1))) /\
  (forall name : str, relative_root [name] = []) /\
  (forall dir1 dir2 name : str,
     let root_prefix := relative_root [dir1; dir2; name] in
     root_prefix = py "../../" /\
     (forall title nav_html content : str, exists before after : str,
        make_page title nav_html content root_prefix
        = before ++ qq "<link rel='stylesheet' href='../../style.css' />" ++ after) /\
     (forall active : str,
        build_nav root_prefix active
        = join nl (map (nav_line (py "../../") active) NAV_ITEMS))).
Proof.
  split; [exact relative_root_repeat|].
  split; [reflexivity|].
  intros dir1 dir2 name root_prefix.
  split; [reflexivity|].
  split.
  - intros title nav_html content.
    exists (py "<!DOCTYPE html>" ++ nl
            ++ qq "<html lang='en'>" ++ nl
            ++ py "<head>" ++ nl
            ++ qq "  <meta charset='UTF-8' />" ++ nl
            ++ qq "  <meta name='viewport' content='width=device-width, initial-scale=1.0' />" ++ nl
            ++ py "  <title>" ++ title ++ py " | Mighty Cheese</title>" ++ nl
            ++ qq "  <meta name='author' content='Colin Summers' />" ++ nl
            ++ py "  ").
    eexists.
    unfold make_page; subst root_prefix.
    rewrite <- !app_assoc.
    reflexivity.
  - intros active.
    reflexivity.
Qed.

End RootFacts.

(** ** The index transformer and the content cleaner *)

Section IndexFacts.

Lemma finditer_nil (r : regex) (s : str) (fl : flags) :
  finditer r s fl = [] <-> search r s fl = None.
Proof.
  unfold finditer, search; cbn [matches_from].
  destruct (Nat.ltb_spec (length s) 0) as [|_]; [lia|].
  destruct (search_at fl r s 0); split; intros H; congruence.
Qed.

Lemma nonempty_map {A B} (f : A -> B) (l : list A) :
  nonempty (map f l) = nonempty l.
Proof. destruct l; reflexivity. Qed.

Lemma nonempty_finditer (r : regex) (s : str) (fl : flags) :
  nonempty (finditer r s fl)
  = match search r s fl with Some _ => true | None => false end.
Proof.
  destruct (search r s fl) eqn:E.
  - destruct (finditer r s fl) eqn:F; [|reflexivity].
    apply finditer_nil in F; congruence.
  - apply finditer_nil in E; rewrite E; reflexivity.
Qed.

(** C6. When neither the thumbnail pattern nor the entry pattern matches
    anywhere in the index, [transform_gallery_index] answers the empty
    string. *)
Theorem transform_gallery_index_no_match (idx_inner : str) :
  search thumbnail_re idx_inner DOTALL = None ->
  search entry_re idx_inner DOTALL = None ->
  transform_gallery_index idx_inner = [].
Proof.
  intros Ht He; unfold transform_gallery_index, findall3.
  rewrite nonempty_map, !nonempty_finditer, Ht, He; reflexivity.
Qed.

Lemma transform_gallery_index_no_match_witness :
  search thumbnail_re (qq "<p>See <a href='x.html'>the list</a>.</p>") DOTALL = None /\
  search entry_re (qq "<p>See <a href='x.html'>the list</a>.</p>") DOTALL = None /\
  transform_gallery_index (qq "<p>See <a href='x.html'>the list</a>.</p>") = [].
Proof.
  split; [vm_compute; reflexivity|].
  split; [vm_compute; reflexivity|].
  apply transform_gallery_index_no_match; vm_compute; reflexivity.
Defined.

(** C7, as the script has it.  In the scenario, the content of the region
    is the index container alone, its inner content is the heading and the
    summary, and the transformer makes of it an unordered list (a [ul] of
    class [index-list]) of one item: the link to [a.html] with the text
    [Title A], followed inside the item by the block that holds [Sum A]. *)
Theorem transform_gallery_index_scenario :
  (exists main_content,
     extract_main_content scenario_region = Some main_content /\
     extract_index_section main_content = Some ([], scenario_index_inner, [])) /\
  length (finditer entry_re scenario_index_inner DOTALL) = 1%nat /\
  transform_gallery_index scenario_index_inner = scenario_list /\
  scenario_list = titled_list [(py "a.html", py "Title A", py "Sum A")].
Proof.
  split; [eexists; split; vm_compute; reflexivity|].
  split; [vm_compute; reflexivity|].
  split; vm_compute; reflexivity.
Qed.

(** C7, as the specification has it, fails: what the transformer makes of
    the scenario is not an ordered list.  It begins a [ul] element, and no
    [ol] element begins anywhere in it. *)
Lemma transform_gallery_index_scenario_unordered :
  is_ordered_list (transform_gallery_index scenario_index_inner) = false /\
  str_in (py "<ol") (transform_gallery_index scenario_index_inner) = false /\
  startswith (transform_gallery_index scenario_index_inner) (py "<ul") = true.
Proof. repeat split; vm_compute; reflexivity. Qed.

(** C8. Cleaning a callout container that holds only white space leaves
    nothing, and cleaning one that holds [X] leaves [X] in a
    [callout-content] container. *)
Theorem clean_content_callout :
  clean_content (qq "<div class='callout-container'>  </div>") = Some [] /\
  clean_content (qq "<div class='callout-container'>X</div>")
  = Some (qq "<div class='callout-content'>X</div>").
Proof. split; vm_compute; reflexivity. Qed.

End IndexFacts.

(** ** Skipped files *)

Section ProcessFacts.

Variable SITE_ROOT : str.

(** C10. [process_file] answers [False] and leaves every document as it
    was, the one it was called on included, when the text holds neither
    [sandvox] (in any letter case) nor [main-content], and when the
    extraction of the main content yields the empty string.  In the first
    case nothing is printed either; in the second a text that passed the
    first test gets the warning. *)
Theorem process_file_skips (file_path : path) (original_html : str) (w : world) :
  (str_in (py "sandvox") (lower original_html) = false /\
   str_in (py "main-content") original_html = false) \/
  extract_main_content original_html = Some [] ->
  exists w',
    process_file SITE_ROOT file_path original_html w = Some (false, w') /\
    files w' = files w /\
    files w' !! file_path = files w !! file_path /\
    (str_in (py "sandvox") (lower original_html) = false /\
     str_in (py "main-content") original_html = false -> w' = w) /\
    (str_in (py "sandvox") (lower original_html)
     || str_in (py "main-content") original_html = true ->
     stdout w' = stdout w
                 ++ [py "  WARNING: No main-content found in "
                     ++ path_str SITE_ROOT file_path]).
Proof.
  intros H; unfold process_file.
  destruct (str_in (py "sandvox") (lower original_html)) eqn:Es;
    destruct (str_in (py "main-content") original_html) eqn:Em; cbn [negb andb orb].
  4:{ exists w; repeat split; intros; discriminate. }
  all: destruct H as [[? ?]|H]; try discriminate.
  all: rewrite H; cbn.
  all: eexists; repeat split; intros [? ?]; discriminate.
Qed.

End ProcessFacts.

Lemma process_file_skips_witness :
  ((str_in (py "sandvox") (lower empty_page) = false /\
    str_in (py "main-content") empty_page = false) \/
   extract_main_content empty_page = Some []) /\
  exists w',
    process_file (py "/site") [py "headaches"; py "a.html"] empty_page empty_page_world
    = Some (false, w') /\
    files w' = files empty_page_world.
Proof.
  split; [right; vm_compute; reflexivity|].
  destruct (process_file_skips (py "/site") [py "headaches"; py "a.html"]
              empty_page empty_page_world)
    as (w' & Hp & Hf & _).
  - right; vm_compute; reflexivity.
  - exists w'; split; [exact Hp | exact Hf].
Defined.

(** ** The tags of the rebalancer *)

Section TagFacts.

Lemma re_match_open_re (s : str) :
  re_match open_re s NOFLAGS =
  if is_open s
  then Some {| m_subj := s; m_start := 0; m_end := 5; m_caps := [] |}
  else None.
Proof.
  unfold re_match, open_re, is_open.
  destruct s as [|c1 [|c2 [|c3 [|c4 [|c5 s]]]]]; cbn -[Ascii.eqb isspace];
    repeat match goal with
           | |- context [Ascii.eqb ?a ?b] =>
             destruct (Ascii.eqb a b); cbn -[Ascii.eqb isspace]
           end; try reflexivity.
  all: match goal with |- context [isspace ?c] => destruct (isspace c) end;
    reflexivity.
Qed.

Lemma isspace_not_gt (c : ascii) : isspace c = true -> Ascii.eqb c ">" = false.
Proof.
  intros H; destruct (Ascii.eqb_spec c ">") as [->|]; [discriminate H | reflexivity].
Qed.

Lemma rep_greedy_close_tail (t : str) : forall (cnt p : nat) (prev : option ascii),
  rep_greedy NOFLAGS ASpace 0 None cnt p prev t [] gt_then_accept
  = option_map (fun e => (e, [])) (close_tail t p).
Proof.
  induction t as [|c t IH]; intros cnt p prev; [reflexivity|].
  cbn [rep_greedy close_tail atom_ok under andb Nat.leb].
  destruct (isspace c) eqn:Es.
  - rewrite IH.
    destruct (close_tail t (S p)); [reflexivity|].
    cbn -[Ascii.eqb]; rewrite (isspace_not_gt c Es); reflexivity.
  - cbn -[Ascii.eqb]. destruct (Ascii.eqb c ">"); reflexivity.
Qed.

Lemma re_match_close_re (s : str) :
  re_match close_re s NOFLAGS =
  match close_len s with
  | Some n => Some {| m_subj := s; m_start := 0; m_end := n; m_caps := [] |}
  | None => None
  end.
Proof.
  unfold re_match, close_re, close_len.
  destruct s as [|c1 [|c2 [|c3 [|c4 [|c5 s]]]]];
    cbn -[rep_greedy Ascii.eqb isspace];
    repeat match goal with
           | |- context [Ascii.eqb ?a ?b] =>
             destruct (Ascii.eqb a b); cbn -[rep_greedy Ascii.eqb isspace]
           end; try reflexivity.
  change (fun (p' : nat) (prev' : option ascii) (rest' : str) (cs' : caps) =>
            match rest' with
            | [] => None
            | c :: rest'0 =>
              if (c =? ">")%char then accept (S p') (Some c) rest'0 cs' else None
            end) with gt_then_accept.
  rewrite rep_greedy_close_tail.
  destruct (close_tail s 5); reflexivity.
Qed.

Lemma join_nil (l : list str) : join [] l = concat l.
Proof.
  induction l as [|x [|y l] IH]; [reflexivity | cbn; now rewrite app_nil_r |].
  change (join [] (x :: y :: l)) with (x ++ [] ++ join [] (y :: l)).
  rewrite IH; reflexivity.
Qed.

Lemma close_tail_bound (t : str) : forall n e,
  close_tail t n = Some e -> (n < e <= n + length t)%nat.
Proof.
  induction t as [|c t IH]; intros n e H; [discriminate|].
  cbn [close_tail] in H.
  destruct (isspace c).
  - apply IH in H; cbn [length]; lia.
  - destruct (Ascii.eqb c ">"); [|discriminate].
    injection H as <-; cbn [length]; lia.
Qed.

Lemma close_len_bound (s : str) (n : nat) :
  close_len s = Some n -> (5 < n <= length s)%nat.
Proof.
  unfold close_len.
  destruct s as [|c1 [|c2 [|c3 [|c4 [|c5 t]]]]]; try discriminate.
  destruct (_ && _); [|discriminate].
  intros H; apply close_tail_bound in H; cbn [length]; lia.
Qed.

Lemma is_open_length (s : str) : is_open s = true -> (5 <= length s)%nat.
Proof.
  destruct s as [|c1 [|c2 [|c3 [|c4 [|c5 t]]]]]; try discriminate.
  intros _; cbn [length]; lia.
Qed.

Lemma skipn_Z_add (html : str) (pos : Z) (k : nat) :
  0 <= pos ->
  skipn k (skipn (Z.to_nat pos) html) = skipn (Z.to_nat (pos + Z.of_nat k)) html.
Proof.
  intros Hp; rewrite skipn_skipn_add; f_equal; lia.
Qed.

Lemma slice_suffix (html : str) (pos : Z) (k : nat) :
  0 <= pos <= len html -> (k <= length (skipn (Z.to_nat pos) html))%nat ->
  slice html pos (pos + Z.of_nat k) = firstn k (skipn (Z.to_nat pos) html).
Proof.
  intros Hp Hk; rewrite length_skipn in Hk; unfold len in Hp.
  rewrite slice_in_range by (unfold len; lia).
  f_equal; lia.
Qed.

(** The loop reads a text that scans as [ps] in [length ps] iterations, and
    appends the pieces it keeps. *)
Lemma balance_loop_scan (html : str) (s : str) (ps : list piece) :
  Scan s ps ->
  forall (fuel : nat) (result : list str) (depth pos : Z),
  0 <= pos <= len html -> s = skipn (Z.to_nat pos) html -> 0 <= depth ->
  (length ps < fuel)%nat ->
  balance_loop fuel html result depth pos
  = Some (result ++ map text (keep ps (Z.to_nat depth))).
Proof.
  induction 1 as [|s j ps Ho Hj Hs IH|s n ps Ho Hn Hs IH|c t ps Ho Hc Hs IH];
    intros fuel result depth pos Hpos Heq Hd Hf;
    (destruct fuel as [|fuel]; [lia|]); cbn [balance_loop].
  - assert (len html <= pos).
    { destruct (Z.le_gt_cases (len html) pos) as [|Hlt]; [assumption|].
      assert (length (skipn (Z.to_nat pos) html) = 0%nat) by (rewrite <- Heq; reflexivity).
      rewrite length_skipn in H; unfold len in *; lia. }
    destruct (Z.ltb_spec pos (len html)); [lia|].
    cbn; rewrite app_nil_r; reflexivity.
  - pose proof (is_open_length s Ho) as Hl.
    pose proof (first_occ_bound (py ">") s j ltac:(cbv; discriminate) Hj) as Hb.
    cbn [length py list_ascii_of_string] in Hb.
    assert (Hls : length s = (length html - Z.to_nat pos)%nat)
      by (rewrite Heq; apply length_skipn).
    destruct (Z.ltb_spec pos (len html)); [|unfold len in *; lia].
    rewrite slice_from_in_range by lia.
    rewrite <- Heq, re_match_open_re, Ho.
    rewrite find_in_range, <- Heq, find_from_first_occ, Hj by lia.
    replace (pos + Z.of_nat j + 1) with (pos + Z.of_nat (S j)) by lia.
    rewrite slice_suffix by (rewrite <- ?Heq; lia).
    rewrite <- Heq.
    rewrite (IH fuel _ (depth + 1) (pos + Z.of_nat (S j)));
      [ | unfold len in *; lia | rewrite Heq; apply skipn_Z_add; lia | lia
        | cbn [length] in Hf; lia ].
    rewrite <- app_assoc; cbn [keep map text app].
    replace (Z.to_nat (depth + 1)) with (S (Z.to_nat depth)) by lia.
    reflexivity.
  - pose proof (close_len_bound s n Hn) as Hb.
    assert (Hls : length s = (length html - Z.to_nat pos)%nat)
      by (rewrite Heq; apply length_skipn).
    destruct (Z.ltb_spec pos (len html)); [|unfold len in *; lia].
    rewrite slice_from_in_range by lia.
    rewrite <- Heq, re_match_open_re, Ho, re_match_close_re, Hn.
    unfold mend, group, span; cbn [m_end m_start m_subj].
    rewrite Nat.sub_0_r; change (skipn 0 s) with s.
    destruct (Z.ltb_spec 0 depth) as [Hpos'|Hzero].
    + rewrite (IH fuel _ (depth - 1) (pos + Z.of_nat n));
        [ | unfold len in *; lia | rewrite Heq; apply skipn_Z_add; lia | lia
          | cbn [length] in Hf; lia ].
      rewrite <- app_assoc; cbn [keep map text app].
      destruct (Z.to_nat depth) as [|d] eqn:Ed; [lia|].
      replace (Z.to_nat (depth - 1)) with d by lia.
      reflexivity.
    + rewrite (IH fuel _ depth (pos + Z.of_nat n));
        [ | unfold len in *; lia | rewrite Heq; apply skipn_Z_add; lia | lia
          | cbn [length] in Hf; lia ].
      cbn [keep].
      replace (Z.to_nat depth) with O by lia.
      reflexivity.
  - assert (Hls : length (c :: t) = (length html - Z.to_nat pos)%nat)
      by (rewrite Heq; apply length_skipn).
    cbn [length] in Hls.
    destruct (Z.ltb_spec pos (len html)); [|unfold len in *; lia].
    rewrite slice_from_in_range by lia.
    rewrite <- Heq, re_match_open_re, Ho, re_match_close_re, Hc.
    unfold char_at.
    replace (pos + 1) with (pos + Z.of_nat 1) by lia.
    rewrite slice_suffix by (rewrite <- ?Heq; cbn [length]; lia).
    rewrite <- Heq; cbn [firstn].
    rewrite (IH fuel _ depth (pos + Z.of_nat 1));
      [ | unfold len in *; lia
        | change t with (skipn 1 (c :: t)); rewrite Heq; apply skipn_Z_add; lia
        | lia | cbn [length] in Hf; lia ].
    rewrite <- app_assoc; reflexivity.
Qed.

Lemma Scan_length (s : str) (ps : list piece) :
  Scan s ps -> (length ps <= length s)%nat.
Proof.
  induction 1 as [|s j ps Ho Hj Hs IH|s n ps Ho Hn Hs IH|c t ps Ho Hc Hs IH];
    cbn [length] in *; try lia.
  - pose proof (first_occ_bound (py ">") s j ltac:(cbv; discriminate) Hj) as Hb.
    cbn [length py list_ascii_of_string] in Hb.
    rewrite length_skipn in IH; lia.
  - pose proof (close_len_bound s n Hn) as Hb.
    rewrite length_skipn in IH; lia.
Qed.

Lemma balance_divs_fuel_scan (html : str) (ps : list piece) (fuel : nat) :
  Scan html ps -> (length ps < fuel)%nat ->
  balance_divs_fuel fuel html = Some (concat (map text (keep ps 0))).
Proof.
  intros Hs Hf; unfold balance_divs_fuel.
  rewrite (balance_loop_scan html html ps Hs fuel [] 0 0);
    [ | pose proof (len_nonneg html); lia | reflexivity | lia | exact Hf ].
  cbn [option_map app]; rewrite join_nil; reflexivity.
Qed.

Lemma balance_divs_scan (html : str) (ps : list piece) :
  Scan html ps -> balance_divs html = Some (concat (map text (keep ps 0))).
Proof.
  intros Hs; apply balance_divs_fuel_scan; [exact Hs|].
  apply Scan_length in Hs; lia.
Qed.

(** From a text that is stuck the loop goes back to position zero, again
    and again. *)
Lemma balance_loop_stuck (html : str) :
  Stuck html ->
  forall (fuel : nat) (result : list str) (depth pos : Z),
  0 <= pos <= len html -> Stuck (skipn (Z.to_nat pos) html) ->
  balance_loop fuel html result depth pos = None.
Proof.
  intros Hhtml; induction fuel as [|fuel IH]; intros result depth pos Hpos Hst;
    [reflexivity|].
  cbn [balance_loop].
  remember (skipn (Z.to_nat pos) html) as s eqn:Heq.
  assert (Hls : length s = (length html - Z.to_nat pos)%nat)
    by (rewrite Heq; apply length_skipn).
  destruct Hst as [s Ho Hj|s j Ho Hj Hst|s n Ho Hn Hst|c t Ho Hc Hst].
  - pose proof (is_open_length s Ho) as Hl.
    destruct (Z.ltb_spec pos (len html)); [|unfold len in *; lia].
    rewrite slice_from_in_range by lia.
    rewrite <- Heq, re_match_open_re, Ho.
    rewrite find_in_range, <- Heq, find_from_first_occ, Hj by lia.
    apply IH; [pose proof (len_nonneg html); lia | exact Hhtml].
  - pose proof (is_open_length s Ho) as Hl.
    pose proof (first_occ_bound (py ">") s j ltac:(cbv; discriminate) Hj) as Hb.
    cbn [length py list_ascii_of_string] in Hb.
    destruct (Z.ltb_spec pos (len html)); [|unfold len in *; lia].
    rewrite slice_from_in_range by lia.
    rewrite <- Heq, re_match_open_re, Ho.
    rewrite find_in_range, <- Heq, find_from_first_occ, Hj by lia.
    apply IH; [unfold len in *; lia|].
    replace (pos + Z.of_nat j + 1) with (pos + Z.of_nat (S j)) by lia.
    rewrite <- skipn_Z_add, <- Heq by lia; exact Hst.
  - pose proof (close_len_bound s n Hn) as Hb.
    destruct (Z.ltb_spec pos (len html)); [|unfold len in *; lia].
    rewrite slice_from_in_range by lia.
    rewrite <- Heq, re_match_open_re, Ho, re_match_close_re, Hn.
    unfold mend; cbn [m_end].
    assert (Stuck (skipn (Z.to_nat (pos + Z.of_nat n)) html))
      by (rewrite <- skipn_Z_add, <- Heq by lia; exact Hst).
    destruct (0 <? depth); apply IH; try assumption; unfold len in *; lia.
  - cbn [length] in Hls.
    destruct (Z.ltb_spec pos (len html)); [|unfold len in *; lia].
    rewrite slice_from_in_range by lia.
    rewrite <- Heq, re_match_open_re, Ho, re_match_close_re, Hc.
    apply IH; [unfold len in *; lia|].
    replace (pos + 1) with (pos + Z.of_nat 1) by lia.
    rewrite <- skipn_Z_add, <- Heq by lia; exact Hst.
Qed.

(** On a text that is stuck, [balance_divs] does not return, whatever the
    fuel. *)
Lemma balance_divs_never_returns (html : str) (fuel : nat) :
  Stuck html -> balance_divs_fuel fuel html = None.
Proof.
  intros Hst; unfold balance_divs_fuel.
  rewrite (balance_loop_stuck html Hst fuel [] 0 0);
    [reflexivity | pose proof (len_nonneg html); lia | exact Hst].
Qed.

(** Every text either scans or is stuck. *)
Lemma Scan_or_Stuck (n : nat) : forall s : str,
  (length s <= n)%nat -> (exists ps, Scan s ps) \/ Stuck s.
Proof.
  induction n as [|n IH]; intros s Hn.
  - destruct s; [left; exists []; constructor | cbn in Hn; lia].
  - destruct s as [|c t]; [left; exists []; constructor|].
    cbn [length] in Hn.
    destruct (is_open (c :: t)) eqn:Ho.
    + destruct (first_occ (py ">") (c :: t)) as [j|] eqn:Hj;
        [|right; apply stuck_here; assumption].
      destruct (IH (skipn (S j) (c :: t))) as [[ps Hs]|Hst].
      * rewrite length_skipn; cbn [length]; lia.
      * left; eexists; eapply scan_open; eassumption.
      * right; eapply stuck_open; eassumption.
    + destruct (close_len (c :: t)) as [k|] eqn:Hc.
      * pose proof (close_len_bound _ _ Hc) as Hb; cbn [length] in Hb.
        destruct (IH (skipn k (c :: t))) as [[ps Hs]|Hst].
        -- rewrite length_skipn; cbn [length]; lia.
        -- left; eexists; eapply scan_close; eassumption.
        -- right; eapply stuck_close; eassumption.
      * destruct (IH t ltac:(lia)) as [[ps Hs]|Hst].
        -- left; eexists; eapply scan_char; eassumption.
        -- right; eapply stuck_char; eassumption.
Qed.

Lemma balance_loop_more_fuel (html : str) :
  forall (fuel fuel' : nat) (result : list str) (depth pos : Z) (r : list str),
  (fuel <= fuel')%nat ->
  balance_loop fuel html result depth pos = Some r ->
  balance_loop fuel' html result depth pos = Some r.
Proof.
  induction fuel as [|fuel IH]; intros fuel' result depth pos r Hle H;
    [discriminate|].
  destruct fuel' as [|fuel']; [lia|].
  cbn [balance_loop] in *.
  destruct (pos <? len html); [|exact H].
  destruct (re_match open_re (slice_from html pos) NOFLAGS).
  - apply (IH fuel'); [lia | exact H].
  - destruct (re_match close_re (slice_from html pos) NOFLAGS).
    + destruct (0 <? depth); (apply (IH fuel'); [lia | exact H]).
    + apply (IH fuel'); [lia | exact H].
Qed.

(** The fuel of [balance_divs] is enough: an answer with any fuel is the
    answer of [balance_divs]. *)
Lemma balance_divs_fuel_enough (html out : str) (fuel : nat) :
  balance_divs_fuel fuel html = Some out -> balance_divs html = Some out.
Proof.
  intros H.
  destruct (Scan_or_Stuck (length html) html (Nat.le_refl _)) as [[ps Hs]|Hst].
  2:{ rewrite balance_divs_never_returns in H by exact Hst; discriminate. }
  rewrite (balance_divs_scan html ps Hs).
  rewrite <- (balance_divs_fuel_scan html ps (fuel + S (length ps)) Hs) by lia.
  unfold balance_divs_fuel in *.
  destruct (balance_loop fuel html [] 0 0) as [r|] eqn:E; [|discriminate].
  rewrite (balance_loop_more_fuel html fuel (fuel + S (length ps)) [] 0 0 r)
    by (try lia; exact E).
  exact H.
Qed.

(** C3 fails on the script: [balance_divs] does not terminate on every
    text.  On [<div ] (an opening tag that no [>] follows) [find] answers
    [-1], the position goes back to zero, and the loop reads the same tag
    again: no number of iterations brings an answer. *)
Theorem balance_divs_unclosed_tag_loops (fuel : nat) :
  balance_divs_fuel fuel (py "<div ") = None.
Proof.
  apply balance_divs_never_returns.
  apply stuck_here; reflexivity.
Qed.

End TagFacts.

(** ** The rebalancer on its own output *)

Section RebalanceFacts.

Lemma length_keep (ps : list piece) : forall d, (length (keep ps d) <= length ps)%nat.
Proof.
  induction ps as [|[t|t|c] ps IH]; intros d; cbn [keep length]; [lia| | |].
  - specialize (IH (S d)); lia.
  - destruct d as [|d]; [specialize (IH O) | specialize (IH d)]; cbn [length]; lia.
  - specialize (IH d); lia.
Qed.

Lemma keep_keep (ps : list piece) : forall d, keep (keep ps d) d = keep ps d.
Proof.
  induction ps as [|[t|t|c] ps IH]; intros d; cbn [keep]; [reflexivity| | |].
  - f_equal; apply IH.
  - destruct d as [|d]; [apply IH | cbn [keep]; f_equal; apply IH].
  - f_equal; apply IH.
Qed.

Lemma is_open_app (t rest : str) : is_open t = true -> is_open (t ++ rest) = true.
Proof.
  destruct t as [|c1 [|c2 [|c3 [|c4 [|c5 t]]]]]; try discriminate.
  intros H; exact H.
Qed.

Lemma close_tail_app (t rest : str) : forall n e,
  close_tail t n = Some e -> close_tail (t ++ rest) n = Some e.
Proof.
  induction t as [|c t IH]; intros n e H; [discriminate|].
  cbn [close_tail app] in *.
  destruct (isspace c); [apply IH, H | exact H].
Qed.

Lemma close_len_app (t rest : str) (n : nat) :
  close_len t = Some n -> close_len (t ++ rest) = Some n.
Proof.
  unfold close_len.
  destruct t as [|c1 [|c2 [|c3 [|c4 [|c5 t]]]]]; try discriminate.
  cbn [app]; destruct (_ && _); [apply close_tail_app | discriminate].
Qed.

Lemma close_len_not_open (s : str) (n : nat) :
  close_len s = Some n -> is_open s = false.
Proof.
  unfold close_len, is_open.
  destruct s as [|c1 [|c2 [|c3 [|c4 [|c5 t]]]]]; try reflexivity.
  destruct (Ascii.eqb_spec c2 "/") as [->|]; [|rewrite !andb_false_r; discriminate].
  intros _; rewrite andb_false_r; reflexivity.
Qed.

Lemma first_occ_char_app (c : ascii) (t rest : str) (k : nat) :
  first_occ [c] t = Some k -> first_occ [c] (t ++ rest) = Some k.
Proof.
  revert k; induction t as [|d t IH]; intros k H; [discriminate|].
  cbn [first_occ startswith app] in *.
  destruct (Ascii.eqb c d); cbn [andb] in *; [exact H|].
  destruct (first_occ [c] t) as [k'|]; [|discriminate].
  rewrite (IH k' eq_refl); exact H.
Qed.

Lemma skipn_length_app {A} (t rest : list A) : skipn (length t) (t ++ rest) = rest.
Proof. rewrite skipn_app, Nat.sub_diag, skipn_all; reflexivity. Qed.

Lemma firstn_length_app {A} (t rest : list A) : firstn (length t) (t ++ rest) = t.
Proof. rewrite firstn_app, Nat.sub_diag, firstn_all, app_nil_r; reflexivity. Qed.

Lemma is_open_head (s : str) : is_open s = true -> exists t, s = "<"%char :: t.
Proof.
  destruct s as [|c1 [|c2 [|c3 [|c4 [|c5 r]]]]]; try discriminate.
  unfold is_open; intros H.
  destruct (Ascii.eqb_spec c1 "<") as [->|]; [eexists; reflexivity | discriminate].
Qed.

Lemma close_len_head (s : str) (n : nat) :
  close_len s = Some n -> exists t, s = "<"%char :: t.
Proof.
  destruct s as [|c1 [|c2 [|c3 [|c4 [|c5 r]]]]]; try discriminate.
  unfold close_len; intros H.
  destruct (Ascii.eqb_spec c1 "<") as [->|]; [eexists; reflexivity | discriminate].
Qed.

Lemma close_tail_gt_none (t : str) : forall k,
  close_tail (t ++ py ">") k = None -> forall x, close_tail (t ++ x) k = None.
Proof.
  induction t as [|c t IH]; intros k H x; [discriminate|].
  cbn [app close_tail] in *.
  destruct (isspace c); [apply IH, H|].
  destruct (Ascii.eqb c ">"); [discriminate | reflexivity].
Qed.

(** What [stray_ok] promises. *)
Lemma stray_ok_spec (w : str) :
  stray_ok w = true ->
  forall x, is_open ("<"%char :: w ++ x) = false /\
            close_len ("<"%char :: w ++ x) = None.
Proof.
  unfold stray_ok; intros H x.
  apply andb_prop in H as [Ho Hc]; apply negb_true_iff in Ho.
  split.
  - destruct w as [|c2 [|c3 [|c4 [|c5 w]]]]; cbn [app length skipn py list_ascii_of_string] in Ho.
    + discriminate Ho.
    + destruct x as [|x3 [|x4 [|x5 x]]]; try reflexivity; cbn [app];
        unfold is_open in *; cbn [Ascii.eqb Bool.eqb andb] in *;
        destruct (Ascii.eqb c2 "d"); try reflexivity; discriminate Ho.
    + destruct x as [|x4 [|x5 x]]; try reflexivity; cbn [app];
        unfold is_open in *; cbn [Ascii.eqb Bool.eqb andb] in *;
        destruct (Ascii.eqb c2 "d"); try reflexivity;
        destruct (Ascii.eqb c3 "i"); try reflexivity; discriminate Ho.
    + destruct x as [|x5 x]; try reflexivity; cbn [app];
        unfold is_open in *; cbn [Ascii.eqb Bool.eqb andb] in *;
        destruct (Ascii.eqb c2 "d"); try reflexivity;
        destruct (Ascii.eqb c3 "i"); try reflexivity;
        destruct (Ascii.eqb c4 "v"); try reflexivity; discriminate Ho.
    + exact Ho.
  - destruct (close_len (_ :: w ++ _ ++ _)) eqn:E in Hc; [discriminate|]; clear Hc.
    unfold close_len in *.
    destruct w as [|c2 [|c3 [|c4 [|c5 w]]]];
      cbn [app length skipn py list_ascii_of_string] in E.
    + discriminate E.
    + destruct x as [|x3 [|x4 [|x5 x]]]; try reflexivity; cbn [app];
        cbn [Ascii.eqb Bool.eqb andb] in *;
        destruct (Ascii.eqb c2 "/"); try reflexivity; discriminate E.
    + destruct x as [|x4 [|x5 x]]; try reflexivity; cbn [app];
        cbn [Ascii.eqb Bool.eqb andb] in *;
        destruct (Ascii.eqb c2 "/"); try reflexivity;
        destruct (Ascii.eqb c3 "d"); try reflexivity; discriminate E.
    + destruct x as [|x5 x]; try reflexivity; cbn [app];
        cbn [Ascii.eqb Bool.eqb andb] in *;
        destruct (Ascii.eqb c2 "/"); try reflexivity;
        destruct (Ascii.eqb c3 "d"); try reflexivity;
        destruct (Ascii.eqb c4 "i"); try reflexivity; discriminate E.
    + cbn [app] in *.
      destruct (_ && _); [|reflexivity].
      rewrite skipn_nil in E.
      apply close_tail_gt_none, E.
Qed.

Lemma stray_ok_intro (w : str) :
  (forall x, is_open ("<"%char :: w ++ x) = false /\
             close_len ("<"%char :: w ++ x) = None) ->
  stray_ok w = true.
Proof.
  intros H; unfold stray_ok.
  destruct (H (skipn (length w) (py "div>"))) as [-> _].
  destruct (H (skipn (length w) (py "/div") ++ py ">")) as [_ ->].
  reflexivity.
Qed.

Lemma stray_ok_app (w x : str) : stray_ok w = true -> stray_ok (w ++ x) = true.
Proof.
  intros H; apply stray_ok_intro; intros y.
  rewrite <- app_assoc; apply stray_ok_spec, H.
Qed.

Lemma plain_run_keep (ps : list piece) : forall d,
  exists x, plain_run (keep ps d) = plain_run ps ++ x.
Proof.
  induction ps as [|[t|t|c] ps IH]; intros d; cbn [keep plain_run].
  - exists []; reflexivity.
  - exists []; reflexivity.
  - destruct d as [|d]; [eexists; reflexivity | exists []; reflexivity].
  - destruct (Ascii.eqb c "<"); [exists []; reflexivity|].
    destruct (IH d) as [x ->]; exists x; reflexivity.
Qed.

Lemma clean_pieces_keep (ps : list piece) : forall d,
  clean_pieces ps -> clean_pieces (keep ps d).
Proof.
  induction ps as [|p ps IH]; intros d Hc; [exact I|].
  destruct Hc as [Hp Hps]; destruct p as [t|t|c]; cbn [keep clean_pieces].
  - split; [exact Hp | apply IH, Hps].
  - destruct d as [|d]; [apply IH, Hps | split; [exact Hp | apply IH, Hps]].
  - split; [|apply IH, Hps].
    cbn [clean_piece] in *; intros Hc.
    destruct (plain_run_keep ps d) as [x ->].
    apply stray_ok_app, Hp, Hc.
Qed.

Lemma concat_plain_run (qs : list piece) :
  exists x, concat (map text qs) = plain_run qs ++ x.
Proof.
  induction qs as [|[t|t|c] qs IH]; cbn [map concat text plain_run];
    try (eexists; reflexivity).
  destruct (Ascii.eqb c "<"); [eexists; reflexivity|].
  destruct IH as [x ->]; exists x; reflexivity.
Qed.

(** Clean pieces put end to end scan as themselves. *)
Lemma Scan_concat (qs : list piece) :
  clean_pieces qs -> Scan (concat (map text qs)) qs.
Proof.
  induction qs as [|q qs IH]; intros Hc; [constructor|].
  destruct Hc as [Hq Hqs]; specialize (IH Hqs).
  cbn [map concat].
  destruct q as [t|t|c]; cbn [text clean_piece] in *.
  - destruct Hq as (Ho & Hj & _).
    pose proof (is_open_length t Ho) as Hl.
    set (rest := concat (map text qs)) in *.
    replace (POpen t) with (POpen (firstn (S (length t - 1)) (t ++ rest)))
      by (replace (S (length t - 1)) with (length t) by lia;
          rewrite firstn_length_app; reflexivity).
    apply scan_open.
    + apply is_open_app, Ho.
    + apply first_occ_char_app, Hj.
    + replace (S (length t - 1)) with (length t) by lia.
      rewrite skipn_length_app; exact IH.
  - destruct Hq as (Hn & _).
    set (rest := concat (map text qs)) in *.
    replace (PClose t) with (PClose (firstn (length t) (t ++ rest)))
      by (rewrite firstn_length_app; reflexivity).
    apply scan_close.
    + eapply close_len_not_open, close_len_app, Hn.
    + apply close_len_app, Hn.
    + rewrite skipn_length_app; exact IH.
  - cbn [app].
    destruct (Ascii.eqb_spec c "<") as [->|Hne].
    + destruct (concat_plain_run qs) as [x Hx].
      destruct (stray_ok_spec _ (Hq eq_refl) x) as [Ho Hcl].
      rewrite <- Hx in Ho, Hcl.
      apply scan_char; assumption.
    + apply Ascii.eqb_neq in Hne.
      apply scan_char; [| |exact IH].
      * unfold is_open.
        destruct (concat (map text qs)) as [|c2 [|c3 [|c4 [|c5 r]]]]; try reflexivity.
        rewrite Hne; reflexivity.
      * unfold close_len.
        destruct (concat (map text qs)) as [|c2 [|c3 [|c4 [|c5 r]]]]; try reflexivity.
        rewrite Hne; reflexivity.
Qed.

Lemma Scan_plain_run (s : str) (ps : list piece) :
  Scan s ps -> plain_run ps = run_until_lt s.
Proof.
  induction 1 as [|s j ps Ho Hj Hs IH|s n ps Ho Hn Hs IH|c t ps Ho Hc Hs IH];
    cbn [plain_run run_until_lt]; try reflexivity.
  - destruct (is_open_head s Ho) as [t ->]; reflexivity.
  - destruct (close_len_head s n Hn) as [t ->]; reflexivity.
  - rewrite IH; reflexivity.
Qed.

Lemma isspace_not_lt (c : ascii) : isspace c = true -> Ascii.eqb c "<" = false.
Proof.
  intros H; destruct (Ascii.eqb_spec c "<") as [->|]; [discriminate H | reflexivity].
Qed.

Lemma first_occ_char_cons (c d : ascii) (t : str) :
  first_occ [c] (d :: t)
  = if Ascii.eqb c d then Some O else option_map S (first_occ [c] t).
Proof.
  cbn [first_occ startswith]; destruct (Ascii.eqb c d); reflexivity.
Qed.

Lemma first_occ_char_firstn (c : ascii) (s : str) : forall k,
  first_occ [c] s = Some k -> first_occ [c] (firstn (S k) s) = Some k.
Proof.
  induction s as [|d s IH]; intros k H; [discriminate|].
  rewrite first_occ_char_cons in H.
  cbn [firstn]; rewrite first_occ_char_cons.
  destruct (Ascii.eqb c d); [exact H|].
  destruct (first_occ [c] s) as [k'|]; [|discriminate].
  injection H as <-.
  rewrite (IH k' eq_refl); reflexivity.
Qed.

Lemma is_open_firstn (s : str) (k : nat) :
  is_open s = true -> first_occ (py ">") s = Some k ->
  is_open (firstn (S k) s) = true.
Proof.
  intros Ho Hk.
  destruct s as [|c1 [|c2 [|c3 [|c4 [|c5 r]]]]]; try discriminate.
  unfold is_open in Ho.
  apply andb_prop in Ho as [Ho H5].
  apply andb_prop in Ho as [Ho H4]; apply andb_prop in Ho as [Ho H3].
  apply andb_prop in Ho as [H1 H2].
  apply Ascii.eqb_eq in H1, H2, H3, H4; subst.
  change (py ">") with [">"%char] in Hk.
  rewrite !first_occ_char_cons in Hk.
  change (Ascii.eqb ">" "<") with false in Hk.
  change (Ascii.eqb ">" "d") with false in Hk.
  change (Ascii.eqb ">" "i") with false in Hk.
  change (Ascii.eqb ">" "v") with false in Hk.
  cbn [option_map] in Hk.
  destruct (Ascii.eqb ">" c5).
  - injection Hk as <-; cbn [firstn]; unfold is_open.
    rewrite H5; reflexivity.
  - destruct (first_occ [">"%char] r) as [k'|]; [|discriminate].
    injection Hk as <-; cbn [firstn]; unfold is_open.
    rewrite H5; reflexivity.
Qed.

(** Inside an opening tag, a well-tagged text runs without [<] to the first
    [>] and is well tagged after it. *)
Lemma well_tagged_in_tag (t : str) :
  well_tagged_from t true = true ->
  exists j, first_occ (py ">") t = Some j /\
            no_lt (firstn (S j) t) = true /\
            well_tagged_from (skipn (S j) t) false = true.
Proof.
  change (py ">") with [">"%char].
  induction t as [|c t IH]; intros H; [discriminate|].
  cbn [well_tagged_from] in H.
  destruct (Ascii.eqb c "<") eqn:Elt; [discriminate|].
  rewrite first_occ_char_cons.
  destruct (Ascii.eqb_spec c ">") as [->|Hne].
  - exists O; cbn; auto.
  - destruct (IH H) as (j & Hj & Hno & Hwt).
    exists (S j).
    destruct (Ascii.eqb_spec ">" c) as [<-|_]; [congruence|].
    rewrite Hj; repeat split.
    + change (firstn (S (S j)) (c :: t)) with (c :: firstn (S j) t).
      cbn [no_lt forallb]; rewrite Elt; exact Hno.
    + exact Hwt.
Qed.

(** A closing tag holds no [<] after its first character, reads the same on
    its own, and leaves a well-tagged text well tagged. *)
Lemma well_tagged_close_tail (t : str) : forall k e,
  close_tail t k = Some e ->
  well_tagged_from t false = well_tagged_from (skipn (e - k) t) false /\
  no_lt (firstn (e - k) t) = true /\
  close_tail (firstn (e - k) t) k = Some e.
Proof.
  induction t as [|c t IH]; intros k e H; [discriminate|].
  cbn [close_tail] in H.
  destruct (isspace c) eqn:Es.
  - pose proof (close_tail_bound _ _ _ H) as Hb.
    destruct (IH _ _ H) as (Hwt & Hno & Hct).
    replace (e - k)%nat with (S (e - S k)) by lia.
    cbn [skipn firstn well_tagged_from no_lt forallb close_tail].
    rewrite Es, (isspace_not_lt c Es), (isspace_not_gt c Es).
    repeat split; assumption.
  - destruct (Ascii.eqb_spec c ">") as [->|]; [|discriminate].
    injection H as <-.
    replace (S k - k)%nat with 1%nat by lia.
    cbn; repeat split; reflexivity.
Qed.

Lemma well_tagged_close (s : str) (n : nat) :
  close_len s = Some n ->
  well_tagged_from (tl s) false = well_tagged_from (skipn n s) false /\
  forall after, clean_piece (PClose (firstn n s)) after.
Proof.
  intros Hn.
  pose proof (close_len_bound s n Hn) as Hb.
  pose proof (close_len_not_open s n Hn) as Ho.
  unfold close_len in Hn.
  destruct s as [|c1 [|c2 [|c3 [|c4 [|c5 t]]]]]; try discriminate.
  destruct (_ && _) eqn:E in Hn; [|discriminate].
  apply andb_prop in E as [E H5]; apply andb_prop in E as [E H4].
  apply andb_prop in E as [E H3]; apply andb_prop in E as [H1 H2].
  apply Ascii.eqb_eq in H1, H2, H3, H4, H5; subst.
  destruct (well_tagged_close_tail t 5 n Hn) as (Hwt & Hno & Hct).
  cbn [length] in Hb.
  replace n with (5 + (n - 5))%nat by lia.
  cbn [tl skipn firstn Nat.add].
  split.
  - cbn [well_tagged_from Ascii.eqb Bool.eqb]; exact Hwt.
  - intros after; cbn [clean_piece]; split.
    + unfold close_len; cbn [Ascii.eqb Bool.eqb andb].
      rewrite Hct; f_equal.
      cbn [length]; rewrite length_firstn; lia.
    + cbn [tl no_lt forallb Ascii.eqb Bool.eqb negb andb]; exact Hno.
Qed.

(** A well-tagged text scans, and scans as clean pieces. *)
Lemma well_tagged_scan (n : nat) : forall s : str,
  (length s <= n)%nat -> well_tagged_from s false = true ->
  exists ps, Scan s ps /\ clean_pieces ps.
Proof.
  induction n as [|n IH]; intros s Hn Hwt.
  - destruct s; [exists []; split; [constructor | exact I] | cbn in Hn; lia].
  - destruct s as [|c t]; [exists []; split; [constructor | exact I]|].
    cbn [length] in Hn.
    cbn [well_tagged_from] in Hwt.
    destruct (Ascii.eqb c "<") eqn:Elt.
    + cbn [negb andb] in Hwt.
      destruct (is_open (c :: t)) eqn:Ho.
      * destruct (well_tagged_in_tag t Hwt) as (j & Hj & Hno & Hrest).
        change (py ">") with [">"%char] in *.
        assert (Hj' : first_occ [">"%char] (c :: t) = Some (S j)).
        { rewrite first_occ_char_cons, Hj.
          apply Ascii.eqb_eq in Elt; subst c; reflexivity. }
        pose proof (first_occ_bound [">"%char] t j ltac:(discriminate) Hj) as Hb.
        cbn [length] in Hb.
        destruct (IH (skipn (S j) t)) as (ps & Hs & Hc);
          [rewrite length_skipn; lia | exact Hrest |].
        exists (POpen (firstn (S (S j)) (c :: t)) :: ps); split.
        -- apply scan_open; assumption.
        -- split; [|exact Hc].
           cbn [clean_piece]; repeat split.
           ++ apply is_open_firstn; assumption.
           ++ change (py ">") with [">"%char].
              rewrite (first_occ_char_firstn _ _ _ Hj'); f_equal.
              rewrite length_firstn; cbn [length]; lia.
           ++ exact Hno.
      * destruct (close_len (c :: t)) as [k|] eqn:Hk.
        -- destruct (well_tagged_close _ _ Hk) as (Heq & Hclean).
           pose proof (close_len_bound _ _ Hk) as Hb; cbn [length] in Hb.
           cbn [tl] in Heq; rewrite Heq in Hwt.
           destruct (IH (skipn k (c :: t))) as (ps & Hs & Hc);
             [rewrite length_skipn; cbn [length]; lia | exact Hwt |].
           exists (PClose (firstn k (c :: t)) :: ps); split.
           ++ apply scan_close; assumption.
           ++ split; [apply Hclean | exact Hc].
        -- apply andb_prop in Hwt as [Hstray Hwt].
           destruct (IH t ltac:(lia) Hwt) as (ps & Hs & Hc).
           exists (PChar c :: ps); split.
           ++ apply scan_char; assumption.
           ++ split; [|exact Hc].
              cbn [clean_piece]; intros _.
              rewrite (Scan_plain_run t ps Hs); exact Hstray.
    + assert (Hwt' : well_tagged_from t false = true)
        by (destruct (Ascii.eqb c ">"); exact Hwt).
      destruct (IH t ltac:(lia) Hwt') as (ps & Hs & Hc).
      exists (PChar c :: ps); split.
      * apply scan_char; [| |exact Hs].
        -- unfold is_open.
           destruct t as [|c2 [|c3 [|c4 [|c5 r]]]]; try reflexivity.
           rewrite Elt; reflexivity.
        -- unfold close_len.
           destruct t as [|c2 [|c3 [|c4 [|c5 r]]]]; try reflexivity.
           rewrite Elt; reflexivity.
      * split; [|exact Hc].
        cbn [clean_piece]; rewrite Elt; discriminate.
Qed.

(** Counting tags. *)
Lemma opening_is_open (s : str) : opening s = is_open s.
Proof. unfold opening; rewrite re_match_open_re; destruct (is_open s); reflexivity. Qed.

Lemma closing_close_len (s : str) :
  closing s = match close_len s with Some _ => true | None => false end.
Proof. unfold closing; rewrite re_match_close_re; destruct (close_len s); reflexivity. Qed.

Lemma opening_head (c : ascii) (t : str) :
  Ascii.eqb c "<" = false -> opening (c :: t) = false.
Proof.
  intros H; rewrite opening_is_open; unfold is_open.
  destruct t as [|c2 [|c3 [|c4 [|c5 r]]]]; try reflexivity.
  rewrite H; reflexivity.
Qed.

Lemma closing_head (c : ascii) (t : str) :
  Ascii.eqb c "<" = false -> closing (c :: t) = false.
Proof.
  intros H; rewrite closing_close_len; unfold close_len.
  destruct t as [|c2 [|c3 [|c4 [|c5 r]]]]; try reflexivity.
  rewrite H; reflexivity.
Qed.

Lemma count_tags_no_lt (tag : str -> bool) (x r : str) :
  (forall c t, Ascii.eqb c "<" = false -> tag (c :: t) = false) ->
  no_lt x = true -> count_tags tag (x ++ r) = count_tags tag r.
Proof.
  intros Htag; induction x as [|c x IH]; intros Hno; [reflexivity|].
  cbn [no_lt forallb] in Hno; apply andb_prop in Hno as [Hc Hx].
  apply negb_true_iff in Hc.
  cbn [app count_tags]; rewrite (Htag c _ Hc), (IH Hx); reflexivity.
Qed.

Lemma no_lt_firstn (x : str) (n : nat) : no_lt x = true -> no_lt (firstn n x) = true.
Proof.
  revert n; induction x as [|c x IH]; intros [|n] H; try reflexivity.
  cbn [no_lt forallb firstn] in *.
  apply andb_prop in H as [Hc Hx]; rewrite Hc; exact (IH n Hx).
Qed.

(** The count of a prefix that cuts a tag [c0 :: t'] put before [rest]. *)
Lemma count_tags_piece (tag : str -> bool) (c0 : ascii) (t' rest : str) (n : nat) :
  (forall c t, Ascii.eqb c "<" = false -> tag (c :: t) = false) ->
  no_lt t' = true ->
  count_tags tag (firstn (S n) ((c0 :: t') ++ rest))
  = ((if tag (firstn (S n) ((c0 :: t') ++ rest)) then 1 else 0)
     + count_tags tag (firstn (n - length t') rest))%nat.
Proof.
  intros Htag Hno.
  cbn [app firstn count_tags]; f_equal.
  rewrite firstn_app.
  apply count_tags_no_lt; [exact Htag | apply no_lt_firstn, Hno].
Qed.

Lemma closing_in_open (t x : str) (m : nat) :
  is_open t = true -> closing (firstn m (t ++ x)) = false.
Proof.
  intros Ho; rewrite closing_close_len.
  destruct t as [|c1 [|c2 [|c3 [|c4 [|c5 r]]]]]; try discriminate.
  unfold is_open in Ho.
  apply andb_prop in Ho as [Ho _]; apply andb_prop in Ho as [Ho _].
  apply andb_prop in Ho as [Ho _]; apply andb_prop in Ho as [_ H2].
  apply Ascii.eqb_eq in H2; subst c2.
  destruct m as [|[|[|[|[|m]]]]]; try reflexivity.
  cbn [app firstn]; unfold close_len.
  change (Ascii.eqb "d" "/") with false.
  rewrite andb_false_r; reflexivity.
Qed.

Lemma opening_in_close (t x : str) (k m : nat) :
  close_len t = Some k -> opening (firstn m (t ++ x)) = false.
Proof.
  intros Hk; rewrite opening_is_open.
  unfold close_len in Hk.
  destruct t as [|c1 [|c2 [|c3 [|c4 [|c5 r]]]]]; try discriminate.
  destruct (_ && _) eqn:E in Hk; [|discriminate].
  apply andb_prop in E as [E _]; apply andb_prop in E as [E _].
  apply andb_prop in E as [E _]; apply andb_prop in E as [_ H2].
  apply Ascii.eqb_eq in H2; subst c2.
  destruct m as [|[|[|[|[|m]]]]]; try reflexivity.
  cbn [app firstn]; unfold is_open.
  change (Ascii.eqb "/" "d") with false.
  rewrite andb_false_r; reflexivity.
Qed.

Lemma is_open_firstn_false (s : str) (m : nat) :
  is_open s = false -> is_open (firstn m s) = false.
Proof.
  intros H; destruct (is_open (firstn m s)) eqn:E; [|reflexivity].
  apply (is_open_app _ (skipn m s)) in E.
  rewrite firstn_skipn in E; congruence.
Qed.

Lemma close_len_firstn_none (s : str) (m : nat) :
  close_len s = None -> close_len (firstn m s) = None.
Proof.
  intros H; destruct (close_len (firstn m s)) eqn:E; [|reflexivity].
  apply (close_len_app _ (skipn m s)) in E.
  rewrite firstn_skipn in E; congruence.
Qed.

(** A character piece begins no tag in any prefix of the answer. *)
Lemma char_piece_no_tag (c : ascii) (qs : list piece) (n : nat) :
  clean_piece (PChar c) qs ->
  opening (c :: firstn n (concat (map text qs))) = false /\
  closing (c :: firstn n (concat (map text qs))) = false.
Proof.
  cbn [clean_piece]; intros Hq.
  destruct (Ascii.eqb c "<") eqn:Elt.
  - apply Ascii.eqb_eq in Elt; subst c.
    destruct (concat_plain_run qs) as [x Hx].
    destruct (stray_ok_spec _ (Hq eq_refl) x) as [Ho Hc].
    rewrite <- Hx in Ho, Hc.
    change ("<"%char :: firstn n (concat (map text qs)))
      with (firstn (S n) ("<"%char :: concat (map text qs))).
    rewrite opening_is_open, closing_close_len.
    rewrite (is_open_firstn_false _ _ Ho), (close_len_firstn_none _ _ Hc).
    split; reflexivity.
  - split; [apply opening_head | apply closing_head]; exact Elt.
Qed.

(** No prefix of kept clean pieces holds more closing tags than the depth
    it starts at and the opening tags it holds. *)
Lemma prefix_balanced (qs : list piece) : forall (d n : nat),
  keep qs d = qs -> clean_pieces qs ->
  (count_tags closing (firstn n (concat (map text qs)))
   <= d + count_tags opening (firstn n (concat (map text qs))))%nat.
Proof.
  induction qs as [|q qs IH]; intros d n Hk Hc.
  - cbn [map concat]; rewrite firstn_nil; cbn; lia.
  - destruct Hc as [Hq Hqs].
    destruct n as [|n]; [rewrite firstn_O; cbn [count_tags]; lia|].
    cbn [map concat].
    destruct q as [t|t|c]; cbn [text keep] in *.
    + set (rest := concat (map text qs)) in *.
      injection Hk as Hk.
      destruct Hq as (Ho & _ & Hno).
      pose proof (is_open_length t Ho) as Hl.
      destruct t as [|c0 t']; [discriminate|]; cbn [tl length] in *.
      rewrite (count_tags_piece closing), (count_tags_piece opening)
        by (first [exact closing_head | exact opening_head | exact Hno]).
      rewrite (closing_in_open (c0 :: t') rest (S n) Ho).
      specialize (IH (S d) (n - length t')%nat Hk Hqs).
      destruct (Nat.lt_ge_cases n (length t')) as [Hlt|Hge].
      * replace (n - length t')%nat with O in * by lia.
        rewrite firstn_O in *; cbn [count_tags] in *.
        destruct (opening _); cbv iota; lia.
      * replace (firstn (S n) ((c0 :: t') ++ rest))
          with ((c0 :: t') ++ firstn (n - length t') rest)
          by (rewrite firstn_app, (firstn_all2 (c0 :: t')) by (cbn [length]; lia);
              cbn [length]; reflexivity).
        rewrite opening_is_open, (is_open_app _ _ Ho); cbv iota; lia.
    + set (rest := concat (map text qs)) in *.
      destruct d as [|d].
      { exfalso. pose proof (length_keep qs 0) as Hlen.
        rewrite Hk in Hlen; cbn [length] in Hlen; lia. }
      injection Hk as Hk.
      destruct Hq as (Hn & Hno).
      destruct t as [|c0 t']; [discriminate|]; cbn [tl length] in *.
      rewrite (count_tags_piece closing), (count_tags_piece opening)
        by (first [exact closing_head | exact opening_head | exact Hno]).
      rewrite (opening_in_close (c0 :: t') rest _ (S n) Hn).
      specialize (IH d (n - length t')%nat Hk Hqs).
      destruct (closing _); cbv iota; lia.
    + injection Hk as Hk.
      destruct (char_piece_no_tag c qs n Hq) as [Hop Hcl].
      cbn [app firstn count_tags].
      rewrite Hop, Hcl.
      specialize (IH d n Hk Hqs); cbv iota; lia.
Qed.

(** C2, as the script has it.  On a well-tagged text [balance_divs]
    returns, returns the same when it is given its answer, and no prefix of
    its answer holds more closing tags than opening tags.  A text is well
    tagged when every [<] begins an opening tag of the rebalancer, or a
    closing tag, or (with the characters up to the next [<]) something that
    is not the beginning of either; no opening tag holds a second [<]; and a
    [>] ends every opening tag. *)
Theorem balance_divs_well_tagged (html : str) :
  well_tagged html = true -> rebalanced html.
Proof.
  intros Hwt.
  destruct (well_tagged_scan (length html) html (Nat.le_refl _) Hwt)
    as (ps & Hs & Hc).
  pose proof (clean_pieces_keep ps 0 Hc) as Hkc.
  exists (concat (map text (keep ps 0))); repeat split.
  - apply balance_divs_scan, Hs.
  - rewrite (balance_divs_scan _ _ (Scan_concat _ Hkc)), keep_keep; reflexivity.
  - intros n.
    apply (prefix_balanced (keep ps 0) 0 n); [apply keep_keep | exact Hkc].
Qed.

Lemma balance_divs_well_tagged_witness :
  well_tagged unwrapped_article = true /\ rebalanced unwrapped_article.
Proof.
  split; [vm_compute; reflexivity|].
  apply balance_divs_well_tagged; vm_compute; reflexivity.
Defined.

(** C2, as the specification has it, fails.  Of [<</div>/div>] the
    rebalancer drops the closing tag it reads, and what is left is the
    closing tag [</div>]: an answer with one closing tag and no opening tag,
    which a second pass empties. *)
Lemma balance_divs_not_idempotent : ~ rebalanced (py "<</div>/div>").
Proof.
  intros (out & H1 & H2 & _).
  vm_compute in H1; injection H1 as <-.
  vm_compute in H2; discriminate H2.
Qed.

End RebalanceFacts.

(** ** What [process_file] writes *)

Section WriteFacts.

Variable SITE_ROOT : str.

Lemma make_page_starts (title nav_html content root_prefix : str) :
  startswith (make_page title nav_html content root_prefix) (py "<!DOCTYPE html>")
  = true.
Proof. reflexivity. Qed.

(** The body of [process_file], its binds written out. *)
Lemma process_file_unfold (file_path : path) (html : str) (w : world) :
  process_file SITE_ROOT file_path html w =
  if negb (str_in (py "sandvox") (lower html))
     && negb (str_in (py "main-content") html)
  then Some (false, w)
  else
    match extract_main_content html with
    | None => None
    | Some main_content =>
      if negb (nonempty main_content) then
        Some (false, print (py "  WARNING: No main-content found in "
                            ++ path_str SITE_ROOT file_path) w)
      else
        match extract_index_section main_content with
        | None => None
        | Some (before_idx, idx_inner, after_idx) =>
          match clean_content
                  (if nonempty idx_inner
                   then before_idx ++ nl ++ transform_gallery_index idx_inner
                        ++ nl ++ after_idx
                   else main_content) with
          | None => None
          | Some content =>
            Some (true,
                  write_text file_path
                    (make_page (extract_title html)
                       (build_nav (relative_root file_path) (get_active_nav file_path))
                       content (relative_root file_path)) w)
          end
        end
    end.
Proof.
  unfold process_file.
  destruct (negb (str_in (py "sandvox") (lower html))
            && negb (str_in (py "main-content") html)); [reflexivity|].
  destruct (extract_main_content html) as [main_content|]; [|reflexivity].
  cbn [mbind option_bind].
  destruct (negb (nonempty main_content)); [reflexivity|].
  destruct (extract_index_section main_content) as [[[b i] a]|]; reflexivity.
Qed.

(** What [process_file] returns, in all. *)
Lemma process_file_cases (file_path : path) (html : str) (w : world)
    (b : bool) (w' : world) :
  process_file SITE_ROOT file_path html w = Some (b, w') ->
  (b = false /\ files w' = files w) \/
  (b = true /\
   (str_in (py "sandvox") (lower html) || str_in (py "main-content") html = true) /\
   exists main_content content : str,
     extract_main_content html = Some main_content /\ main_content <> [] /\
     w' = write_text file_path
            (make_page (extract_title html)
               (build_nav (relative_root file_path) (get_active_nav file_path))
               content (relative_root file_path)) w).
Proof.
  rewrite process_file_unfold.
  destruct (str_in (py "sandvox") (lower html)) eqn:Es;
    destruct (str_in (py "main-content") html) eqn:Em; cbn [negb andb orb].
  4:{ intros H; injection H as <- <-; left; split; reflexivity. }
  all: destruct (extract_main_content html) as [[|c0 mc]|]; cbn [nonempty negb];
    [ intros H; injection H as <- <-; left; split; reflexivity | | discriminate ].
  all: destruct (extract_index_section (c0 :: mc)) as [[[before idx] after]|];
    [|discriminate].
  all: destruct (clean_content _) as [content|]; [|discriminate].
  all: intros H; injection H as <- <-; right.
  all: split; [reflexivity|]; split; [reflexivity|].
  all: exists (c0 :: mc), content.
  all: split; [reflexivity|]; split; [discriminate | reflexivity].
Qed.

(** X1. [process_file] writes at most the document it is called on.
    Whatever it answers, every other document is as it was; when it answers
    [False] no document has changed; when it answers [True] the text held
    the legacy marker or the container marker, its main content was not
    empty, nothing was printed, and the document now holds a page that
    begins with the HTML5 doctype. *)
Theorem process_file_writes_one_file (file_path : path) (html : str) (w : world)
    (b : bool) (w' : world) :
  process_file SITE_ROOT file_path html w = Some (b, w') ->
  (forall q : path, q <> file_path -> files w' !! q = files w !! q) /\
  (b = false -> files w' = files w) /\
  (b = true ->
   (str_in (py "sandvox") (lower html) || str_in (py "main-content") html = true) /\
   (exists main_content, extract_main_content html = Some main_content /\
                         main_content <> []) /\
   stdout w' = stdout w /\
   exists page, files w' !! file_path = Some page /\
                startswith page (py "<!DOCTYPE html>") = true).
Proof.
  intros H; apply process_file_cases in H.
  destruct H as [[-> Hf]|(-> & Hm & mc & content & Hmc & Hne & ->)].
  - rewrite Hf; repeat split; try reflexivity; discriminate.
  - split; [|split; [discriminate|]].
    + intros q Hq; cbn [write_text files].
      apply lookup_insert_ne; congruence.
    + intros _; split; [exact Hm|]; split; [exists mc; split; assumption|].
      split; [reflexivity|].
      eexists; split; [apply lookup_insert_eq | apply make_page_starts].
Qed.

(** X2. What [process_file] writes passes the test that [main] applies to
    its sample: when it answers [True] and the title it extracted and the
    relative root are together at most 195 characters long, the document
    now holds a text with the doctype in its first 50 characters and
    [navbar] in its first 500.  What [main] does when its sample passes the
    test is no part of this. *)
Theorem process_file_output_detected (file_path : path) (html : str) (w : world)
    (w' : world) :
  process_file SITE_ROOT file_path html w = Some (true, w') ->
  len (extract_title html) + len (relative_root file_path) <= 195 ->
  exists page, files w' !! file_path = Some page /\
               already_modernized page = true.
Proof.
  intros H Hlen; apply process_file_cases in H.
  destruct H as [[H _]|(_ & _ & mc & content & _ & _ & ->)]; [discriminate|].
  eexists; split; [apply lookup_insert_eq|].
  unfold already_modernized.
  rewrite !slice_to_firstn by lia.
  apply andb_true_iff; split.
  - destruct (make_page_doctype (extract_title html)
                (build_nav (relative_root file_path) (get_active_nav file_path))
                content (relative_root file_path)) as [r ->].
    apply str_in_firstn; cbn; lia.
  - destruct (make_page_navbar (extract_title html)
                (build_nav (relative_root file_path) (get_active_nav file_path))
                content (relative_root file_path)) as [r ->].
    apply str_in_firstn.
    rewrite length_page_head; unfold len in Hlen; cbn; lia.
Qed.

End WriteFacts.

Lemma process_file_sample :
  process_file (py "/site") [py "a.html"] legacy_page legacy_world
  = Some (true, modern_world).
Proof. vm_compute; reflexivity. Qed.

Lemma process_file_writes_one_file_witness :
  process_file (py "/site") [py "a.html"] legacy_page legacy_world
  = Some (true, modern_world) /\
  (forall q : path, q <> [py "a.html"] ->
     files modern_world !! q = files legacy_world !! q) /\
  exists page, files modern_world !! [py "a.html"] = Some page /\
               startswith page (py "<!DOCTYPE html>") = true.
Proof.
  split; [exact process_file_sample|].
  destruct (process_file_writes_one_file (py "/site") [py "a.html"] legacy_page
              legacy_world true modern_world process_file_sample)
    as (Hframe & _ & Htrue).
  split; [exact Hframe|].
  destruct (Htrue eq_refl) as (_ & _ & _ & Hpage); exact Hpage.
Defined.

Lemma process_file_output_detected_witness :
  process_file (py "/site") [py "a.html"] legacy_page legacy_world
  = Some (true, modern_world) /\
  len (extract_title legacy_page) + len (relative_root [py "a.html"]) <= 195 /\
  exists page, files modern_world !! [py "a.html"] = Some page /\
               already_modernized page = true.
Proof.
  split; [exact process_file_sample|].
  split; [vm_compute; discriminate|].
  apply (process_file_output_detected (py "/site") [py "a.html"] legacy_page
           legacy_world modern_world process_file_sample).
  vm_compute; discriminate.
Defined.

(** ** The test of [main] *)

Section DetectorFacts.

Lemma firstn_firstn_min (s : str) (n m : nat) :
  (n <= m)%nat -> firstn n (firstn m s) = firstn n s.
Proof. intros H; rewrite firstn_firstn; f_equal; lia. Qed.

(** X3. The test of [main] reads the first 500 characters of the sample and
    nothing else: the sample and its first 500 characters get the same
    answer, so two samples that agree on their first 500 characters do. *)
Theorem already_modernized_first_500 (sample : str) :
  already_modernized sample = already_modernized (firstn 500 sample) /\
  forall other : str,
    firstn 500 other = firstn 500 sample ->
    already_modernized other = already_modernized sample.
Proof.
  assert (H : forall s, already_modernized s = already_modernized (firstn 500 s)).
  { intros s; unfold already_modernized.
    rewrite !slice_to_firstn by lia.
    change (Z.to_nat 50) with 50%nat; change (Z.to_nat 500) with 500%nat.
    rewrite !firstn_firstn_min by lia; reflexivity. }
  split; [apply H|].
  intros other Heq; rewrite (H other), (H sample), Heq; reflexivity.
Qed.

End DetectorFacts.

(** ** The active navigation item *)

Section NavFacts.

(** X4. The navigation built for a document marks at most one item active:
    [get_active_nav] answers the empty string, and then no line of
    [build_nav] carries the active class, or the target of one navigation
    item, and then exactly one line does. *)
Theorem nav_one_active (file_path : path) (root_prefix : str) :
  let active := get_active_nav file_path in
  (active = [] /\ active_lines root_prefix active = []) \/
  (In active (map snd NAV_ITEMS) /\
   exists label,
     In (label, active) NAV_ITEMS /\
     active_lines root_prefix active = [nav_item root_prefix active (label, active)]).
Proof.
  cbv zeta; unfold get_active_nav.
  destruct (str_eqb (rel_str file_path) (py "index.html")).
  { right; split; [cbn; tauto|].
    exists (py "Home"); split; [cbn; tauto | reflexivity]. }
  destruct (startswith (rel_str file_path) (py "what")).
  { right; split; [cbn; tauto|].
    exists (py "What"); split; [cbn; tauto | reflexivity]. }
  destruct (startswith (rel_str file_path) (py "who")).
  { right; split; [cbn; tauto|].
    exists (py "Who"); split; [cbn; tauto | reflexivity]. }
  destruct (startswith (rel_str file_path) (py "why")).
  { right; split; [cbn; tauto|].
    exists (py "Why"); split; [cbn; tauto | reflexivity]. }
  destruct (startswith (rel_str file_path) (py "headaches/")
            || startswith (rel_str file_path) (py "migraines/")
            || startswith (rel_str file_path) (py "damage/")).
  { right; split; [cbn; tauto|].
    exists (py "Headaches"); split; [cbn; tauto | reflexivity]. }
  destruct (startswith (rel_str file_path) (py "pog/")).
  { right; split; [cbn; tauto|].
    exists (py "Pawlet Box"); split; [cbn; tauto | reflexivity]. }
  left; split; reflexivity.
Qed.

End NavFacts.

(** ** The documents [main] leaves out *)

Section FilterFacts.

Lemma str_eqb_refl (a : str) : str_eqb a a = true.
Proof. unfold str_eqb; apply bool_decide_eq_true; reflexivity. Qed.

Lemma str_eqb_eq (a b : str) : str_eqb a b = true <-> a = b.
Proof. unfold str_eqb; apply bool_decide_eq_true. Qed.

Lemma removelast_snoc {A} (l : list A) (x : A) : removelast (l ++ [x]) = l.
Proof. apply removelast_last. Qed.

Lemma main_skips_dir (rel : path) (d : str) :
  In d SKIP_DIRS -> In d (removelast rel) -> main_skips rel = true.
Proof.
  intros Hd Hin; unfold main_skips.
  destruct (startswith (rel_str rel) (py "pog/Media")); [reflexivity|].
  apply existsb_exists; exists d; split; [exact Hd|].
  apply existsb_exists; exists d; split; [exact Hin | apply str_eqb_refl].
Qed.

(** X5. The filter of [main] looks at the directories of a document, never
    at its name.  A document below a directory of [SKIP_DIRS], at any depth,
    is left out; a document of the site root is kept whatever its name, be
    it that of such a directory, unless the name begins with [pog/Media]; a
    document whose directories are none of [SKIP_DIRS] and whose path does
    not begin with [pog/Media] is kept.  The test on [pog/Media] is on the
    text of the path: it leaves out every document below [pog/Media], and
    also a document of [pog] whose name begins with [Media]. *)
Theorem main_skips_by_directory :
  (forall (above below : list str) (d name : str),
     In d SKIP_DIRS -> main_skips (above ++ d :: below ++ [name]) = true) /\
  (forall name : str,
     main_skips [name] = startswith name (py "pog/Media")) /\
  (forall rel : path,
     (forall d, In d (removelast rel) -> ~ In d SKIP_DIRS) ->
     startswith (rel_str rel) (py "pog/Media") = false ->
     main_skips rel = false) /\
  (forall (below : list str) (name : str),
     main_skips (py "pog" :: py "Media" :: below ++ [name]) = true) /\
  (forall name : str,
     startswith name (py "Media") = true -> main_skips [py "pog"; name] = true).
Proof.
  split; [|split; [|split; [|split]]].
  - intros above below d name Hd.
    apply (main_skips_dir _ d Hd).
    replace (above ++ d :: below ++ [name]) with ((above ++ d :: below) ++ [name])
      by (rewrite <- app_assoc; reflexivity).
    rewrite removelast_snoc; apply in_or_app; right; left; reflexivity.
  - intros name; unfold main_skips; cbn [rel_str join removelast existsb].
    destruct (startswith name (py "pog/Media")); [reflexivity|].
    apply not_true_is_false; intros H.
    apply existsb_exists in H as (d & _ & H); discriminate H.
  - intros rel Hdirs Hpog; unfold main_skips; rewrite Hpog.
    apply not_true_is_false; intros H.
    apply existsb_exists in H as (d & Hd & H).
    apply existsb_exists in H as (p & Hp & H).
    apply str_eqb_eq in H; subst p.
    exact (Hdirs d Hp Hd).
  - intros below name; unfold main_skips.
    destruct below as [|b below]; reflexivity.
  - intros name Hname; unfold main_skips.
    apply startswith_app in Hname as [t ->]; reflexivity.
Qed.

End FilterFacts.

(** ** What [balance_divs] deletes, and when it returns *)

Section BalanceFacts.

Lemma Scan_text (s : str) (ps : list piece) :
  Scan s ps -> concat (map text ps) = s.
Proof.
  induction 1 as [|s j ps Ho Hj Hs IH|s n ps Ho Hn Hs IH|c t ps Ho Hc Hs IH];
    cbn [map concat text]; try reflexivity.
  - rewrite IH; apply firstn_skipn.
  - rewrite IH; apply firstn_skipn.
  - rewrite IH; reflexivity.
Qed.

Lemma Scan_close_pieces (s : str) (ps : list piece) :
  Scan s ps ->
  Forall (fun p => match p with
                   | PClose t => close_len t = Some (length t)
                   | _ => True
                   end) ps.
Proof.
  induction 1 as [|s j ps Ho Hj Hs IH|s n ps Ho Hn Hs IH|c t ps Ho Hc Hs IH];
    constructor; try assumption; try exact I.
  destruct (well_tagged_close s n Hn) as [_ Hclean].
  exact (proj1 (Hclean [])).
Qed.

Lemma balance_divs_inv (html out : str) :
  balance_divs html = Some out ->
  exists ps, Scan html ps /\ out = concat (map text (keep ps 0)).
Proof.
  intros H.
  destruct (Scan_or_Stuck (length html) html (Nat.le_refl _)) as [[ps Hs]|Hst].
  - exists ps; split; [exact Hs|].
    rewrite (balance_divs_scan html ps Hs) in H; congruence.
  - unfold balance_divs in H.
    rewrite balance_divs_never_returns in H by exact Hst; discriminate.
Qed.

Lemma Removes_app_keep (x s t : str) : Removes s t -> Removes (x ++ s) (x ++ t).
Proof. intros H; induction x as [|c x IH]; [exact H | constructor; exact IH]. Qed.

Lemma Removes_keep_pieces (ps : list piece) : forall d,
  Forall (fun p => match p with
                   | PClose t => close_len t = Some (length t)
                   | _ => True
                   end) ps ->
  Removes (concat (map text ps)) (concat (map text (keep ps d))).
Proof.
  induction ps as [|p ps IH]; intros d Hwf; [constructor|].
  inversion Hwf as [|? ? Hp Hps]; subst.
  destruct p as [t|t|c]; cbn [map concat text keep].
  - apply Removes_app_keep, IH, Hps.
  - destruct d as [|d]; cbn [map concat text].
    + apply removes_tag; [exact Hp | apply IH, Hps].
    + apply Removes_app_keep, IH, Hps.
  - apply (Removes_app_keep [c]), IH, Hps.
Qed.

Lemma Removes_sublist (s t : str) : Removes s t -> sublist t s.
Proof.
  induction 1 as [|c s t H IH|tag s t Ht H IH].
  - constructor.
  - constructor; exact IH.
  - apply sublist_inserts_l; exact IH.
Qed.

Lemma close_len_starts (tag : str) (n : nat) (s : str) :
  close_len tag = Some n -> startswith (tag ++ s) (py "</div") = true.
Proof.
  unfold close_len.
  destruct tag as [|c1 [|c2 [|c3 [|c4 [|c5 t]]]]]; try discriminate.
  destruct (_ && _) eqn:E; [|discriminate]; intros _.
  apply andb_prop in E as [E H5]; apply andb_prop in E as [E H4].
  apply andb_prop in E as [E H3]; apply andb_prop in E as [H1 H2].
  apply Ascii.eqb_eq in H1, H2, H3, H4, H5; subst; reflexivity.
Qed.

Lemma Removes_no_close (s t : str) :
  Removes s t -> str_in (py "</div") s = false -> t = s.
Proof.
  induction 1 as [|c s t H IH|tag s t Ht H IH]; intros Hno; [reflexivity| |].
  - cbn [str_in] in Hno; apply orb_false_elim in Hno as [_ Hno].
    rewrite (IH Hno); reflexivity.
  - exfalso.
    pose proof (close_len_starts tag _ s Ht) as Hst.
    destruct (tag ++ s) as [|c r]; [discriminate|].
    cbn [str_in] in Hno; rewrite Hst in Hno; discriminate.
Qed.

(** X6. What [balance_divs] returns is its argument with closing tags cut
    out and nothing else changed: the answer is a sublist of the text, so
    never longer, and it is the text itself when the text holds no [</div]. *)
Theorem balance_divs_only_deletes (html out : str) :
  balance_divs html = Some out ->
  Removes html out /\
  sublist out html /\
  len out <= len html /\
  (str_in (py "</div") html = false -> out = html).
Proof.
  intros H.
  destruct (balance_divs_inv html out H) as (ps & Hs & ->).
  assert (HR : Removes html (concat (map text (keep ps 0)))).
  { rewrite <- (Scan_text html ps Hs) at 1.
    apply Removes_keep_pieces, (Scan_close_pieces html), Hs. }
  split; [exact HR|].
  split; [apply Removes_sublist, HR|].
  split; [|apply Removes_no_close, HR].
  apply Removes_sublist, sublist_length in HR; unfold len; lia.
Qed.

Lemma balance_divs_only_deletes_witness :
  balance_divs unwrapped_article
  = Some (qq "<p>a < b</p><div class='x'><b>c</b><br /></div  >d") /\
  sublist (qq "<p>a < b</p><div class='x'><b>c</b><br /></div  >d") unwrapped_article.
Proof.
  assert (H : balance_divs unwrapped_article
              = Some (qq "<p>a < b</p><div class='x'><b>c</b><br /></div  >d"))
    by (vm_compute; reflexivity).
  split; [exact H|].
  exact (proj1 (proj2 (balance_divs_only_deletes _ _ H))).
Defined.

Lemma str_in_first_occ (sub s : str) :
  str_in sub s = match first_occ sub s with Some _ => true | None => false end.
Proof.
  induction s as [|c s IH]; cbn [str_in first_occ].
  - destruct (startswith [] sub); reflexivity.
  - destruct (startswith (c :: s) sub); [reflexivity|].
    cbn [orb]; rewrite IH; destruct (first_occ sub s); reflexivity.
Qed.

Lemma str_in_skipn (sub s : str) (k : nat) :
  str_in sub (skipn k s) = true -> str_in sub s = true.
Proof.
  revert s; induction k as [|k IH]; intros s H; [exact H|].
  destruct s as [|c s]; [exact H|].
  cbn [skipn] in H; cbn [str_in]; rewrite (IH s H); apply orb_true_r.
Qed.

Lemma str_in_at (sub s : str) (k : nat) :
  startswith (skipn k s) sub = true -> str_in sub s = true.
Proof.
  intros H; apply (str_in_skipn sub s k).
  destruct (skipn k s); cbn [str_in]; rewrite H; reflexivity.
Qed.

Lemma str_in_before (sub s : str) (i j : nat) :
  (i <= j)%nat -> startswith (skipn j s) sub = true ->
  str_in sub (skipn i s) = true.
Proof.
  intros Hij H; apply (str_in_at sub _ (j - i)).
  rewrite skipn_skipn_add; replace (i + (j - i))%nat with j by lia; exact H.
Qed.

Lemma has_unclosed_open_skipn (s : str) (k : nat) :
  has_unclosed_open (skipn k s) = true -> has_unclosed_open s = true.
Proof.
  revert s; induction k as [|k IH]; intros s H; [exact H|].
  destruct s as [|c s]; [exact H|].
  cbn [skipn] in H; cbn [has_unclosed_open]; rewrite (IH s H); apply orb_true_r.
Qed.

Lemma has_unclosed_open_skip (k : nat) : forall s : str,
  (forall i, (i < k)%nat -> str_in (py ">") (skipn i s) = true) ->
  has_unclosed_open s = has_unclosed_open (skipn k s).
Proof.
  induction k as [|k IH]; intros s H; [reflexivity|].
  destruct s as [|c s]; [reflexivity|].
  cbn [has_unclosed_open skipn].
  pose proof (H O ltac:(lia)) as H0; cbn [skipn] in H0.
  rewrite H0, andb_false_r; cbn [orb].
  apply IH; intros i Hi; apply (H (S i)); lia.
Qed.

Lemma Stuck_unclosed (s : str) : Stuck s -> has_unclosed_open s = true.
Proof.
  induction 1 as [s Ho Hj|s j Ho Hj Hst IH|s n Ho Hn Hst IH|c t Ho Hc Hst IH].
  - destruct s as [|c s]; [discriminate Ho|].
    cbn [has_unclosed_open].
    rewrite opening_is_open, Ho, str_in_first_occ, Hj; reflexivity.
  - apply (has_unclosed_open_skipn s (S j)), IH.
  - apply (has_unclosed_open_skipn s n), IH.
  - apply (has_unclosed_open_skipn (c :: t) 1), IH.
Qed.

Lemma close_tail_ends (t : str) : forall k e,
  close_tail t k = Some e -> startswith (skipn (e - S k) t) (py ">") = true.
Proof.
  induction t as [|c t IH]; intros k e H; [discriminate|].
  cbn [close_tail] in H.
  destruct (isspace c).
  - pose proof (close_tail_bound _ _ _ H) as Hb.
    replace (e - S k)%nat with (S (e - S (S k))) by lia.
    cbn [skipn]; apply (IH _ _ H).
  - destruct (Ascii.eqb_spec c ">") as [->|]; [|discriminate].
    injection H as <-; rewrite Nat.sub_diag; reflexivity.
Qed.

Lemma close_len_ends (s : str) (n : nat) :
  close_len s = Some n -> startswith (skipn (n - 1) s) (py ">") = true.
Proof.
  intros Hn; pose proof (close_len_bound s n Hn) as Hb.
  unfold close_len in Hn.
  destruct s as [|c1 [|c2 [|c3 [|c4 [|c5 t]]]]]; try discriminate.
  destruct (_ && _); [|discriminate].
  apply close_tail_ends in Hn.
  replace (n - 1)%nat with (5 + (n - 6))%nat by lia.
  exact Hn.
Qed.

Lemma Scan_closed (s : str) (ps : list piece) :
  Scan s ps -> has_unclosed_open s = false.
Proof.
  induction 1 as [|s j ps Ho Hj Hs IH|s n ps Ho Hn Hs IH|c t ps Ho Hc Hs IH].
  - reflexivity.
  - rewrite (has_unclosed_open_skip (S j)); [exact IH|].
    intros i Hi; apply (str_in_before _ _ i j); [lia|].
    apply (first_occ_some _ _ _ Hj).
  - pose proof (close_len_bound s n Hn) as Hb.
    rewrite (has_unclosed_open_skip n); [exact IH|].
    intros i Hi; apply (str_in_before _ _ i (n - 1)); [lia|].
    apply close_len_ends, Hn.
  - cbn [has_unclosed_open].
    rewrite opening_is_open, Ho; exact IH.
Qed.

Lemma has_unclosed_open_Stuck (html : str) :
  has_unclosed_open html = true <-> Stuck html.
Proof.
  split; [|apply Stuck_unclosed].
  intros H.
  destruct (Scan_or_Stuck (length html) html (Nat.le_refl _)) as [[ps Hs]|Hst];
    [|exact Hst].
  rewrite (Scan_closed html ps Hs) in H; discriminate.
Qed.

Lemma closed_by_last_gt (s : str) : has_unclosed_open (s ++ py ">") = false.
Proof.
  induction s as [|c s IH]; [reflexivity|].
  cbn [app has_unclosed_open]; rewrite IH, orb_false_r.
  change (c :: s ++ py ">") with ((c :: s) ++ py ">" ++ []).
  rewrite str_in_app, andb_false_r; reflexivity.
Qed.

Lemma balance_divs_none_iff (html : str) :
  balance_divs html = None <-> has_unclosed_open html = true.
Proof.
  split; intros H.
  - destruct (Scan_or_Stuck (length html) html (Nat.le_refl _)) as [[ps Hp]|Hst].
    + rewrite (balance_divs_scan html ps Hp) in H; discriminate.
    + apply Stuck_unclosed, Hst.
  - apply balance_divs_never_returns, has_unclosed_open_Stuck, H.
Qed.

(** X7. [balance_divs] fails to return on exactly the texts in which an
    opening tag ([<div] and a white space or [>]) begins that no [>]
    follows: on those no number of iterations brings an answer, and on all
    others an answer comes within [len(html) + 1] iterations.  A text that
    ends with [>] is of the second kind. *)
Theorem balance_divs_returns_iff (html : str) :
  (if has_unclosed_open html
   then forall fuel, balance_divs_fuel fuel html = None
   else exists out, balance_divs html = Some out) /\
  (exists out, balance_divs (html ++ py ">") = Some out).
Proof.
  assert (Hret : forall s, has_unclosed_open s = false ->
                           exists out, balance_divs s = Some out).
  { intros s Hs.
    destruct (Scan_or_Stuck (length s) s (Nat.le_refl _)) as [[ps Hp]|Hst].
    - eexists; apply balance_divs_scan, Hp.
    - apply Stuck_unclosed in Hst; congruence. }
  split; [|apply Hret, closed_by_last_gt].
  destruct (has_unclosed_open html) eqn:E; [|apply Hret, E].
  intros fuel; apply balance_divs_never_returns, has_unclosed_open_Stuck, E.
Qed.

End BalanceFacts.

(** ** The region [extract_div_content] returns *)

Section RegionFacts.

Lemma startswith_firstn (p : str) : forall (s : str) (n : nat),
  (length p <= n)%nat -> startswith (firstn n s) p = startswith s p.
Proof.
  induction p as [|c p IH]; intros s n Hn; [reflexivity|].
  cbn [length] in Hn.
  destruct n as [|n]; [lia|].
  destruct s as [|d s]; [reflexivity|].
  cbn [firstn startswith]; rewrite IH by lia; reflexivity.
Qed.

Lemma startswith_short (s p : str) :
  (length s < length p)%nat -> startswith s p = false.
Proof.
  intros H; destruct (startswith s p) eqn:E; [|reflexivity].
  apply startswith_length in E; lia.
Qed.

Lemma count_below_nil (tag : str -> bool) (n : nat) : count_below tag [] n = 0%nat.
Proof. destruct n; reflexivity. Qed.

Lemma count_below_0 (tag : str -> bool) (s : str) : count_below tag s 0 = 0%nat.
Proof. reflexivity. Qed.

(** The tags of a prefix are the tags of the text that end within it. *)
Lemma count_tags_firstn (p : str) : forall (s : str) (n : nat),
  (1 <= length p)%nat ->
  count_tags (fun x => startswith x p) (firstn n s)
  = count_below (fun x => startswith x p) s (n + 1 - length p).
Proof.
  intros s; induction s as [|c s IH]; intros n Hp.
  - rewrite firstn_nil, count_below_nil; reflexivity.
  - destruct n as [|n].
    + rewrite firstn_O; replace (0 + 1 - length p)%nat with O by lia; reflexivity.
    + cbn [firstn count_tags]; rewrite IH by exact Hp.
      destruct (Nat.le_gt_cases (length p) (S n)) as [Hle|Hgt].
      * replace (S n + 1 - length p)%nat with (S (n + 1 - length p)) by lia.
        cbn [count_below].
        change (c :: firstn n s) with (firstn (S n) (c :: s)).
        rewrite startswith_firstn by exact Hle; reflexivity.
      * replace (S n + 1 - length p)%nat with O by lia.
        replace (n + 1 - length p)%nat with O by lia.
        rewrite startswith_short by (cbn [length]; rewrite length_firstn; lia).
        reflexivity.
Qed.

Lemma count_below_mono (tag : str -> bool) : forall (s : str) (a b : nat),
  (a <= b)%nat -> (count_below tag s a <= count_below tag s b)%nat.
Proof.
  intros s; induction s as [|c s IH]; intros a b Hab.
  - rewrite !count_below_nil; lia.
  - destruct a as [|a]; [cbn; lia|].
    destruct b as [|b]; [lia|].
    cbn [count_below]; specialize (IH a b ltac:(lia)); lia.
Qed.

Lemma count_below_no_tag (tag : str -> bool) : forall (s : str) (a b : nat),
  (a <= b)%nat ->
  (forall j, (a <= j < b)%nat -> tag (skipn j s) = false) ->
  count_below tag s b = count_below tag s a.
Proof.
  intros s; induction s as [|c s IH]; intros a b Hab Hno.
  - rewrite !count_below_nil; reflexivity.
  - destruct b as [|b]; [replace a with O by lia; reflexivity|].
    destruct a as [|a].
    + cbn [count_below].
      pose proof (Hno O ltac:(lia)) as H0; cbn [skipn] in H0; rewrite H0.
      rewrite (IH O b ltac:(lia)); [reflexivity|].
      intros j Hj; apply (Hno (S j)); lia.
    + cbn [count_below]; f_equal.
      apply IH; [lia|].
      intros j Hj; apply (Hno (S j)); lia.
Qed.

(** The depth the scan keeps is the count of the tags it has passed. *)
Lemma matching_close_counts (s : str) : forall (i : Z) (d : nat),
  match matching_close_from s i d with
  | Some e =>
    exists k, e = i + Z.of_nat k /\
      closes_at (skipn k s) = true /\
      count_below closes_at s k = (count_below opens_at s k + d)%nat /\
      forall k', (k' <= k)%nat ->
        (count_below closes_at s k' <= count_below opens_at s k' + d)%nat
  | None =>
    forall k', (count_below closes_at s k' <= count_below opens_at s k' + d)%nat
  end.
Proof.
  induction s as [|c s IH]; intros i d.
  - cbn [matching_close_from]; intros k'; rewrite !count_below_nil; lia.
  - change (matching_close_from (c :: s) i d)
      with (if startswith (c :: s) (py "</div>") then
              match d with O => Some i | S d' => matching_close_from s (i + 1) d' end
            else if startswith (c :: s) (py "<div")
                 then matching_close_from s (i + 1) (S d)
                 else matching_close_from s (i + 1) d).
    destruct (startswith (c :: s) (py "</div>")) eqn:Ec.
    + assert (Eo : startswith (c :: s) (py "<div") = false).
      { apply startswith_app in Ec as [t Ht]; rewrite Ht; reflexivity. }
      destruct d as [|d'].
      * exists O; repeat split; try (cbn; lia); [exact Ec|].
        intros k' Hk'; replace k' with O by lia; cbn; lia.
      * specialize (IH (i + 1) d').
        destruct (matching_close_from s (i + 1) d') as [e|].
        -- destruct IH as (k & -> & Hc & Heq & Hle).
           exists (S k); split; [lia|]; split; [exact Hc|].
           cbn [count_below]; unfold closes_at at 1, opens_at at 1.
           rewrite Ec, Eo; split; [lia|].
           intros [|k'] Hk'; [cbn; lia|].
           cbn [count_below]; unfold closes_at at 1, opens_at at 1.
           rewrite Ec, Eo; specialize (Hle k' ltac:(lia)); lia.
        -- intros [|k']; [cbn; lia|].
           cbn [count_below]; unfold closes_at at 1, opens_at at 1.
           rewrite Ec, Eo; specialize (IH k'); lia.
    + destruct (startswith (c :: s) (py "<div")) eqn:Eo.
      * specialize (IH (i + 1) (S d)).
        destruct (matching_close_from s (i + 1) (S d)) as [e|].
        -- destruct IH as (k & -> & Hc & Heq & Hle).
           exists (S k); split; [lia|]; split; [exact Hc|].
           cbn [count_below]; unfold closes_at at 1, opens_at at 1.
           rewrite Ec, Eo; split; [lia|].
           intros [|k'] Hk'; [cbn; lia|].
           cbn [count_below]; unfold closes_at at 1, opens_at at 1.
           rewrite Ec, Eo; specialize (Hle k' ltac:(lia)); lia.
        -- intros [|k']; [cbn; lia|].
           cbn [count_below]; unfold closes_at at 1, opens_at at 1.
           rewrite Ec, Eo; specialize (IH k'); lia.
      * specialize (IH (i + 1) d).
        destruct (matching_close_from s (i + 1) d) as [e|].
        -- destruct IH as (k & -> & Hc & Heq & Hle).
           exists (S k); split; [lia|]; split; [exact Hc|].
           cbn [count_below]; unfold closes_at at 1, opens_at at 1.
           rewrite Ec, Eo; split; [lia|].
           intros [|k'] Hk'; [cbn; lia|].
           cbn [count_below]; unfold closes_at at 1, opens_at at 1.
           rewrite Ec, Eo; specialize (Hle k' ltac:(lia)); lia.
        -- intros [|k']; [cbn; lia|].
           cbn [count_below]; unfold closes_at at 1, opens_at at 1.
           rewrite Ec, Eo; specialize (IH k'); lia.
Qed.

Lemma closes_at_lt (u : str) :
  closes_at u = true -> startswith u (py "<") = true.
Proof. intros H; apply startswith_app in H as [t ->]; reflexivity. Qed.

Lemma close_no_overlap (u : str) (o : nat) :
  closes_at u = true -> (1 <= o <= 5)%nat -> startswith (skipn o u) (py "<") = false.
Proof.
  intros H Ho; apply startswith_app in H as [t ->].
  destruct o as [|[|[|[|[|[|o]]]]]]; try lia; reflexivity.
Qed.

Lemma open_no_overlap (u : str) (o : nat) :
  opens_at u = true -> (1 <= o <= 3)%nat -> startswith (skipn o u) (py "<") = false.
Proof.
  intros H Ho; apply startswith_app in H as [t ->].
  destruct o as [|[|[|[|o]]]]; try lia; reflexivity.
Qed.

(** No tag begins in the characters right before a closing tag that would
    run into it. *)
Lemma no_tag_before_close (s : str) (k j : nat) :
  closes_at (skipn k s) = true ->
  ((k - 5 <= j < k)%nat -> closes_at (skipn j s) = false) /\
  ((k - 3 <= j < k)%nat -> opens_at (skipn j s) = false).
Proof.
  intros Hk; apply closes_at_lt in Hk.
  split; intros Hj.
  - destruct (closes_at (skipn j s)) eqn:E; [|reflexivity].
    pose proof (close_no_overlap _ (k - j) E ltac:(lia)) as H.
    rewrite skipn_skipn_add in H.
    replace (j + (k - j))%nat with k in H by lia; congruence.
  - destruct (opens_at (skipn j s)) eqn:E; [|reflexivity].
    pose proof (open_no_overlap _ (k - j) E ltac:(lia)) as H.
    rewrite skipn_skipn_add in H.
    replace (j + (k - j))%nat with k in H by lia; congruence.
Qed.

Lemma count_closes_firstn (s : str) (n : nat) :
  count_tags closes_at (firstn n s) = count_below closes_at s (n - 5).
Proof.
  unfold closes_at; rewrite (count_tags_firstn (py "</div>")) by (cbn; lia).
  f_equal; cbn [length py list_ascii_of_string]; lia.
Qed.

Lemma count_opens_firstn (s : str) (n : nat) :
  count_tags opens_at (firstn n s) = count_below opens_at s (n - 3).
Proof.
  unfold opens_at; rewrite (count_tags_firstn (py "<div")) by (cbn; lia).
  f_equal; cbn [length py list_ascii_of_string]; lia.
Qed.

(** X8. The region [extract_div_content] returns never closes a container
    it did not open: no prefix of it holds more closing tags than opening
    tags.  Either the region is followed in the text by the closing tag
    [</div>] that ends at the position returned, and then it holds as many
    opening tags as closing tags; or it is the rest of the text and the
    position returned is the end of the text. *)
Theorem extract_div_content_balanced (html : str) (start_pos : Z)
    (region : str) (next : Z) :
  0 <= start_pos <= len html ->
  extract_div_content html start_pos = Some (region, next) ->
  (forall n, (count_tags closes_at (firstn n region)
              <= count_tags opens_at (firstn n region))%nat) /\
  start_pos <= next <= len html /\
  ((region = slice html start_pos (next - 6) /\
    slice html (next - 6) next = py "</div>" /\
    count_tags opens_at region = count_tags closes_at region) \/
   (region = slice_from html start_pos /\ next = len html)).
Proof.
  intros Hs H.
  unfold extract_div_content in H.
  rewrite extract_div_content_fuel_spec in H by (try lia; exact Hs).
  unfold matching_close in H.
  set (s := skipn (Z.to_nat start_pos) html) in *.
  assert (Hls : len s = len html - start_pos)
    by (unfold s, len in *; rewrite length_skipn; lia).
  pose proof (matching_close_counts s start_pos 0) as Hc.
  pose proof (matching_close_bounds s start_pos 0) as Hb.
  destruct (matching_close_from s start_pos 0) as [e|].
  - injection H as <- <-.
    destruct Hc as (k & -> & Hclose & Heq & Hle).
    specialize (Hb _ eq_refl).
    assert (Hreg : slice html start_pos (start_pos + Z.of_nat k) = firstn k s).
    { unfold s; apply slice_suffix; [lia|].
      fold s; unfold len in *; lia. }
    rewrite Hreg.
    split; [|split; [lia|left]].
    + intros n; rewrite firstn_firstn.
      rewrite count_closes_firstn, count_opens_firstn.
      specialize (Hle (Nat.min n k - 5)%nat ltac:(lia)).
      pose proof (count_below_mono opens_at s (Nat.min n k - 5) (Nat.min n k - 3)
                    ltac:(lia)).
      lia.
    + replace (start_pos + Z.of_nat k + 6 - 6) with (start_pos + Z.of_nat k) by lia.
      split; [symmetry; exact Hreg|]; split.
      * replace (start_pos + Z.of_nat k + 6)
          with ((start_pos + Z.of_nat k) + Z.of_nat 6) by lia.
        rewrite slice_suffix;
          [ | lia | rewrite length_skipn; unfold len in *; lia ].
        replace (Z.to_nat (start_pos + Z.of_nat k)) with (Z.to_nat start_pos + k)%nat
          by lia.
        rewrite <- skipn_skipn_add; fold s.
        apply startswith_app in Hclose as [t ->]; reflexivity.
      * rewrite <- (firstn_all2 (n := k) (firstn k s)) by (rewrite length_firstn; lia).
        rewrite firstn_firstn, Nat.min_id.
        rewrite count_closes_firstn, count_opens_firstn.
        rewrite (count_below_no_tag closes_at s (k - 5) k) in Heq;
          [ | lia | intros j Hj; apply (no_tag_before_close s k j Hclose); lia ].
        rewrite (count_below_no_tag opens_at s (k - 3) k) in Heq;
          [ | lia | intros j Hj; apply (no_tag_before_close s k j Hclose); lia ].
        lia.
  - injection H as <- <-.
    rewrite slice_from_in_range by lia; fold s.
    split; [|split; [lia | right; split; reflexivity]].
    intros n; rewrite count_closes_firstn, count_opens_firstn.
    specialize (Hc (n - 5)%nat).
    pose proof (count_below_mono opens_at s (n - 5) (n - 3) ltac:(lia)).
    lia.
Qed.

Lemma extract_div_content_balanced_witness :
  0 <= 5 <= len (py "<div>a<div>b</div>c</div>d") /\
  extract_div_content (py "<div>a<div>b</div>c</div>d") 5
  = Some (py "a<div>b</div>c", 25) /\
  (forall n, (count_tags closes_at (firstn n (py "a<div>b</div>c"))
              <= count_tags opens_at (firstn n (py "a<div>b</div>c")))%nat).
Proof.
  split; [vm_compute; split; discriminate|].
  split; [reflexivity|].
  apply (extract_div_content_balanced (py "<div>a<div>b</div>c</div>d") 5
           (py "a<div>b</div>c") 25);
    [vm_compute; split; discriminate | reflexivity].
Defined.

End RegionFacts.

(** ** Where a match can lie *)

Section EngineFacts.

Variable fl : flags.

(** A match of a repetition hands over to its continuation further on in
    the text. *)
Lemma rep_greedy_inv (a : atom) (mn : nat) (mx : option nat) (k : cont)
    (cs : caps) (res : nat * caps) :
  forall (rest : str) (cnt p : nat) (prev : option ascii),
  rep_greedy fl a mn mx cnt p prev rest cs k = Some res ->
  exists p' prev',
    k p' prev' (skipn (p' - p) rest) cs = Some res /\
    (p <= p')%nat /\ (p' - p <= length rest)%nat.
Proof.
  induction rest as [|c rest IH]; intros cnt p prev H; cbn [rep_greedy] in H.
  - destruct (mn <=? cnt)%nat; [|discriminate].
    exists p, prev; rewrite Nat.sub_diag; cbn; split; [exact H | lia].
  - assert (Hstop : (if (mn <=? cnt)%nat then k p prev (c :: rest) cs else None)
                    = Some res ->
                    exists p' prev',
                      k p' prev' (skipn (p' - p) (c :: rest)) cs = Some res /\
                      (p <= p')%nat /\ (p' - p <= length (c :: rest))%nat).
    { intros Hs; destruct (mn <=? cnt)%nat; [|discriminate].
      exists p, prev; rewrite Nat.sub_diag; cbn [skipn length]; split; [exact Hs | lia]. }
    destruct (atom_ok fl a c && under mx cnt); [|exact (Hstop H)].
    destruct (rep_greedy fl a mn mx (S cnt) (S p) (Some c) rest cs k) as [r|] eqn:E;
      [|exact (Hstop H)].
    injection H as <-.
    destruct (IH _ _ _ E) as (p' & prev' & Hk & Hle & Hlen).
    exists p', prev'.
    replace (p' - p)%nat with (S (p' - S p)) by lia.
    cbn [skipn length]; split; [exact Hk | lia].
Qed.

Lemma rep_lazy_inv (a : atom) (mn : nat) (mx : option nat) (k : cont)
    (cs : caps) (res : nat * caps) :
  forall (rest : str) (cnt p : nat) (prev : option ascii),
  rep_lazy fl a mn mx cnt p prev rest cs k = Some res ->
  exists p' prev',
    k p' prev' (skipn (p' - p) rest) cs = Some res /\
    (p <= p')%nat /\ (p' - p <= length rest)%nat.
Proof.
  induction rest as [|c rest IH]; intros cnt p prev H; cbn [rep_lazy] in H.
  - destruct (mn <=? cnt)%nat; [|discriminate].
    destruct (k p prev [] cs) as [r|] eqn:E; [|discriminate].
    injection H as <-.
    exists p, prev; rewrite Nat.sub_diag; cbn; split; [exact E | lia].
  - assert (Hmore : (if atom_ok fl a c && under mx cnt
                     then rep_lazy fl a mn mx (S cnt) (S p) (Some c) rest cs k
                     else None) = Some res ->
                    exists p' prev',
                      k p' prev' (skipn (p' - p) (c :: rest)) cs = Some res /\
                      (p <= p')%nat /\ (p' - p <= length (c :: rest))%nat).
    { intros Hs; destruct (atom_ok fl a c && under mx cnt); [|discriminate].
      destruct (IH _ _ _ Hs) as (p' & prev' & Hk & Hle & Hlen).
      exists p', prev'.
      replace (p' - p)%nat with (S (p' - S p)) by lia.
      cbn [skipn length]; split; [exact Hk | lia]. }
    destruct (mn <=? cnt)%nat; [|exact (Hmore H)].
    destruct (k p prev (c :: rest) cs) as [r|] eqn:E; [|exact (Hmore H)].
    injection H as <-.
    exists p, prev; rewrite Nat.sub_diag; cbn [skipn length]; split; [exact E | lia].
Qed.

(** A match of a pattern hands over to its continuation further on in the
    text, within the text. *)
Lemma run_inv (r : regex) :
  forall (p : nat) (prev : option ascii) (rest : str) (cs : caps) (k : cont)
         (res : nat * caps),
  run fl r p prev rest cs k = Some res ->
  exists p' prev' cs',
    k p' prev' (skipn (p' - p) rest) cs' = Some res /\
    (p <= p')%nat /\ (p' - p <= length rest)%nat.
Proof.
  induction r as [|a|a mn mx g|r1 IH1 r2 IH2|r1 IH1 r2 IH2|n r1 IH1| | | |r1 IH1];
    intros p prev rest cs k res H; cbn [run] in H.
  - exists p, prev, cs; rewrite Nat.sub_diag; split; [exact H | lia].
  - destruct rest as [|c rest]; [discriminate|].
    destruct (atom_ok fl a c); [|discriminate].
    exists (S p), (Some c), cs.
    replace (S p - p)%nat with 1%nat by lia.
    cbn [skipn length]; split; [exact H | lia].
  - destruct g.
    + destruct (rep_greedy_inv _ _ _ _ _ _ _ _ _ _ H) as (p' & prev' & Hk & Hb).
      exists p', prev', cs; split; [exact Hk | exact Hb].
    + destruct (rep_lazy_inv _ _ _ _ _ _ _ _ _ _ H) as (p' & prev' & Hk & Hb).
      exists p', prev', cs; split; [exact Hk | exact Hb].
  - destruct (IH1 _ _ _ _ _ _ H) as (p1 & prev1 & cs1 & H1 & Hle1 & Hlen1).
    destruct (IH2 _ _ _ _ _ _ H1) as (p2 & prev2 & cs2 & H2 & Hle2 & Hlen2).
    rewrite length_skipn in Hlen2.
    exists p2, prev2, cs2.
    rewrite skipn_skipn_add in H2.
    replace (p1 - p + (p2 - p1))%nat with (p2 - p)%nat in H2 by lia.
    split; [exact H2 | lia].
  - destruct (run fl r1 p prev rest cs k) as [x|] eqn:E.
    + injection H as <-; exact (IH1 _ _ _ _ _ _ E).
    + exact (IH2 _ _ _ _ _ _ H).
  - destruct (IH1 _ _ _ _ _ _ H) as (p1 & prev1 & cs1 & H1 & Hb).
    exists p1, prev1, ((n, (p, p1)) :: cs1); split; [exact H1 | exact Hb].
  - destruct (p =? 0)%nat; [|discriminate].
    exists p, prev, cs; rewrite Nat.sub_diag; split; [exact H | lia].
  - exists p, prev, cs; rewrite Nat.sub_diag; cbn [skipn].
    split; [|lia].
    destruct rest as [|c [|d rest]]; try discriminate; [exact H|].
    destruct (Ascii.eqb c "010"); [exact H | discriminate].
  - destruct (xorb _ _); [|discriminate].
    exists p, prev, cs; rewrite Nat.sub_diag; split; [exact H | lia].
  - destruct (run fl r1 p prev rest cs _) as [[e cs']|]; [|discriminate].
    exists p, prev, cs'; rewrite Nat.sub_diag; split; [exact H | lia].
Qed.

Lemma search_from_bounds (r : regex) (subj : str) :
  forall (rest : str) (p : nat) (prev : option ascii) (m : rmatch),
  search_from fl r subj p prev rest = Some m ->
  m_subj m = subj /\
  (p <= m_start m <= m_end m)%nat /\ (m_end m <= p + length rest)%nat.
Proof.
  induction rest as [|c rest IH]; intros p prev m H; cbn [search_from] in H.
  - destruct (run fl r p prev [] [] accept) as [[e cs]|] eqn:E; [|discriminate].
    injection H as <-; cbn [m_subj m_start m_end].
    destruct (run_inv _ _ _ _ _ _ _ E) as (p' & prev' & cs' & Hk & Hb).
    unfold accept in Hk; injection Hk as <- <-.
    cbn [length] in *; split; [reflexivity | lia].
  - destruct (run fl r p prev (c :: rest) [] accept) as [[e cs]|] eqn:E.
    + injection H as <-; cbn [m_subj m_start m_end].
      destruct (run_inv _ _ _ _ _ _ _ E) as (p' & prev' & cs' & Hk & Hb).
      unfold accept in Hk; injection Hk as <- <-.
      split; [reflexivity | lia].
    + destruct (IH _ _ _ H) as (Hs & Hb1 & Hb2).
      cbn [length]; split; [exact Hs | lia].
Qed.

Lemma search_at_bounds (r : regex) (subj : str) (p : nat) (m : rmatch) :
  (p <= length subj)%nat ->
  search_at fl r subj p = Some m ->
  m_subj m = subj /\ (p <= m_start m <= m_end m)%nat /\ (m_end m <= length subj)%nat.
Proof.
  intros Hp H; unfold search_at in H.
  destruct (search_from_bounds _ _ _ _ _ _ H) as (Hs & Hb1 & Hb2).
  rewrite length_skipn in Hb2; split; [exact Hs | lia].
Qed.

End EngineFacts.

Lemma search_bounds (r : regex) (s : str) (fl : flags) (m : rmatch) :
  search r s fl = Some m ->
  m_subj m = s /\ 0 <= mstart m <= mend m /\ mend m <= len s.
Proof.
  intros H; unfold search in H.
  destruct (search_at_bounds fl r s 0 m ltac:(lia) H) as (Hs & Hb1 & Hb2).
  unfold mstart, mend, len; split; [exact Hs | lia].
Qed.

(** ** The extractors return, and return parts of the text *)

Section SubFacts.

Lemma matches_in_weaken (s : str) (ms : list rmatch) (p q : nat) :
  (q <= p)%nat -> matches_in s p ms -> matches_in s q ms.
Proof.
  destruct ms as [|m ms]; [intros; exact I|].
  cbn [matches_in]; intros Hq (Hb & He & Hrest).
  split; [lia | split; assumption].
Qed.

Lemma matches_from_in (fl : flags) (r : regex) (s : str) :
  forall (fuel p : nat), matches_in s p (matches_from fuel fl r s p).
Proof.
  induction fuel as [|fuel IH]; intros p; [exact I|].
  cbn [matches_from].
  destruct (Nat.ltb_spec (length s) p) as [|Hp]; [exact I|].
  destruct (search_at fl r s p) as [m|] eqn:E; [|exact I].
  destruct (search_at_bounds fl r s p m Hp E) as (_ & Hb & He).
  cbn [matches_in]; split; [exact Hb | split; [exact He|]].
  eapply matches_in_weaken; [|apply IH].
  destruct (m_end m =? m_start m)%nat; lia.
Qed.

Lemma skipn_span (s : str) (a b : nat) :
  (a <= b)%nat -> skipn a s = span s a b ++ skipn b s.
Proof.
  intros Hab; unfold span.
  rewrite <- (firstn_skipn (b - a) (skipn a s)) at 1.
  rewrite skipn_skipn_add; repeat f_equal; lia.
Qed.

Lemma replace_matches_remove (s : str) (ms : list rmatch) : forall p,
  matches_in s p ms -> sublist (replace_matches remove s p ms) (skipn p s).
Proof.
  induction ms as [|m ms IH]; intros p Hin; cbn [replace_matches].
  - reflexivity.
  - destruct Hin as (Hb & He & Hrest).
    rewrite (skipn_span s p (m_start m)) by lia.
    apply sublist_app; [reflexivity|].
    rewrite (skipn_span s (m_start m) (m_end m)) by lia.
    unfold remove at 1; cbn [app].
    apply sublist_inserts_l, IH, Hrest.
Qed.

(** A substitution that removes its matches only deletes. *)
Lemma sub_remove_sublist (r : regex) (s : str) (fl : flags) :
  sublist (sub r remove s fl) s.
Proof.
  unfold sub, finditer.
  apply (replace_matches_remove s _ 0), matches_from_in.
Qed.

End SubFacts.

Section ExtractorFacts.

Lemma extract_div_content_slice (html : str) (start_pos : Z) :
  0 <= start_pos <= len html ->
  exists e next,
    extract_div_content html start_pos = Some (slice html start_pos e, next) /\
    start_pos <= e <= len html /\ e <= next <= len html.
Proof.
  intros Hs; unfold extract_div_content.
  rewrite extract_div_content_fuel_spec by (try lia; exact Hs).
  destruct (matching_close html start_pos) as [e|] eqn:Em.
  - unfold matching_close in Em; apply matching_close_bounds in Em.
    assert (len (skipn (Z.to_nat start_pos) html) = len html - start_pos)
      by (unfold len in *; rewrite length_skipn; lia).
    exists e, (e + 6); split; [reflexivity | lia].
  - exists (len html), (len html); split; [reflexivity | lia].
Qed.

Lemma extract_main_content_slice (html : str) :
  exists a b,
    0 <= a <= b /\ b <= len html /\
    extract_main_content html = Some (slice html a b) /\
    match search main_content_re html IGNORECASE with
    | None => extract_main_content html = Some []
    | Some m => a = mend m
    end.
Proof.
  unfold extract_main_content.
  destruct (search main_content_re html IGNORECASE) as [m|] eqn:E.
  - destruct (search_bounds _ _ _ _ E) as (_ & Hb & He).
    destruct (extract_div_content_slice html (mend m) ltac:(lia))
      as (e & next & -> & Hbe & _).
    exists (mend m), e; cbn [mbind option_bind].
    repeat split; lia.
  - exists 0, 0; pose proof (len_nonneg html).
    repeat split; try lia.
    destruct html; reflexivity.
Qed.

Lemma extract_index_section_split (content : str) :
  exists (before idx_inner after : str) (a b c : Z),
    extract_index_section content = Some (before, idx_inner, after) /\
    0 <= a <= b /\ b <= c <= len content /\
    before = slice_to content a /\
    idx_inner = slice content b c /\
    sublist after (slice_from content c) /\
    len before + len idx_inner + len after <= len content /\
    (search index_re content NOFLAGS = None ->
     before = content /\ idx_inner = [] /\ after = []).
Proof.
  unfold extract_index_section.
  pose proof (len_nonneg content) as Hl.
  destruct (search index_re content NOFLAGS) as [m|] eqn:E.
  - destruct (search_bounds _ _ _ _ E) as (_ & Hb & He).
    destruct (extract_div_content_slice content (mend m) ltac:(lia))
      as (e & next & -> & Hbe & Hn).
    cbn [mbind option_bind].
    set (after := sub trailing_comment_re (fun _ => []) (slice_from content next) NOFLAGS).
    assert (Hsub : sublist after (slice_from content next))
      by apply sub_remove_sublist.
    assert (Hnext : sublist (slice_from content next) (slice_from content e)).
    { rewrite !slice_from_in_range by lia.
      replace (Z.to_nat next) with (Z.to_nat e + (Z.to_nat next - Z.to_nat e))%nat
        by lia.
      rewrite <- skipn_skipn_add; apply sublist_drop. }
    exists (slice_to content (mstart m)), (slice content (mend m) e), after,
           (mstart m), (mend m), e.
    split; [reflexivity|].
    split; [lia|]; split; [lia|]; split; [reflexivity|]; split; [reflexivity|].
    split; [etransitivity; eassumption|].
    split; [|discriminate].
    apply sublist_length in Hsub.
    rewrite slice_from_in_range in Hsub by lia; rewrite length_skipn in Hsub.
    unfold slice_to; rewrite !len_slice by lia.
    unfold len in *; lia.
  - exists content, [], [], (len content), (len content), (len content).
    split; [reflexivity|].
    split; [lia|]; split; [lia|].
    assert (Hall : slice_to content (len content) = content).
    { rewrite slice_to_firstn by lia; apply firstn_all2; unfold len; lia. }
    split; [symmetry; exact Hall|].
    split; [unfold slice; rewrite !clamp_in_range by lia;
            rewrite Z.sub_diag; reflexivity|].
    split; [apply sublist_nil_l|].
    split; [unfold len; cbn [length]; lia | intros _; repeat split].
Qed.

(** X9. [extract_main_content] always returns, and what it returns is a
    part of the page, from one position to a later one: the empty string
    when the pattern of the content container matches nowhere, and
    otherwise a slice that begins where the opening tag of the container
    ends. *)
Theorem extract_main_content_total (html : str) :
  exists a b,
    0 <= a <= b /\ b <= len html /\
    extract_main_content html = Some (slice html a b) /\
    match search main_content_re html IGNORECASE with
    | None => extract_main_content html = Some []
    | Some m => a = mend m
    end.
Proof. exact (extract_main_content_slice html). Qed.

(** X10. [extract_index_section] always returns, and loses nothing it does
    not mean to: the text before the index is a prefix of the content, the
    index is a slice of the content further on, the text after the index is
    a sublist of what follows that slice, and the three together are never
    longer than the content.  When the index pattern matches nowhere the
    whole content is the text before, and the other two are empty. *)
Theorem extract_index_section_parts (content : str) :
  exists (before idx_inner after : str) (a b c : Z),
    extract_index_section content = Some (before, idx_inner, after) /\
    0 <= a <= b /\ b <= c <= len content /\
    before = slice_to content a /\
    idx_inner = slice content b c /\
    sublist after (slice_from content c) /\
    len before + len idx_inner + len after <= len content /\
    (search index_re content NOFLAGS = None ->
     before = content /\ idx_inner = [] /\ after = []).
Proof. exact (extract_index_section_split content). Qed.

End ExtractorFacts.

(** ** When [process_file] returns *)

Section ReturnFacts.

Variable SITE_ROOT : str.

Lemma clean_content_none_iff (content : str) :
  clean_content content = None <-> has_unclosed_open (clean_rules content) = true.
Proof.
  rewrite <- balance_divs_none_iff; unfold clean_content.
  destruct (balance_divs (clean_rules content)); cbn [mbind option_bind];
    split; intros H; try discriminate; reflexivity.
Qed.

(** X11. The one way for [process_file] not to return is the loop of
    [balance_divs]: the extractions always return, and the call fails to
    return exactly when the file passes the marker test, its main content is
    not empty, and the content that comes out of the cleaning rules holds an
    opening tag that no [>] follows. *)
Theorem process_file_returns_unless (file_path : path) (html : str) (w : world) :
  exists main_content before_idx idx_inner after_idx : str,
    extract_main_content html = Some main_content /\
    extract_index_section main_content = Some (before_idx, idx_inner, after_idx) /\
    let content :=
      if nonempty idx_inner
      then before_idx ++ nl ++ transform_gallery_index idx_inner ++ nl ++ after_idx
      else main_content in
    (process_file SITE_ROOT file_path html w = None <->
     (str_in (py "sandvox") (lower html) || str_in (py "main-content") html = true) /\
     main_content <> [] /\
     has_unclosed_open (clean_rules content) = true).
Proof.
  destruct (extract_main_content_slice html) as (a & b & _ & _ & Hmain & _).
  destruct (extract_index_section_split (slice html a b))
    as (before & idx & after & _ & _ & _ & Hidx & _).
  exists (slice html a b), before, idx, after.
  split; [exact Hmain|]; split; [exact Hidx|].
  cbv zeta; rewrite process_file_unfold, Hmain, Hidx.
  rewrite <- clean_content_none_iff.
  destruct (str_in (py "sandvox") (lower html));
    destruct (str_in (py "main-content") html); cbn [negb andb orb].
  4:{ split; [discriminate | intros (H & _); discriminate]. }
  all: destruct (slice html a b) as [|c0 mc]; cbn [nonempty negb];
    [ split; [discriminate | intros (_ & H & _); congruence] |].
  all: destruct (clean_content _);
    (split; [intros H | intros (_ & _ & H)]; try discriminate;
     repeat split; discriminate).
Qed.

End ReturnFacts.

Lemma process_file_returns_unless_witness :
  process_file (py "/site") [py "a.html"] cut_off_page legacy_world = None.
Proof.
  destruct (process_file_returns_unless (py "/site") [py "a.html"] cut_off_page
              legacy_world)
    as (main_content & before_idx & idx_inner & after_idx & Hmain & Hidx & Hiff).
  assert (main_content = py "<p>x</p><div ") as ->.
  { apply (inj Some); rewrite <- Hmain; vm_compute; reflexivity. }
  assert ((before_idx, idx_inner, after_idx) = (py "<p>x</p><div ", [], [])) as E.
  { apply (inj Some); rewrite <- Hidx; vm_compute; reflexivity. }
  injection E as -> -> ->.
  cbv zeta in Hiff; apply Hiff.
  split; [vm_compute; reflexivity|]; split; [discriminate|].
  vm_compute; reflexivity.
Defined.

(** ** The title *)

Section TitleFacts.

Lemma lstrip_no_lead (s : str) : no_lead (lstrip s).
Proof.
  induction s as [|c s IH]; [exact I|].
  cbn [lstrip]; destruct (isspace c) eqn:E; [exact IH | exact E].
Qed.

Lemma lstrip_id (s : str) : no_lead s -> lstrip s = s.
Proof. destruct s as [|c s]; [reflexivity|]; cbn; intros ->; reflexivity. Qed.

Lemma lstrip_suffix (s : str) : exists x, s = x ++ lstrip s.
Proof.
  induction s as [|c s [x IH]]; [exists []; reflexivity|].
  cbn [lstrip]; destruct (isspace c).
  - exists (c :: x); cbn [app]; rewrite <- IH; reflexivity.
  - exists []; reflexivity.
Qed.

Lemma rstrip_prefix (s : str) : exists y, s = rstrip s ++ y.
Proof.
  unfold rstrip; destruct (lstrip_suffix (rev s)) as [x Hx].
  exists (rev x).
  rewrite <- rev_app_distr, <- Hx, rev_involutive; reflexivity.
Qed.

Lemma rstrip_no_lead (s : str) : no_lead s -> no_lead (rstrip s).
Proof.
  intros H; destruct (rstrip_prefix s) as [y Hy].
  destruct (rstrip s) as [|c t]; [exact I|].
  rewrite Hy in H; exact H.
Qed.

Lemma strip_strip (s : str) : strip (strip s) = strip s.
Proof.
  unfold strip at 1.
  rewrite (lstrip_id (strip s))
    by (unfold strip; apply rstrip_no_lead, lstrip_no_lead).
  unfold strip, rstrip at 1 2.
  rewrite rev_involutive.
  rewrite (lstrip_id (lstrip (rev (lstrip s)))) by apply lstrip_no_lead.
  reflexivity.
Qed.

Lemma strip_sublist (s : str) : sublist (strip s) s.
Proof.
  unfold strip.
  destruct (rstrip_prefix (lstrip s)) as [y Hy].
  destruct (lstrip_suffix s) as [x Hx].
  rewrite Hx at 2; rewrite Hy at 2.
  apply sublist_inserts_l, sublist_inserts_r; reflexivity.
Qed.

Lemma split_on_head (sep : ascii) (s : str) : forall cur,
  exists pre rest tl,
    split_on sep s cur = (rev cur ++ pre) :: tl /\
    s = pre ++ rest /\ ~ In sep pre.
Proof.
  induction s as [|c s IH]; intros cur.
  - exists [], [], []; cbn; rewrite app_nil_r; auto.
  - cbn [split_on].
    destruct (Ascii.eqb_spec c sep) as [->|Hne].
    + exists [], (sep :: s), (split_on sep s []).
      rewrite app_nil_r; auto.
    + destruct (IH (c :: cur)) as (pre & rest & tl & Hsp & Hs & Hno).
      exists (c :: pre), rest, tl.
      rewrite Hsp; cbn [rev]; rewrite <- app_assoc.
      split; [reflexivity|]; split; [cbn; rewrite Hs; reflexivity|].
      intros [Hc|Hin]; [congruence | exact (Hno Hin)].
Qed.

Lemma span_sublist (s : str) (a b : nat) : sublist (span s a b) s.
Proof.
  unfold span; etransitivity; [apply sublist_take | apply sublist_drop].
Qed.

Lemma group_sublist (m : rmatch) (n : nat) : sublist (group m n) (m_subj m).
Proof.
  unfold group; destruct n as [|n]; [apply span_sublist|].
  destruct (lookup_group (S n) (m_caps m)) as [[a b]|];
    [apply span_sublist | apply sublist_nil_l].
Qed.

(** X12. The title [extract_title] returns is ready to be put before the
    site name: it holds no bar, and no white space at either end.  It is
    [Mighty Cheese] when the title pattern matches nowhere, and otherwise
    it is made of characters of the page, in their order (and may be
    empty). *)
Theorem extract_title_clean (html : str) :
  let title := extract_title html in
  ~ In "|"%char title /\
  strip title = title /\
  match search title_re html DOTALL_IGNORECASE with
  | None => title = py "Mighty Cheese"
  | Some _ => sublist title html
  end.
Proof.
  cbv zeta; unfold extract_title.
  destruct (search title_re html DOTALL_IGNORECASE) as [m|] eqn:E.
  2:{ split; [|split; reflexivity].
      cbn; intros H; repeat (destruct H as [H|H]; [discriminate H|]); exact H. }
  destruct (search_bounds _ _ _ _ E) as (Hsubj & _).
  unfold split.
  destruct (split_on_head "|" (strip (group m 1)) []) as (pre & rest & tl & -> & Hs & Hno).
  cbn [rev app map].
  split; [|split; [apply strip_strip|]].
  - intros Hin; apply Hno.
    apply list_elem_of_In; eapply elem_of_sublist;
      [apply list_elem_of_In, Hin | apply strip_sublist].
  - etransitivity; [apply strip_sublist|].
    etransitivity; [|rewrite <- Hsubj; apply (group_sublist m 1)].
    etransitivity; [|apply strip_sublist].
    rewrite Hs; apply sublist_inserts_r; reflexivity.
Qed.

End TitleFacts.

(** ** The loop of [main] over the documents *)

Section MainLoop.

Variable SITE_ROOT : str.

(** What [process_file] answers and writes does not depend on the world it
    is called in. *)
Lemma process_file_frame (file_path : path) (html : str) (w1 w2 : world) :
  match process_file SITE_ROOT file_path html w1 with
  | None => process_file SITE_ROOT file_path html w2 = None
  | Some (b, w1') =>
    exists w2',
      process_file SITE_ROOT file_path html w2 = Some (b, w2') /\
      (forall q, q <> file_path -> files w1' !! q = files w1 !! q) /\
      (b = true -> files w2' !! file_path = files w1' !! file_path) /\
      (b = false -> files w1' = files w1 /\ files w2' = files w2)
  end.
Proof.
  rewrite !process_file_unfold.
  destruct (negb (str_in (py "sandvox") (lower html))
            && negb (str_in (py "main-content") html)).
  { eexists; split; [reflexivity|]; repeat split; try reflexivity; discriminate. }
  destruct (extract_main_content html) as [main_content|]; [|reflexivity].
  destruct (negb (nonempty main_content)).
  { eexists; split; [reflexivity|]; repeat split; try reflexivity; discriminate. }
  destruct (extract_index_section main_content) as [[[before idx] after]|];
    [|reflexivity].
  destruct (clean_content _) as [content|]; [|reflexivity].
  eexists; split; [reflexivity|]; split; [|split].
  - intros q Hq; cbn [write_text files]; apply lookup_insert_ne; congruence.
  - intros _; cbn [write_text files]; rewrite !lookup_insert_eq; reflexivity.
  - discriminate.
Qed.

Lemma modernizes_frame (originals : gmap path str) (w1 w2 : world) (p : path) :
  modernizes SITE_ROOT originals w1 p = modernizes SITE_ROOT originals w2 p.
Proof.
  unfold modernizes.
  destruct (originals !! p) as [html|]; [|reflexivity].
  pose proof (process_file_frame p html w1 w2) as H.
  destruct (process_file SITE_ROOT p html w1) as [[b w1']|].
  - destruct H as (w2' & -> & _); reflexivity.
  - rewrite H; reflexivity.
Qed.

Lemma filter_modernizes_frame (originals : gmap path str) (w1 w2 : world)
    (paths : list path) :
  List.filter (modernizes SITE_ROOT originals w1) paths
  = List.filter (modernizes SITE_ROOT originals w2) paths.
Proof.
  induction paths as [|p paths IH]; [reflexivity|].
  cbn [List.filter]; rewrite IH, (modernizes_frame originals w1 w2 p); reflexivity.
Qed.

(** The loop, from any value of [modified] and any world. *)
Lemma main_loop_spec (originals : gmap path str) (paths : list path) :
  List.NoDup paths ->
  forall (modified : Z) (w : world),
  match main_loop SITE_ROOT paths originals modified w with
  | None =>
    exists p html,
      In p paths /\ originals !! p = Some html /\
      process_file SITE_ROOT p html w = None
  | Some (modified', w') =>
    modified' = modified
                + Z.of_nat (length (List.filter (modernizes SITE_ROOT originals w) paths)) /\
    (forall p, ~ In p paths -> files w' !! p = files w !! p) /\
    (forall p, originals !! p = None -> files w' !! p = files w !! p) /\
    (forall p html,
       In p paths -> originals !! p = Some html ->
       exists b wp,
         process_file SITE_ROOT p html w = Some (b, wp) /\
         files w' !! p = files wp !! p)
  end.
Proof.
  induction paths as [|p0 paths IH]; intros Hnd modified w.
  { cbn [main_loop List.filter length]; split; [lia|].
    split; [reflexivity|]; split; [reflexivity|].
    intros p html []. }
  apply List.NoDup_cons_iff in Hnd as [Hp0 Hnd].
  specialize (IH Hnd).
  cbn [main_loop].
  destruct (originals !! p0) as [html0|] eqn:E0.
  2:{ specialize (IH modified w).
      destruct (main_loop SITE_ROOT paths originals modified w) as [[m' w']|].
      - destruct IH as (Hm & Hout & Hun & Hin).
        split; [|split; [|split]].
        + cbn [List.filter]; unfold modernizes at 1; rewrite E0; exact Hm.
        + intros p Hp; apply Hout; intros Hc; apply Hp; right; exact Hc.
        + exact Hun.
        + intros p html [<-|Hp] Hh; [congruence|]; exact (Hin p html Hp Hh).
      - destruct IH as (p & html & Hp & Hh & Hn).
        exists p, html; split; [right; exact Hp | split; assumption]. }
  destruct (process_file SITE_ROOT p0 html0 w) as [[b w1]|] eqn:E1;
    cbn [mbind option_bind].
  2:{ exists p0, html0; split; [left; reflexivity | split; assumption]. }
  pose proof (process_file_frame p0 html0 w w) as F0; rewrite E1 in F0.
  destruct F0 as (w0 & Ew0 & Hother & _); clear w0 Ew0.
  set (w2 := if b then print (py "  OK  " ++ rel_str p0) w1 else w1).
  set (m2 := if b then modified + 1 else modified).
  assert (Hloop : (if b
                   then main_loop SITE_ROOT paths originals (modified + 1)
                          (print (py "  OK  " ++ rel_str p0) w1)
                   else main_loop SITE_ROOT paths originals modified w1)
                  = main_loop SITE_ROOT paths originals m2 w2)
    by (destruct b; reflexivity).
  rewrite Hloop; clear Hloop.
  assert (Hw2 : files w2 = files w1) by (destruct b; reflexivity).
  specialize (IH m2 w2).
  destruct (main_loop SITE_ROOT paths originals m2 w2) as [[m' w']|].
  - destruct IH as (Hm & Hout & Hun & Hin).
    split; [|split; [|split]].
    + rewrite Hm, (filter_modernizes_frame originals w2 w).
      cbn [List.filter]; unfold modernizes at 2; rewrite E0, E1.
      subst m2; destruct b; cbn [length]; lia.
    + intros p Hp.
      rewrite Hout by (intros Hc; apply Hp; right; exact Hc).
      rewrite Hw2; apply Hother; intros ->; apply Hp; left; reflexivity.
    + intros p Hp.
      rewrite (Hun p Hp), Hw2; apply Hother; congruence.
    + intros p html [<-|Hp] Hh.
      * assert (html = html0) as -> by congruence.
        exists b, w1; split; [exact E1|].
        rewrite (Hout p0 Hp0), Hw2; reflexivity.
      * assert (Hne : p <> p0) by (intros ->; exact (Hp0 Hp)).
        destruct (Hin p html Hp Hh) as (bp & wq & Eq & Hq).
        pose proof (process_file_frame p html w2 w) as F; rewrite Eq in F.
        destruct F as (wp & Ewp & _ & Htrue & Hfalse).
        exists bp, wp; split; [exact Ewp|].
        rewrite Hq; destruct bp.
        -- symmetry; apply Htrue; reflexivity.
        -- destruct (Hfalse eq_refl) as [-> ->].
           rewrite Hw2; apply Hother; exact Hne.
  - destruct IH as (p & html & Hp & Hh & Hn).
    exists p, html; split; [right; exact Hp | split; [exact Hh|]].
    pose proof (process_file_frame p html w2 w) as F; rewrite Hn in F; exact F.
Qed.

(** X13. The loop of [main] treats every document on its own.  When the
    documents found are distinct, the loop fails to return only if
    [process_file] does on the original text of one of them; and when it
    returns, a document outside the list or without an original text is as
    it was, every other document holds what a single call of
    [process_file] on its original text leaves in it, whatever the order of
    the documents, and [modified] has grown by the number of documents on
    which [process_file] answers [True], which is at most their number. *)
Theorem main_loop_independent (originals : gmap path str) (paths : list path)
    (w : world) :
  List.NoDup paths ->
  match main_loop SITE_ROOT paths originals 0 w with
  | None =>
    exists p html,
      In p paths /\ originals !! p = Some html /\
      process_file SITE_ROOT p html w = None
  | Some (modified, w') =>
    modified = Z.of_nat (length (List.filter (modernizes SITE_ROOT originals w) paths)) /\
    0 <= modified <= Z.of_nat (length paths) /\
    (forall p, ~ In p paths \/ originals !! p = None ->
               files w' !! p = files w !! p) /\
    (forall p html,
       In p paths -> originals !! p = Some html ->
       exists b wp,
         process_file SITE_ROOT p html w = Some (b, wp) /\
         files w' !! p = files wp !! p)
  end.
Proof.
  intros Hnd.
  pose proof (main_loop_spec originals paths Hnd 0 w) as H.
  destruct (main_loop SITE_ROOT paths originals 0 w) as [[modified w']|];
    [|exact H].
  destruct H as (Hm & Hout & Hun & Hin).
  split; [lia|]; split; [|split; [|exact Hin]].
  - pose proof (List.filter_length_le (modernizes SITE_ROOT originals w) paths).
    lia.
  - intros p [Hp|Hp]; [apply Hout | apply Hun]; exact Hp.
Qed.

End MainLoop.

Lemma main_loop_independent_witness :
  exists modified w',
    main_loop (py "/site") [[py "a.html"]; [py "b.html"]] (files legacy_world) 0
      legacy_world = Some (modified, w') /\
    modified = 1 /\
    files w' !! [py "b.html"] = Some (py "other").
Proof.
  assert (Hnd : List.NoDup [[py "a.html"]; [py "b.html"]]).
  { repeat constructor; cbn; intuition discriminate. }
  pose proof (main_loop_independent (py "/site") (files legacy_world)
                [[py "a.html"]; [py "b.html"]] legacy_world Hnd) as H.
  destruct (main_loop _ _ _ _ _) as [[modified w']|] eqn:E.
  - exists modified, w'; split; [reflexivity|].
    destruct H as (Hm & _ & _ & Hin).
    split.
    + rewrite Hm; vm_compute; reflexivity.
    + destruct (Hin [py "b.html"] (py "other")) as (b & wp & Hp & Hf).
      * right; left; reflexivity.
      * vm_compute; reflexivity.
      * etransitivity; [exact Hf|].
        assert (Hb : process_file (py "/site") [py "b.html"] (py "other") legacy_world
                     = Some (false, legacy_world)) by (vm_compute; reflexivity).
        rewrite Hb in Hp; injection Hp as <- <-.
        vm_compute; reflexivity.
  - exfalso.
    destruct H as (p & html & Hp & Hh & Hn).
    destruct Hp as [<-|[<-|[]]].
    + assert (html = legacy_page) as ->
        by (apply (inj Some); rewrite <- Hh; vm_compute; reflexivity).
      vm_compute in Hn; discriminate.
    + assert (html = py "other") as ->
        by (apply (inj Some); rewrite <- Hh; vm_compute; reflexivity).
      vm_compute in Hn; discriminate.
Defined.

(** ** The title of a page that [make_page] made *)

Section TitleRoundTrip.

Lemma lit_ok_lt (c : ascii) :
  c <> "<"%char -> lit_ok DOTALL_IGNORECASE "<" c = false.
Proof.
  intros H; unfold lit_ok; cbn [ignorecase DOTALL_IGNORECASE].
  destruct (Ascii.eqb (lower_char c) (lower_char "<")) eqn:E; [|reflexivity].
  exfalso; apply H; revert E; clear.
  destruct c as [[] [] [] [] [] [] [] []]; vm_compute; intros E;
    first [reflexivity | discriminate E].
Qed.

(** A match of the title pattern begins with [<] and a [t] or [T]. *)
Lemma run_title_none_1 (c : ascii) (rest : str) (p : nat) (prev : option ascii)
    (cs : caps) (k : cont) :
  c <> "<"%char ->
  run DOTALL_IGNORECASE title_re p prev (c :: rest) cs k = None.
Proof.
  intros H.
  unfold title_re, seq, lit.
  cbn [fold_right py list_ascii_of_string run atom_ok].
  rewrite (lit_ok_lt c H); reflexivity.
Qed.

Lemma run_title_none_2 (d : ascii) (rest : str) (p : nat) (prev : option ascii)
    (cs : caps) (k : cont) :
  Ascii.eqb (lower_char d) "t" = false ->
  run DOTALL_IGNORECASE title_re p prev ("<"%char :: d :: rest) cs k = None.
Proof.
  intros H.
  unfold title_re, seq, lit.
  cbn [fold_right py list_ascii_of_string run atom_ok].
  change (lit_ok DOTALL_IGNORECASE "<" "<") with true; cbv iota.
  change (lit_ok DOTALL_IGNORECASE "t" d) with (Ascii.eqb (lower_char d) "t").
  rewrite H; reflexivity.
Qed.

Lemma search_from_skip_title (subj : str) : forall (pre rest : str) (p : nat)
    (prev : option ascii),
  no_title_start pre = true ->
  exists prev',
    search_from DOTALL_IGNORECASE title_re subj p prev (pre ++ rest)
    = search_from DOTALL_IGNORECASE title_re subj (p + length pre) prev' rest.
Proof.
  induction pre as [|c pre IH]; intros rest p prev H.
  - exists prev; cbn [app length]; rewrite Nat.add_0_r; reflexivity.
  - cbn [no_title_start] in H; apply andb_true_iff in H as [Hc Hpre].
    destruct (IH rest (S p) (Some c) Hpre) as [prev' Hs].
    exists prev'.
    cbn [app length search_from].
    replace (p + S (length pre))%nat with (S p + length pre)%nat by lia.
    rewrite <- Hs.
    assert (Hnone : run DOTALL_IGNORECASE title_re p prev (c :: pre ++ rest) []
                      accept = None).
    { destruct (Ascii.eqb_spec c "<") as [->|Hne].
      - cbn [negb orb] in Hc.
        destruct pre as [|d pre']; [discriminate|].
        apply negb_true_iff in Hc.
        cbn [app]; apply run_title_none_2; exact Hc.
      - apply run_title_none_1; exact Hne. }
    rewrite Hnone; reflexivity.
Qed.

Lemma search_from_hit (fl : flags) (r : regex) (subj rest : str) (p e : nat)
    (prev : option ascii) (cs : caps) :
  run fl r p prev rest [] accept = Some (e, cs) ->
  search_from fl r subj p prev rest
  = Some {| m_subj := subj; m_start := p; m_end := e; m_caps := cs |}.
Proof. intros H; destruct rest; cbn [search_from]; rewrite H; reflexivity. Qed.

(** The lazy group runs to the first place at which what follows it
    matches. *)
Lemma rep_lazy_dot_first (k : cont) (r : nat * caps) (y : str) (cs : caps) :
  (forall c rest p prev, c <> "<"%char -> k p prev (c :: rest) cs = None) ->
  forall (x : str) (cnt p : nat) (prev : option ascii),
  Forall (fun c => c <> "<"%char) x ->
  (forall prev', k (p + length x)%nat prev' y cs = Some r) ->
  rep_lazy DOTALL_IGNORECASE ADot 0 None cnt p prev (x ++ y) cs k = Some r.
Proof.
  intros Hfail; induction x as [|c x IH]; intros cnt p prev Hx Hk.
  - cbn [app length] in *; rewrite Nat.add_0_r in Hk.
    destruct y; cbn [rep_lazy Nat.leb]; rewrite Hk; reflexivity.
  - apply Forall_cons in Hx as [Hc Hx].
    cbn [app rep_lazy Nat.leb].
    rewrite (Hfail c (x ++ y) p prev Hc).
    cbn [atom_ok dotall DOTALL_IGNORECASE orb andb under].
    apply IH; [exact Hx|].
    intros prev'; rewrite <- (Hk prev'); f_equal; cbn [length]; lia.
Qed.

Lemma run_title_hit (raw rest : str) (p : nat) (prev : option ascii) :
  Forall (fun c => c <> "<"%char) raw ->
  run DOTALL_IGNORECASE title_re p prev
    (py "<title>" ++ raw ++ py "</title>" ++ rest) [] accept
  = Some ((8 + (7 + p + length raw))%nat,
          [(1%nat, ((7 + p)%nat, (7 + p + length raw)%nat))]).
Proof.
  intros Hraw.
  transitivity
    (rep_lazy DOTALL_IGNORECASE ADot 0 None 0 (7 + p) (Some ">"%char)
       (raw ++ py "</title>" ++ rest) []
       (fun p' prev' rest' cs' =>
          run DOTALL_IGNORECASE (Seq (lit (py "</title>")) Eps) p' prev' rest'
            ((1%nat, ((7 + p)%nat, p')) :: cs') accept)).
  { reflexivity. }
  apply rep_lazy_dot_first.
  - intros c rest' p' prev' Hc.
    unfold lit.
    cbn [fold_right py list_ascii_of_string run atom_ok].
    rewrite (lit_ok_lt c Hc); reflexivity.
  - exact Hraw.
  - intros prev'; reflexivity.
Qed.

Lemma span_mid (a b c : str) :
  span (a ++ b ++ c) (length a) (length a + length b) = b.
Proof.
  unfold span.
  rewrite skipn_app, skipn_all, Nat.sub_diag; cbn [app].
  change (skipn 0 (b ++ c)) with (b ++ c).
  replace (length a + length b - length a)%nat with (length b) by lia.
  rewrite firstn_app, firstn_all, Nat.sub_diag.
  change (firstn 0 c) with (@nil ascii); apply app_nil_r.
Qed.

Lemma rstrip_snoc_keep (s : str) (c : ascii) :
  isspace c = false -> rstrip (s ++ [c]) = s ++ [c].
Proof.
  intros H; unfold rstrip.
  rewrite rev_app_distr; cbn [rev app lstrip]; rewrite H.
  cbn [rev]; rewrite rev_involutive; reflexivity.
Qed.

Lemma rstrip_snoc_space (s : str) (c : ascii) :
  isspace c = true -> rstrip (s ++ [c]) = rstrip s.
Proof.
  intros H; unfold rstrip.
  rewrite rev_app_distr; cbn [rev app lstrip]; rewrite H; reflexivity.
Qed.

Lemma strip_fixed_no_lead (s : str) : strip s = s -> no_lead s.
Proof.
  intros H; rewrite <- H; unfold strip.
  apply rstrip_no_lead, lstrip_no_lead.
Qed.

Lemma split_on_first (sep : ascii) (y : str) : forall (x cur : str),
  ~ In sep x ->
  split_on sep (x ++ sep :: y) cur = (rev cur ++ x) :: split_on sep y [].
Proof.
  induction x as [|c x IH]; intros cur Hno.
  - cbn [app split_on]; rewrite Ascii.eqb_refl, app_nil_r; reflexivity.
  - cbn [app split_on].
    destruct (Ascii.eqb_spec c sep) as [->|Hne]; [exfalso; apply Hno; left; reflexivity|].
    rewrite IH by (intros Hin; apply Hno; right; exact Hin).
    cbn [rev]; rewrite <- app_assoc; reflexivity.
Qed.

(** What [extract_title] makes of the text between the title tags of a
    page. *)
Lemma title_of_raw (title : str) :
  ~ In "|"%char title -> strip title = title ->
  match map strip (split (strip (title ++ py " | Mighty Cheese")) "|") with
  | p0 :: _ => p0
  | [] => py "Mighty Cheese"
  end = title.
Proof.
  intros Hbar Hstrip.
  destruct title as [|c0 t]; [vm_compute; reflexivity|].
  pose proof (strip_fixed_no_lead _ Hstrip) as Hlead; cbn [no_lead] in Hlead.
  assert (Hr : rstrip (c0 :: t) = c0 :: t).
  { unfold strip in Hstrip; cbn [lstrip] in Hstrip; rewrite Hlead in Hstrip.
    exact Hstrip. }
  assert (Hraw : strip ((c0 :: t) ++ py " | Mighty Cheese")
                 = ((c0 :: t) ++ [" "%char]) ++ "|"%char :: py " Mighty Cheese").
  { unfold strip; cbn [app lstrip]; rewrite Hlead.
    replace (c0 :: t ++ py " | Mighty Cheese")
      with (((c0 :: t) ++ py " | Mighty Chees") ++ ["e"%char])
      by (rewrite <- app_assoc; reflexivity).
    rewrite rstrip_snoc_keep by reflexivity.
    rewrite <- !app_assoc; reflexivity. }
  rewrite Hraw; unfold split.
  rewrite split_on_first.
  2:{ intros Hin; apply in_app_or in Hin as [Hin|[Hin|[]]];
        [exact (Hbar Hin) | discriminate Hin]. }
  cbn [rev app map].
  unfold strip; cbn [app lstrip]; rewrite Hlead.
  change (c0 :: t ++ [" "%char]) with ((c0 :: t) ++ [" "%char]).
  rewrite rstrip_snoc_space by reflexivity.
  exact Hr.
Qed.

Lemma make_page_title_split (title nav_html content root_prefix : str) :
  exists rest,
    make_page title nav_html content root_prefix
    = title_lead ++ py "<title>" ++ (title ++ py " | Mighty Cheese")
      ++ py "</title>" ++ rest.
Proof.
  eexists; unfold make_page, title_lead.
  rewrite <- !app_assoc.
  reflexivity.
Qed.

(** X14. A page keeps its title: [extract_title] of the page that
    [make_page] makes for a title is that title, whenever the title holds
    neither [<] nor a bar and has no white space at either end, whatever
    the navigation, the content and the root prefix are. *)
Theorem extract_title_make_page (title nav_html content root_prefix : str) :
  ~ In "<"%char title -> ~ In "|"%char title -> strip title = title ->
  extract_title (make_page title nav_html content root_prefix) = title.
Proof.
  intros Hlt Hbar Hstrip.
  destruct (make_page_title_split title nav_html content root_prefix)
    as [rest ->].
  set (raw := title ++ py " | Mighty Cheese").
  set (page := title_lead ++ py "<title>" ++ raw ++ py "</title>" ++ rest).
  assert (Hraw : Forall (fun c => c <> "<"%char) raw).
  { apply Forall_app; split.
    - apply Forall_forall; intros c Hc ->; apply Hlt.
      apply list_elem_of_In; exact Hc.
    - repeat (constructor; [discriminate|]); constructor. }
  assert (Hs : search title_re page DOTALL_IGNORECASE
               = Some {| m_subj := page;
                         m_start := 0 + length title_lead;
                         m_end := 8 + (7 + (0 + length title_lead) + length raw);
                         m_caps := [(1%nat, ((7 + (0 + length title_lead))%nat,
                                             (7 + (0 + length title_lead)
                                              + length raw)%nat))] |}).
  { unfold search, search_at; cbn [prev_at].
    change (skipn 0 page) with page.
    unfold page at 2.
    destruct (search_from_skip_title page title_lead
                (py "<title>" ++ raw ++ py "</title>" ++ rest) 0 None)
      as [prev' ->]; [vm_compute; reflexivity|].
    apply search_from_hit, run_title_hit, Hraw. }
  unfold extract_title; rewrite Hs.
  assert (Hg : group {| m_subj := page;
                        m_start := 0 + length title_lead;
                        m_end := 8 + (7 + (0 + length title_lead) + length raw);
                        m_caps := [(1%nat, ((7 + (0 + length title_lead))%nat,
                                            (7 + (0 + length title_lead)
                                             + length raw)%nat))] |} 1 = raw).
  { cbn [group lookup_group m_caps m_subj Nat.eqb].
    unfold page; rewrite (app_assoc title_lead).
    replace (7 + (0 + length title_lead))%nat
      with (length (title_lead ++ py "<title>"))
      by (rewrite length_app; cbn [length py list_ascii_of_string]; lia).
    apply span_mid. }
  rewrite Hg.
  apply title_of_raw; assumption.
Qed.

Lemma extract_title_make_page_witness :
  extract_title (make_page (py "Damage") (build_nav (py "../") (py "headaches/"))
                   (py "<p>Hello</p>") (py "../")) = py "Damage".
Proof.
  apply extract_title_make_page.
  - cbn; intuition discriminate.
  - cbn; intuition discriminate.
  - vm_compute; reflexivity.
Defined.

End TitleRoundTrip.

(** ** What a match takes, and what its groups hold *)

Section MatchFacts.

Variable fl : flags.

Lemma rep_greedy_sound (a : atom) (mn : nat) (mx : option nat) (k : cont)
    (cs : caps) (res : nat * caps) :
  forall (rest : str) (cnt p : nat) (prev : option ascii),
  rep_greedy fl a mn mx cnt p prev rest cs k = Some res ->
  exists p' prev',
    k p' prev' (skipn (p' - p) rest) cs = Some res /\
    (p <= p')%nat /\ (p' - p <= length rest)%nat /\
    (mn <= cnt + (p' - p))%nat /\
    Forall (fun c => atom_ok fl a c = true) (firstn (p' - p) rest).
Proof.
  induction rest as [|c rest IH]; intros cnt p prev H; cbn [rep_greedy] in H.
  - destruct (Nat.leb_spec mn cnt) as [Hmn|]; [|discriminate].
    exists p, prev; rewrite Nat.sub_diag; cbn [skipn firstn length].
    repeat split; try lia; [exact H | constructor].
  - assert (Hstop : (if (mn <=? cnt)%nat then k p prev (c :: rest) cs else None)
                    = Some res ->
                    exists p' prev',
                      k p' prev' (skipn (p' - p) (c :: rest)) cs = Some res /\
                      (p <= p')%nat /\ (p' - p <= length (c :: rest))%nat /\
                      (mn <= cnt + (p' - p))%nat /\
                      Forall (fun c => atom_ok fl a c = true)
                             (firstn (p' - p) (c :: rest))).
    { intros Hs; destruct (Nat.leb_spec mn cnt) as [Hmn|]; [|discriminate].
      exists p, prev; rewrite Nat.sub_diag; cbn [skipn firstn length].
      repeat split; try lia; [exact Hs | constructor]. }
    destruct (atom_ok fl a c && under mx cnt) eqn:Eok; [|exact (Hstop H)].
    destruct (rep_greedy fl a mn mx (S cnt) (S p) (Some c) rest cs k) as [r|] eqn:E;
      [|exact (Hstop H)].
    injection H as <-.
    apply andb_true_iff in Eok as [Eok _].
    destruct (IH _ _ _ E) as (p' & prev' & Hk & Hle & Hlen & Hmn & Hall).
    exists p', prev'.
    replace (p' - p)%nat with (S (p' - S p)) by lia.
    cbn [skipn firstn length].
    repeat split; try lia; [exact Hk | constructor; assumption].
Qed.

Lemma rep_lazy_sound (a : atom) (mn : nat) (mx : option nat) (k : cont)
    (cs : caps) (res : nat * caps) :
  forall (rest : str) (cnt p : nat) (prev : option ascii),
  rep_lazy fl a mn mx cnt p prev rest cs k = Some res ->
  exists p' prev',
    k p' prev' (skipn (p' - p) rest) cs = Some res /\
    (p <= p')%nat /\ (p' - p <= length rest)%nat /\
    (mn <= cnt + (p' - p))%nat /\
    Forall (fun c => atom_ok fl a c = true) (firstn (p' - p) rest).
Proof.
  induction rest as [|c rest IH]; intros cnt p prev H; cbn [rep_lazy] in H.
  - destruct (Nat.leb_spec mn cnt) as [Hmn|]; [|discriminate].
    destruct (k p prev [] cs) as [r|] eqn:E; [|discriminate].
    injection H as <-.
    exists p, prev; rewrite Nat.sub_diag; cbn [skipn firstn length].
    repeat split; try lia; [exact E | constructor].
  - assert (Hmore : (if atom_ok fl a c && under mx cnt
                     then rep_lazy fl a mn mx (S cnt) (S p) (Some c) rest cs k
                     else None) = Some res ->
                    exists p' prev',
                      k p' prev' (skipn (p' - p) (c :: rest)) cs = Some res /\
                      (p <= p')%nat /\ (p' - p <= length (c :: rest))%nat /\
                      (mn <= cnt + (p' - p))%nat /\
                      Forall (fun c => atom_ok fl a c = true)
                             (firstn (p' - p) (c :: rest))).
    { intros Hs; destruct (atom_ok fl a c && under mx cnt) eqn:Eok; [|discriminate].
      apply andb_true_iff in Eok as [Eok _].
      destruct (IH _ _ _ Hs) as (p' & prev' & Hk & Hle & Hlen & Hmn & Hall).
      exists p', prev'.
      replace (p' - p)%nat with (S (p' - S p)) by lia.
      cbn [skipn firstn length].
      repeat split; try lia; [exact Hk | constructor; assumption]. }
    destruct (Nat.leb_spec mn cnt) as [Hmn|]; [|exact (Hmore H)].
    destruct (k p prev (c :: rest) cs) as [r|] eqn:E; [|exact (Hmore H)].
    injection H as <-.
    exists p, prev; rewrite Nat.sub_diag; cbn [skipn firstn length].
    repeat split; try lia; [exact E | constructor].
Qed.

(** A pattern without groups binds none. *)
Lemma run_groupless (r : regex) :
  groupless r = true ->
  forall (p : nat) (prev : option ascii) (rest : str) (cs : caps) (k : cont)
         (res : nat * caps),
  run fl r p prev rest cs k = Some res ->
  exists p' prev' rest', k p' prev' rest' cs = Some res.
Proof.
  induction r as [|a|a mn mx g|r1 IH1 r2 IH2|r1 IH1 r2 IH2|n r1 IH1| | | |r1 IH1];
    cbn [groupless]; intros Hg p prev rest cs k res H; cbn [run] in H.
  - eauto.
  - destruct rest as [|c rest]; [discriminate|].
    destruct (atom_ok fl a c); [eauto | discriminate].
  - destruct g.
    + destruct (rep_greedy_sound _ _ _ _ _ _ _ _ _ _ H) as (p' & prev' & Hk & _).
      eauto.
    + destruct (rep_lazy_sound _ _ _ _ _ _ _ _ _ _ H) as (p' & prev' & Hk & _).
      eauto.
  - apply andb_true_iff in Hg as [Hg1 Hg2].
    destruct (IH1 Hg1 _ _ _ _ _ _ H) as (p1 & prev1 & rest1 & H1).
    exact (IH2 Hg2 _ _ _ _ _ _ H1).
  - apply andb_true_iff in Hg as [Hg1 Hg2].
    destruct (run fl r1 p prev rest cs k) as [x|] eqn:E.
    + injection H as <-; exact (IH1 Hg1 _ _ _ _ _ _ E).
    + exact (IH2 Hg2 _ _ _ _ _ _ H).
  - discriminate.
  - destruct (p =? 0)%nat; [eauto | discriminate].
  - destruct rest as [|c [|d rest]]; try discriminate; [eauto|].
    destruct (Ascii.eqb c "010"); [eauto | discriminate].
  - destruct (xorb _ _); [eauto | discriminate].
  - destruct (run fl r1 p prev rest cs _) as [[e cs']|] eqn:E; [|discriminate].
    destruct (IH1 Hg _ _ _ _ _ _ E) as (p1 & prev1 & rest1 & H1).
    injection H1 as _ <-; eauto.
Qed.

Lemma gsum_app (a b : caps) : gsum (a ++ b) = (gsum a + gsum b)%nat.
Proof.
  induction a as [|[n [x y]] a IH]; [reflexivity|].
  cbn [app gsum]; rewrite IH; lia.
Qed.

(** A group that is right for a part of a sequence or of an alternative is
    right for the whole. *)
Lemma cap_ok_weaken (r r' : regex) (p q : nat) (rest : str) (p1 p' : nat)
    (c : nat * (nat * nat)) :
  (forall x, In x (group_atoms r) -> In x (group_atoms r')) ->
  (q <= p)%nat -> (p - q <= length rest)%nat -> (p1 <= p')%nat ->
  cap_ok fl r p (skipn (p - q) rest) p1 c ->
  cap_ok fl r' q rest p' c.
Proof.
  intros Hin Hq Hlen Hp; destruct c as [n [a b]]; unfold cap_ok.
  intros (Ha & Hab & Hb & at_ & mn & Hat & Hmn & Hall).
  repeat split; try lia.
  exists at_, mn; repeat split; [apply Hin, Hat | exact Hmn|].
  rewrite skipn_skipn_add in Hall.
  replace (a - q)%nat with (p - q + (a - p))%nat by lia; exact Hall.
Qed.

(** What a match of a flat pattern takes and binds. *)
Lemma run_sound (r : regex) :
  flat r = true ->
  forall (p : nat) (prev : option ascii) (rest : str) (cs : caps) (k : cont)
         (res : nat * caps),
  run fl r p prev rest cs k = Some res ->
  exists p' prev' new,
    k p' prev' (skipn (p' - p) rest) (new ++ cs) = Some res /\
    (p + width_out r + gsum new <= p')%nat /\ (p' - p <= length rest)%nat /\
    Forall (cap_ok fl r p rest p') new.
Proof.
  induction r as [|a|a mn mx g|r1 IH1 r2 IH2|r1 IH1 r2 IH2|n r1 IH1| | | |r1 IH1];
    cbn [flat]; intros Hf p prev rest cs k res H; cbn [run] in H.
  - exists p, prev, []; rewrite Nat.sub_diag; cbn [width_out gsum app skipn].
    repeat split; try lia; [exact H | constructor].
  - destruct rest as [|c rest]; [discriminate|].
    destruct (atom_ok fl a c); [|discriminate].
    exists (S p), (Some c), [].
    replace (S p - p)%nat with 1%nat by lia.
    cbn [width_out gsum app skipn length].
    repeat split; try lia; [exact H | constructor].
  - assert (Hs : exists p' prev',
               k p' prev' (skipn (p' - p) rest) cs = Some res /\
               (p <= p')%nat /\ (p' - p <= length rest)%nat /\
               (mn <= 0 + (p' - p))%nat /\
               Forall (fun c => atom_ok fl a c = true) (firstn (p' - p) rest)).
    { destruct g; [eapply rep_greedy_sound | eapply rep_lazy_sound]; exact H. }
    destruct Hs as (p' & prev' & Hk & Hle & Hlen & Hmn & _).
    exists p', prev', []; cbn [width_out gsum app].
    repeat split; try lia; [exact Hk | constructor].
  - apply andb_true_iff in Hf as [Hf1 Hf2].
    destruct (IH1 Hf1 _ _ _ _ _ _ H) as (p1 & prev1 & new1 & H1 & Hw1 & Hlen1 & Hc1).
    destruct (IH2 Hf2 _ _ _ _ _ _ H1) as (p2 & prev2 & new2 & H2 & Hw2 & Hlen2 & Hc2).
    rewrite length_skipn in Hlen2.
    exists p2, prev2, (new2 ++ new1).
    rewrite skipn_skipn_add in H2.
    replace (p1 - p + (p2 - p1))%nat with (p2 - p)%nat in H2 by lia.
    rewrite <- app_assoc, gsum_app; cbn [width_out].
    repeat split; try lia; [exact H2|].
    apply Forall_app; split.
    + eapply List.Forall_impl; [|exact Hc2].
      intros c Hc.
      apply (cap_ok_weaken r2 (Seq r1 r2) p1 p rest p2 p2 c); try lia; [|exact Hc].
      intros x Hx; cbn [group_atoms]; apply in_or_app; right; exact Hx.
    + eapply List.Forall_impl; [|exact Hc1].
      intros c Hc.
      apply (cap_ok_weaken r1 (Seq r1 r2) p p rest p1 p2 c); try lia.
      * intros x Hx; cbn [group_atoms]; apply in_or_app; left; exact Hx.
      * rewrite Nat.sub_diag; exact Hc.
  - apply andb_true_iff in Hf as [Hf1 Hf2].
    destruct (run fl r1 p prev rest cs k) as [x|] eqn:E.
    + injection H as <-.
      destruct (IH1 Hf1 _ _ _ _ _ _ E) as (p1 & prev1 & new1 & H1 & Hw1 & Hlen1 & Hc1).
      exists p1, prev1, new1; cbn [width_out].
      repeat split; try lia; [exact H1|].
      eapply List.Forall_impl; [|exact Hc1].
      intros c Hc.
      apply (cap_ok_weaken r1 (Alt r1 r2) p p rest p1 p1 c); try lia.
      * intros y Hy; cbn [group_atoms]; apply in_or_app; left; exact Hy.
      * rewrite Nat.sub_diag; exact Hc.
    + destruct (IH2 Hf2 _ _ _ _ _ _ H) as (p1 & prev1 & new1 & H1 & Hw1 & Hlen1 & Hc1).
      exists p1, prev1, new1; cbn [width_out].
      repeat split; try lia; [exact H1|].
      eapply List.Forall_impl; [|exact Hc1].
      intros c Hc.
      apply (cap_ok_weaken r2 (Alt r1 r2) p p rest p1 p1 c); try lia.
      * intros y Hy; cbn [group_atoms]; apply in_or_app; right; exact Hy.
      * rewrite Nat.sub_diag; exact Hc.
  - destruct r1 as [|a|a mn mx g|r1 r2|r1 r2|n1 r1| | | |r1]; try discriminate.
    cbn [run] in H.
    assert (Hs : exists p' prev',
               k p' prev' (skipn (p' - p) rest) ((n, (p, p')) :: cs) = Some res /\
               (p <= p')%nat /\ (p' - p <= length rest)%nat /\
               (mn <= 0 + (p' - p))%nat /\
               Forall (fun c => atom_ok fl a c = true) (firstn (p' - p) rest)).
    { destruct g.
      - exact (rep_greedy_sound _ _ _ _ _ _ _ _ _ _ H).
      - exact (rep_lazy_sound _ _ _ _ _ _ _ _ _ _ H). }
    destruct Hs as (p' & prev' & Hk & Hle & Hlen & Hmn & Hall).
    exists p', prev', [(n, (p, p'))]; cbn [width_out gsum app].
    repeat split; try lia; [exact Hk|].
    constructor; [|constructor].
    unfold cap_ok; repeat split; try lia.
    exists a, mn; cbn [group_atoms]; repeat split; [left; reflexivity | lia|].
    rewrite Nat.sub_diag; exact Hall.
  - destruct (p =? 0)%nat; [|discriminate].
    exists p, prev, []; rewrite Nat.sub_diag; cbn [width_out gsum app skipn].
    repeat split; try lia; [exact H | constructor].
  - exists p, prev, []; rewrite Nat.sub_diag; cbn [width_out gsum app skipn].
    repeat split; try lia; [|constructor].
    destruct rest as [|c [|d rest]]; try discriminate; [exact H|].
    destruct (Ascii.eqb c "010"); [exact H | discriminate].
  - destruct (xorb _ _); [|discriminate].
    exists p, prev, []; rewrite Nat.sub_diag; cbn [width_out gsum app skipn].
    repeat split; try lia; [exact H | constructor].
  - destruct (run fl r1 p prev rest cs _) as [[e cs']|] eqn:E; [|discriminate].
    destruct (run_groupless r1 Hf _ _ _ _ _ _ E) as (p1 & prev1 & rest1 & H1).
    injection H1 as _ <-.
    exists p, prev, []; rewrite Nat.sub_diag; cbn [width_out gsum app skipn].
    repeat split; try lia; [exact H | constructor].
Qed.

(** Every match [search_from] finds is a match. *)
Lemma search_from_is_match (r : regex) (subj : str) :
  forall (rest : str) (p : nat) (prev : option ascii) (m : rmatch),
  rest = skipn p subj -> (p <= length subj)%nat ->
  search_from fl r subj p prev rest = Some m ->
  is_match fl r subj m.
Proof.
  induction rest as [|c rest IH]; intros p prev m Hrest Hp H; cbn [search_from] in H.
  - destruct (run fl r p prev [] [] accept) as [[e cs]|] eqn:E; [|discriminate].
    injection H as <-; unfold is_match; cbn [m_subj m_start m_end m_caps].
    split; [reflexivity|]; split; [exact Hp|].
    exists prev; rewrite <- Hrest; exact E.
  - destruct (run fl r p prev (c :: rest) [] accept) as [[e cs]|] eqn:E.
    + injection H as <-; unfold is_match; cbn [m_subj m_start m_end m_caps].
      split; [reflexivity|]; split; [exact Hp|].
      exists prev; rewrite <- Hrest; exact E.
    + assert (Hlen : (p < length subj)%nat).
      { apply (f_equal (@length ascii)) in Hrest.
        rewrite length_skipn in Hrest; cbn [length] in Hrest; lia. }
      apply (IH (S p) (Some c) m); [|lia|exact H].
      replace (S p) with (p + 1)%nat by lia.
      rewrite <- skipn_skipn_add, <- Hrest; reflexivity.
Qed.

Lemma matches_from_is_match (r : regex) (s : str) :
  forall (fuel p : nat), Forall (is_match fl r s) (matches_from fuel fl r s p).
Proof.
  induction fuel as [|fuel IH]; intros p; [constructor|].
  cbn [matches_from].
  destruct (Nat.ltb_spec (length s) p) as [|Hp]; [constructor|].
  destruct (search_at fl r s p) as [m|] eqn:E; [|constructor].
  constructor; [|apply IH].
  unfold search_at in E.
  exact (search_from_is_match r s _ p _ m eq_refl Hp E).
Qed.

(** A match of a flat pattern: its length and its groups. *)
Lemma is_match_sound (r : regex) (s : str) (m : rmatch) :
  flat r = true -> is_match fl r s m ->
  (m_start m + width_out r + gsum (m_caps m) <= m_end m)%nat /\
  (m_end m <= length s)%nat /\
  Forall (cap_ok fl r (m_start m) (skipn (m_start m) s) (m_end m)) (m_caps m).
Proof.
  intros Hf (Hsubj & Hstart & prev & Hrun).
  destruct (run_sound r Hf _ _ _ _ _ _ Hrun) as (p' & prev' & new & Hk & Hw & Hlen & Hc).
  unfold accept in Hk; injection Hk as <- <-.
  rewrite app_nil_r in *.
  rewrite length_skipn in Hlen.
  repeat split; try lia; exact Hc.
Qed.

Lemma lookup_group_In (n : nat) (cs : caps) (se : nat * nat) :
  lookup_group n cs = Some se -> In (n, se) cs.
Proof.
  induction cs as [|[g se'] cs IH]; [discriminate|].
  cbn [lookup_group].
  destruct (Nat.eqb_spec g n) as [->|_].
  - intros H; injection H as ->; left; reflexivity.
  - intros H; right; exact (IH H).
Qed.

Lemma gsum_In (n a b : nat) (cs : caps) :
  In (n, (a, b)) cs -> (b - a <= gsum cs)%nat.
Proof.
  induction cs as [|[g [x y]] cs IH]; [intros []|].
  intros [H|H]; cbn [gsum].
  - injection H as _ -> ->; lia.
  - specialize (IH H); lia.
Qed.

Lemma length_span_le (s : str) (a b : nat) : (length (span s a b) <= b - a)%nat.
Proof. unfold span; rewrite length_firstn; lia. Qed.

(** A group is never longer than what the match takes besides the
    characters outside its groups. *)
Lemma group_width (r : regex) (s : str) (m : rmatch) (n : nat) :
  flat r = true -> is_match fl r s m ->
  (length (group m (S n)) + width_out r <= m_end m - m_start m)%nat.
Proof.
  intros Hf Hm.
  destruct (is_match_sound r s m Hf Hm) as (Hw & _ & _).
  unfold group.
  destruct (lookup_group (S n) (m_caps m)) as [[a b]|] eqn:E.
  - apply lookup_group_In, gsum_In in E.
    pose proof (length_span_le (m_subj m) a b); lia.
  - cbn [length]; lia.
Qed.

Lemma length_span (s : str) (a b : nat) :
  (b <= length s)%nat -> length (span s a b) = (b - a)%nat.
Proof. intros H; unfold span; rewrite length_firstn, length_skipn; lia. Qed.

Lemma replace_matches_length (repl : rmatch -> str) (s : str) (ms : list rmatch) :
  forall p,
  (p <= length s)%nat -> matches_in s p ms ->
  Forall (fun m => (length (repl m) <= m_end m - m_start m)%nat) ms ->
  (length (replace_matches repl s p ms) + p <= length s)%nat.
Proof.
  induction ms as [|m ms IH]; intros p Hp Hin Hall; cbn [replace_matches].
  - rewrite length_skipn; lia.
  - destruct Hin as (Hb & He & Hrest).
    apply Forall_cons in Hall as [Hm Hall].
    specialize (IH (m_end m) He Hrest Hall).
    rewrite !length_app, length_span by lia.
    lia.
Qed.

(** A substitution whose replacements are never longer than the matches
    they replace never lengthens the text. *)
Lemma sub_shrinks (r : regex) (repl : rmatch -> str) (s : str) :
  (forall m, is_match fl r s m ->
             (length (repl m) <= m_end m - m_start m)%nat) ->
  (length (sub r repl s fl) <= length s)%nat.
Proof.
  intros H; unfold sub, finditer.
  pose proof (replace_matches_length repl s
                (matches_from (S (length s)) fl r s 0) 0 ltac:(lia)
                (matches_from_in fl r s _ 0)) as Hl.
  rewrite Nat.add_0_r in Hl; apply Hl.
  eapply List.Forall_impl; [|apply matches_from_is_match].
  exact H.
Qed.

End MatchFacts.

(** ** Cleaning never lengthens the content *)

Section ShrinkFacts.

(** A substitution never lengthens the text when no replacement is longer
    than the first group and the least the pattern takes outside its
    groups. *)
Lemma sub_bounded (fl : flags) (r : regex) (repl : rmatch -> str) (s : str) :
  flat r = true ->
  (forall m, (length (repl m) <= width_out r + length (group m 1))%nat) ->
  (length (sub r repl s fl) <= length s)%nat.
Proof.
  intros Hf H; apply sub_shrinks; intros m Hm.
  pose proof (group_width fl r s m 0 Hf Hm).
  specialize (H m); lia.
Qed.

Lemma length_remove (m : rmatch) : length (remove m) = 0%nat.
Proof. reflexivity. Qed.

Lemma length_group1 (m : rmatch) : length (group1 m) = length (group m 1).
Proof. reflexivity. Qed.

Lemma length_plain_br (m : rmatch) : length (plain_br m) = 6%nat.
Proof. reflexivity. Qed.

Lemma length_timestamp_p (m : rmatch) :
  length (timestamp_p m) = (25 + length (group m 1))%nat.
Proof.
  unfold timestamp_p; rewrite !length_app.
  change (length (qq "<p class='timestamp'>")) with 21%nat.
  change (length (py "</p>")) with 4%nat; lia.
Qed.

Lemma length_callout_content (m : rmatch) :
  (length (callout_content m) <= 35 + length (group m 1))%nat.
Proof.
  unfold callout_content.
  destruct (nonempty (strip (group m 1))); [|cbn [length]; lia].
  rewrite !length_app.
  change (length (qq "<div class='callout-content'>")) with 29%nat.
  change (length (py "</div>")) with 6%nat; lia.
Qed.

Ltac eval_width :=
  match goal with
  | |- context [width_out ?r] =>
    let w := eval vm_compute in (width_out r) in
    change (width_out r) with w
  end.

Ltac shrink_step :=
  eapply Nat.le_trans;
  [ apply sub_bounded;
    [ vm_compute; reflexivity
    | intros m;
      first [ rewrite length_remove | rewrite length_group1
            | rewrite length_plain_br | rewrite length_timestamp_p
            | pose proof (length_callout_content m) ];
      eval_width; lia ]
  | ].

Lemma clean_rules_shrinks (content : str) :
  (length (clean_rules content) <= length content)%nat.
Proof.
  unfold clean_rules; cbv zeta.
  do 28 shrink_step.
  apply Nat.le_refl.
Qed.

Lemma balance_divs_length (html out : str) :
  balance_divs html = Some out -> (length out <= length html)%nat.
Proof.
  intros H.
  destruct (balance_divs_inv html out H) as (ps & Hs & ->).
  rewrite <- (Scan_text html ps Hs) at 1.
  apply sublist_length, Removes_sublist.
  apply Removes_keep_pieces, (Scan_close_pieces html), Hs.
Qed.

Lemma clean_content_unfold (content : str) :
  clean_content content
  = match balance_divs (clean_rules content) with
    | Some balanced =>
      Some (strip (sub trailing_space_re (fun _ => nl)
                     (sub blank_lines_re (fun _ => nl ++ nl) balanced NOFLAGS)
                     NOFLAGS))
    | None => None
    end.
Proof. unfold clean_content; destruct (balance_divs _); reflexivity. Qed.

(** X15. Cleaning never lengthens the content: whenever [clean_content]
    returns, its answer is at most as long as its argument.  Every
    substitution of [clean_content] replaces a match by a text that is not
    longer, [balance_divs] only deletes, and so does [strip]. *)
Theorem clean_content_shrinks (content out : str) :
  clean_content content = Some out -> len out <= len content.
Proof.
  rewrite clean_content_unfold.
  pose proof (clean_rules_shrinks content) as Hrules.
  destruct (balance_divs (clean_rules content)) as [balanced|] eqn:Eb;
    [|discriminate].
  apply balance_divs_length in Eb.
  intros H; apply (inj Some) in H; rewrite <- H; clear H.
  pose proof (sublist_length _ _
                (strip_sublist
                   (sub trailing_space_re (fun _ => nl)
                      (sub blank_lines_re (fun _ => nl ++ nl) balanced NOFLAGS)
                      NOFLAGS))) as Hstrip.
  assert (H1 : (length (sub blank_lines_re (fun _ => nl ++ nl) balanced NOFLAGS)
                <= length balanced)%nat).
  { apply sub_bounded; [reflexivity|].
    intros m; cbn [length app nl]; eval_width; lia. }
  assert (H2 : (length (sub trailing_space_re (fun _ => nl)
                          (sub blank_lines_re (fun _ => nl ++ nl) balanced NOFLAGS)
                          NOFLAGS)
                <= length (sub blank_lines_re (fun _ => nl ++ nl) balanced NOFLAGS))%nat).
  { apply sub_bounded; [reflexivity|].
    intros m; cbn [length nl]; eval_width; lia. }
  unfold len; lia.
Qed.

Lemma clean_content_shrinks_witness :
  exists out, clean_content legacy_article = Some out /\
              len out <= len legacy_article.
Proof.
  destruct (clean_content legacy_article) as [out|] eqn:E.
  - exists out; split; [reflexivity|].
    apply clean_content_shrinks; exact E.
  - vm_compute in E; discriminate E.
Defined.

End ShrinkFacts.

(** ** The attribute values of the gallery and of the index list *)

Section GroupFacts.

Variable fl : flags.

(** A match binds the groups that lie on no alternative. *)
Lemma run_binds (r : regex) :
  forall (p : nat) (prev : option ascii) (rest : str) (cs : caps) (k : cont)
         (res : nat * caps),
  run fl r p prev rest cs k = Some res ->
  exists p' prev' rest' new,
    k p' prev' rest' (new ++ cs) = Some res /\
    forall n, In n (bound_groups r) -> In n (map fst new).
Proof.
  induction r as [|a|a mn mx g|r1 IH1 r2 IH2|r1 IH1 r2 IH2|n r1 IH1| | | |r1 IH1];
    intros p prev rest cs k res H; cbn [run] in H; cbn [bound_groups].
  - exists p, prev, rest, []; split; [exact H | intros n []].
  - destruct rest as [|c rest]; [discriminate|].
    destruct (atom_ok fl a c); [|discriminate].
    exists (S p), (Some c), rest, []; split; [exact H | intros n []].
  - destruct g.
    + destruct (rep_greedy_sound fl _ _ _ _ _ _ _ _ _ _ H) as (p' & prev' & Hk & _).
      exists p', prev', (skipn (p' - p) rest), []; split; [exact Hk | intros n []].
    + destruct (rep_lazy_sound fl _ _ _ _ _ _ _ _ _ _ H) as (p' & prev' & Hk & _).
      exists p', prev', (skipn (p' - p) rest), []; split; [exact Hk | intros n []].
  - destruct (IH1 _ _ _ _ _ _ H) as (p1 & prev1 & rest1 & new1 & H1 & Hb1).
    destruct (IH2 _ _ _ _ _ _ H1) as (p2 & prev2 & rest2 & new2 & H2 & Hb2).
    exists p2, prev2, rest2, (new2 ++ new1).
    rewrite <- app_assoc; split; [exact H2|].
    intros n Hn; rewrite map_app; apply in_or_app.
    apply in_app_or in Hn as [Hn|Hn]; [right; exact (Hb1 n Hn) | left; exact (Hb2 n Hn)].
  - destruct (run fl r1 p prev rest cs k) as [x|] eqn:E.
    + injection H as <-.
      destruct (IH1 _ _ _ _ _ _ E) as (p1 & prev1 & rest1 & new1 & H1 & _).
      exists p1, prev1, rest1, new1; split; [exact H1 | intros n []].
    + destruct (IH2 _ _ _ _ _ _ H) as (p1 & prev1 & rest1 & new1 & H1 & _).
      exists p1, prev1, rest1, new1; split; [exact H1 | intros n []].
  - destruct (IH1 _ _ _ _ _ _ H) as (p1 & prev1 & rest1 & new1 & H1 & Hb1).
    exists p1, prev1, rest1, ((n, (p, p1)) :: new1); split; [exact H1|].
    intros g [<-|Hg]; [left; reflexivity | right; exact (Hb1 g Hg)].
  - destruct (p =? 0)%nat; [|discriminate].
    exists p, prev, rest, []; split; [exact H | intros n []].
  - exists p, prev, rest, []; split; [|intros n []].
    destruct rest as [|c [|d rest]]; try discriminate; [exact H|].
    destruct (Ascii.eqb c "010"); [exact H | discriminate].
  - destruct (xorb _ _); [|discriminate].
    exists p, prev, rest, []; split; [exact H | intros n []].
  - destruct (run fl r1 p prev rest cs _) as [[e cs']|] eqn:E; [|discriminate].
    destruct (IH1 _ _ _ _ _ _ E) as (p1 & prev1 & rest1 & new1 & H1 & _).
    injection H1 as _ <-.
    exists p, prev, rest, new1; split; [exact H | intros n []].
Qed.

Lemma lookup_group_bound (n : nat) (cs : caps) :
  In n (map fst cs) -> exists se, lookup_group n cs = Some se.
Proof.
  induction cs as [|[g se] cs IH]; [intros []|].
  cbn [map fst lookup_group].
  destruct (Nat.eqb_spec g n) as [->|Hne]; [eauto|].
  intros [H|H]; [congruence | exact (IH H)].
Qed.

(** A group of a flat pattern that lies on no alternative is made of
    characters of its class, as many as the pattern asks for. *)
Lemma group_sound (r : regex) (s : str) (m : rmatch) (n : nat) :
  flat r = true -> is_match fl r s m -> In (S n) (bound_groups r) ->
  exists (at_ : atom) (mn : nat),
    In (S n, (at_, mn)) (group_atoms r) /\
    (mn <= length (group m (S n)))%nat /\
    Forall (fun c => atom_ok fl at_ c = true) (group m (S n)).
Proof.
  intros Hf Hm Hn.
  destruct (is_match_sound fl r s m Hf Hm) as (Hw & Hend & Hcaps).
  destruct Hm as (Hsubj & Hstart & prev & Hrun).
  destruct (run_binds r _ _ _ _ _ _ Hrun) as (p' & prev' & rest' & new & Hk & Hb).
  unfold accept in Hk; injection Hk as _ Hnew; rewrite app_nil_r in Hnew.
  rewrite Hnew in Hb.
  destruct (lookup_group_bound _ _ (Hb _ Hn)) as [[a b] Hl].
  pose proof (lookup_group_In _ _ _ Hl) as Hin.
  rewrite List.Forall_forall in Hcaps.
  specialize (Hcaps _ Hin); cbn [cap_ok] in Hcaps.
  destruct Hcaps as (Ha & Hab & Hb' & at_ & mn & Hat & Hmn & Hall).
  rewrite skipn_skipn_add in Hall.
  replace (m_start m + (a - m_start m))%nat with a in Hall by lia.
  exists at_, mn; unfold group; rewrite Hl, Hsubj.
  split; [exact Hat|]; split; [|exact Hall].
  rewrite length_span by lia; exact Hmn.
Qed.

End GroupFacts.

Section AttributeFacts.

Lemma not_char_ok (x c : ascii) :
  atom_ok DOTALL (not_char x) c = true -> c <> x.
Proof.
  unfold not_char; cbn [atom_ok existsb item_ok]; unfold lit_ok.
  cbn [ignorecase DOTALL].
  intros H ->; rewrite Ascii.eqb_refl in H; discriminate.
Qed.

Lemma not_char_all (x : ascii) (s : str) :
  Forall (fun c => atom_ok DOTALL (not_char x) c = true) s -> ~ In x s.
Proof.
  rewrite List.Forall_forall; intros H Hin.
  exact (not_char_ok x x (H x Hin) eq_refl).
Qed.

Lemma thumbnail_re_groups :
  flat thumbnail_re = true /\
  bound_groups thumbnail_re = [1; 2; 3]%nat /\
  group_atoms thumbnail_re
  = [(1, (not_char "034", 1)); (2, (not_char "034", 1));
     (3, (not_char "034", 0))]%nat.
Proof. repeat split. Qed.

Lemma entry_re_groups :
  flat entry_re = true /\
  bound_groups entry_re = [1; 2; 3]%nat /\
  group_atoms entry_re
  = [(1, (not_char "034", 1)); (2, (ADot, 0)); (3, (ADot, 0))]%nat.
Proof. repeat split. Qed.

(** A group that repeats [[^']] (a double quote, that is) holds none, and
    is as long as the pattern asks for. *)
Lemma quoted_group (r : regex) (s : str) (m : rmatch) (n mn : nat) :
  flat r = true -> is_match DOTALL r s m -> In (S n) (bound_groups r) ->
  (forall at_ mn',
     In (S n, (at_, mn')) (group_atoms r) ->
     at_ = not_char "034" /\ mn' = mn) ->
  (mn <= length (group m (S n)))%nat /\ ~ In "034"%char (group m (S n)).
Proof.
  intros Hf Hm Hn Honly.
  destruct (group_sound DOTALL r s m n Hf Hm Hn) as (at_ & mn' & Hat & Hmn & Hall).
  destruct (Honly _ _ Hat) as [-> ->].
  split; [exact Hmn | apply not_char_all, Hall].
Qed.

Ltac pick_group :=
  intros at_ mn' Hin; cbn [In] in Hin;
  repeat (destruct Hin as [Hin|Hin]; [try discriminate Hin|]);
  [injection Hin as <- <-; split; reflexivity | destruct Hin].

(** X16. The values that [transform_gallery_index] copies between double
    quotes cannot end the attribute they are put in.  Of every thumbnail
    the link and the image source are not empty, and the link, the source
    and the alternative text hold no double quote; of every entry of an
    index the link is not empty and holds no double quote.  The markup
    returned is made of these thumbnails, or else of these entries. *)
Theorem transform_gallery_index_attributes (idx_inner : str) :
  let thumbnails := findall3 thumbnail_re idx_inner DOTALL in
  let entries := finditer entry_re idx_inner DOTALL in
  Forall (fun t : str * str * str =>
            let '(href, src, alt) := t in
            href <> [] /\ src <> [] /\
            ~ In "034"%char href /\ ~ In "034"%char src /\ ~ In "034"%char alt)
         thumbnails /\
  Forall (fun entry => group entry 1 <> [] /\ ~ In "034"%char (group entry 1))
         entries /\
  transform_gallery_index idx_inner
  = if nonempty thumbnails
    then qq "<div class='gallery-grid'>" ++ nl
         ++ join nl (map gallery_item thumbnails) ++ nl ++ py "</div>"
    else if nonempty entries
         then qq "<ul class='index-list'>" ++ nl
              ++ join nl (map index_item entries) ++ nl ++ py "</ul>"
         else [].
Proof.
  cbv zeta.
  destruct thumbnail_re_groups as (Hft & Hbt & Hat).
  destruct entry_re_groups as (Hfe & Hbe & Hae).
  split; [|split].
  - unfold findall3, finditer; apply List.Forall_map.
    eapply List.Forall_impl; [|apply matches_from_is_match].
    intros m Hm.
    destruct (quoted_group thumbnail_re idx_inner m 0 1 Hft Hm) as [H1 Q1];
      [rewrite Hbt; cbn; tauto | rewrite Hat; pick_group |].
    destruct (quoted_group thumbnail_re idx_inner m 1 1 Hft Hm) as [H2 Q2];
      [rewrite Hbt; cbn; tauto | rewrite Hat; pick_group |].
    destruct (quoted_group thumbnail_re idx_inner m 2 0 Hft Hm) as [_ Q3];
      [rewrite Hbt; cbn; tauto | rewrite Hat; pick_group |].
    repeat split; try assumption.
    + intros E; rewrite E in H1; cbn [length] in H1; lia.
    + intros E; rewrite E in H2; cbn [length] in H2; lia.
  - unfold finditer.
    eapply List.Forall_impl; [|apply matches_from_is_match].
    intros m Hm.
    destruct (quoted_group entry_re idx_inner m 0 1 Hfe Hm) as [H1 Q1];
      [rewrite Hbe; cbn; tauto | rewrite Hae; pick_group |].
    split; [|exact Q1].
    intros E; rewrite E in H1; cbn [length] in H1; lia.
  - unfold transform_gallery_index; cbv zeta.
    destruct (nonempty (findall3 thumbnail_re idx_inner DOTALL)); [reflexivity|].
    destruct (nonempty (finditer entry_re idx_inner DOTALL)); reflexivity.
Qed.

End AttributeFacts.

(** ** A grid or a list, never both *)

Section ExclusiveFacts.

Lemma gallery_item_image_link (t : str * str * str) :
  gallery_item t = image_link t.
Proof.
  destruct t as [[href src] alt]; unfold gallery_item, image_link.
  rewrite <- ?app_assoc; reflexivity.
Qed.

Lemma index_item_titled_item (entry : rmatch) :
  index_item entry = titled_item (entry_fields entry).
Proof.
  unfold index_item, entry_fields, titled_item; cbv zeta.
  destruct (nonempty _); rewrite <- ?app_assoc; reflexivity.
Qed.

Lemma grid_container_of (thumbnails : list (str * str * str)) :
  qq "<div class='gallery-grid'>" ++ nl
  ++ join nl (map gallery_item thumbnails) ++ nl ++ py "</div>"
  = grid_container thumbnails.
Proof.
  unfold grid_container.
  rewrite (map_ext _ _ gallery_item_image_link thumbnails); reflexivity.
Qed.

Lemma titled_list_of (entries : list rmatch) :
  qq "<ul class='index-list'>" ++ nl
  ++ join nl (map index_item entries) ++ nl ++ py "</ul>"
  = titled_list (map entry_fields entries).
Proof.
  unfold titled_list.
  rewrite map_map, (map_ext _ _ index_item_titled_item entries); reflexivity.
Qed.

Ltac the_group :=
  intros at_ mn' Hin; cbn [In] in Hin;
  repeat (destruct Hin as [Hin|Hin]; [try discriminate Hin|]);
  [injection Hin as <- <-; split; reflexivity | destruct Hin].

(** No attribute value of a thumbnail holds a double quote. *)
Lemma thumbnails_closed (idx_inner : str) :
  Forall (fun t : str * str * str =>
            let '(href, src, alt) := t in
            ~ In "034"%char href /\ ~ In "034"%char src /\ ~ In "034"%char alt)
         (findall3 thumbnail_re idx_inner DOTALL).
Proof.
  destruct thumbnail_re_groups as (Hft & Hbt & Hat).
  unfold findall3, finditer; apply List.Forall_map.
  eapply List.Forall_impl; [|apply matches_from_is_match].
  intros m Hm.
  destruct (quoted_group thumbnail_re idx_inner m 0 1 Hft Hm) as [_ Q1];
    [rewrite Hbt; cbn; tauto | rewrite Hat; the_group |].
  destruct (quoted_group thumbnail_re idx_inner m 1 1 Hft Hm) as [_ Q2];
    [rewrite Hbt; cbn; tauto | rewrite Hat; the_group |].
  destruct (quoted_group thumbnail_re idx_inner m 2 0 Hft Hm) as [_ Q3];
    [rewrite Hbt; cbn; tauto | rewrite Hat; the_group |].
  repeat split; assumption.
Qed.

(** No link target of an entry holds a double quote. *)
Lemma entries_closed (idx_inner : str) :
  Forall (fun e : str * str * str =>
            let '(href, _, _) := e in ~ In "034"%char href)
         (map entry_fields (finditer entry_re idx_inner DOTALL)).
Proof.
  destruct entry_re_groups as (Hfe & Hbe & Hae).
  unfold finditer; apply List.Forall_map.
  eapply List.Forall_impl; [|apply matches_from_is_match].
  intros m Hm.
  destruct (quoted_group entry_re idx_inner m 0 1 Hfe Hm) as [_ Q1];
    [rewrite Hbe; cbn; tauto | rewrite Hae; the_group |].
  exact Q1.
Qed.

(** A grid container and a titled list differ from their second character
    on. *)
Lemma grid_not_list (items entries : list (str * str * str)) :
  grid_container items <> titled_list entries.
Proof.
  intros E; apply (f_equal (firstn 2)) in E.
  discriminate E.
Qed.

Lemma nonempty_not_nil {A} (l : list A) : nonempty l = true -> l <> [].
Proof. destruct l; [discriminate | discriminate]. Qed.

(** C5. One call of [transform_gallery_index] produces a gallery grid or a
    titled list, never both.  When the thumbnail pattern matches somewhere,
    whatever the entry pattern does, the answer is the grid container of
    the thumbnails found, one image link for each and nothing else: a
    gallery grid, and not a titled list.  When the thumbnail pattern
    matches nowhere and the entry pattern matches, the answer is the titled
    list of the entries found, one item for each and nothing else: a titled
    list, and not a gallery grid.  Otherwise the answer is empty. *)
Theorem transform_gallery_index_exclusive (idx_inner : str) :
  let out := transform_gallery_index idx_inner in
  let thumbnails := findall3 thumbnail_re idx_inner DOTALL in
  let entries := finditer entry_re idx_inner DOTALL in
  match search thumbnail_re idx_inner DOTALL, search entry_re idx_inner DOTALL with
  | Some _, _ =>
    thumbnails <> [] /\ out = grid_container thumbnails /\
    is_gallery_grid out /\ ~ is_index_list out
  | None, Some _ =>
    thumbnails = [] /\ entries <> [] /\
    out = titled_list (map entry_fields entries) /\
    is_index_list out /\ ~ is_gallery_grid out
  | None, None => out = []
  end.
Proof.
  cbv zeta.
  pose proof (nonempty_finditer thumbnail_re idx_inner DOTALL) as Ht.
  pose proof (nonempty_finditer entry_re idx_inner DOTALL) as He.
  pose proof (thumbnails_closed idx_inner) as Hct.
  pose proof (entries_closed idx_inner) as Hce.
  unfold transform_gallery_index; cbv zeta.
  rewrite grid_container_of, titled_list_of.
  unfold findall3 in *; rewrite nonempty_map.
  destruct (search thumbnail_re idx_inner DOTALL) as [mt|].
  - rewrite Ht.
    assert (Hne : map (fun m => (group m 1, group m 2, group m 3))
                      (finditer thumbnail_re idx_inner DOTALL) <> []).
    { intros E; apply map_eq_nil in E; rewrite E in Ht; discriminate Ht. }
    split; [exact Hne|]; split; [reflexivity|]; split.
    + eexists; split; [exact Hne|]; split; [exact Hct | reflexivity].
    + intros (items & _ & _ & E); exact (grid_not_list _ _ E).
  - rewrite Ht.
    destruct (search entry_re idx_inner DOTALL) as [me|]; rewrite He;
      cbn [negb].
    + assert (Hnil : finditer thumbnail_re idx_inner DOTALL = [])
        by (destruct (finditer thumbnail_re idx_inner DOTALL);
            [reflexivity | discriminate Ht]).
      assert (Hne : finditer entry_re idx_inner DOTALL <> [])
        by (apply nonempty_not_nil, He).
      split; [rewrite Hnil; reflexivity|]; split; [exact Hne|].
      split; [reflexivity|]; split.
      * eexists; split; [|split; [exact Hce | reflexivity]].
        intros E; apply map_eq_nil in E; exact (Hne E).
      * intros (items & _ & _ & E); symmetry in E; exact (grid_not_list _ _ E).
    + reflexivity.
Qed.

End ExclusiveFacts.

(** ** How a substitution goes through the text *)

Section ScanFacts.

Variable fl : flags.

(** Where [search_from] finds nothing, no match begins. *)
Lemma search_from_none (r : regex) (subj : str) :
  forall (rest : str) (p : nat) (prev : option ascii),
  search_from fl r subj p prev rest = None ->
  forall i, (i <= length rest)%nat ->
  exists prev', run fl r (p + i) prev' (skipn i rest) [] accept = None.
Proof.
  induction rest as [|c rest IH]; intros p prev H i Hi; cbn [search_from] in H.
  - cbn [length] in Hi; assert (i = 0)%nat as -> by lia.
    exists prev; rewrite Nat.add_0_r; cbn [skipn].
    destruct (run fl r p prev [] [] accept) as [[e cs]|]; [discriminate | reflexivity].
  - destruct (run fl r p prev (c :: rest) [] accept) as [[e cs]|] eqn:E;
      [discriminate|].
    destruct i as [|i].
    + exists prev; rewrite Nat.add_0_r; exact E.
    + cbn [length] in Hi.
      destruct (IH _ _ H i ltac:(lia)) as [prev' Hr].
      exists prev'; cbn [skipn].
      replace (p + S i)%nat with (S p + i)%nat by lia; exact Hr.
Qed.

(** The match [search_from] finds is the first. *)
Lemma search_from_first (r : regex) (subj : str) :
  forall (rest : str) (p : nat) (prev : option ascii) (m : rmatch),
  search_from fl r subj p prev rest = Some m ->
  (p <= m_start m)%nat /\
  (exists prev',
     run fl r (m_start m) prev' (skipn (m_start m - p) rest) [] accept
     = Some (m_end m, m_caps m)) /\
  forall i, (i < m_start m - p)%nat ->
  exists prev', run fl r (p + i) prev' (skipn i rest) [] accept = None.
Proof.
  induction rest as [|c rest IH]; intros p prev m H; cbn [search_from] in H.
  - destruct (run fl r p prev [] [] accept) as [[e cs]|] eqn:E; [|discriminate].
    injection H as <-; cbn [m_start m_end m_caps].
    rewrite Nat.sub_diag; split; [lia|]; split; [exists prev; exact E|].
    intros i Hi; lia.
  - destruct (run fl r p prev (c :: rest) [] accept) as [[e cs]|] eqn:E.
    + injection H as <-; cbn [m_start m_end m_caps].
      rewrite Nat.sub_diag; split; [lia|]; split; [exists prev; exact E|].
      intros i Hi; lia.
    + destruct (IH _ _ _ H) as (Hle & [prev' Hrun] & Hbefore).
      split; [lia|]; split.
      * exists prev'.
        replace (m_start m - p)%nat with (S (m_start m - S p)) by lia.
        exact Hrun.
      * intros [|i] Hi.
        -- exists prev; rewrite Nat.add_0_r; exact E.
        -- destruct (Hbefore i ltac:(lia)) as [prev'' Hr].
           exists prev''; cbn [skipn].
           replace (p + S i)%nat with (S p + i)%nat by lia; exact Hr.
Qed.

Lemma search_at_none (r : regex) (s : str) (p : nat) :
  search_at fl r s p = None ->
  forall j, (p <= j <= length s)%nat ->
  exists prev', run fl r j prev' (skipn j s) [] accept = None.
Proof.
  intros H j Hj; unfold search_at in H.
  destruct (search_from_none r s _ _ _ H (j - p)) as [prev' Hr].
  { rewrite length_skipn; lia. }
  exists prev'.
  rewrite skipn_skipn_add in Hr.
  replace (p + (j - p))%nat with j in Hr by lia; exact Hr.
Qed.

Lemma search_at_first (r : regex) (s : str) (p : nat) (m : rmatch) :
  search_at fl r s p = Some m ->
  (exists prev',
     run fl r (m_start m) prev' (skipn (m_start m) s) [] accept
     = Some (m_end m, m_caps m)) /\
  forall j, (p <= j < m_start m)%nat ->
  exists prev', run fl r j prev' (skipn j s) [] accept = None.
Proof.
  intros H; unfold search_at in H.
  destruct (search_from_first r s _ _ _ _ H) as (Hle & [prev' Hrun] & Hbefore).
  split.
  - exists prev'.
    rewrite skipn_skipn_add in Hrun.
    replace (p + (m_start m - p))%nat with (m_start m) in Hrun by lia; exact Hrun.
  - intros j Hj.
    destruct (Hbefore (j - p)%nat ltac:(lia)) as [prev'' Hr].
    exists prev''.
    rewrite skipn_skipn_add in Hr.
    replace (p + (j - p))%nat with j in Hr by lia; exact Hr.
Qed.

(** A substitution by a pattern that matches no empty text, read from left
    to right: a property that holds of the rest of the text where no match
    is left, and that goes from what follows a match to the text from any
    position before it, holds of the whole. *)
Lemma sub_scan (r : regex) (repl : rmatch -> str) (s : str)
    (Q : nat -> str -> Prop) :
  (forall m, is_match fl r s m -> (m_start m < m_end m)%nat) ->
  (forall p, (p <= length s)%nat -> search_at fl r s p = None ->
             Q p (skipn p s)) ->
  (forall p m o,
     (p <= length s)%nat -> search_at fl r s p = Some m ->
     Q (m_end m) o -> Q p (span s p (m_start m) ++ repl m ++ o)) ->
  Q 0%nat (sub r repl s fl).
Proof.
  intros Hne Hbase Hstep.
  assert (H : forall fuel p,
             (length s < fuel + p)%nat -> (p <= length s)%nat ->
             Q p (replace_matches repl s p (matches_from fuel fl r s p))).
  { induction fuel as [|fuel IH]; intros p Hfuel Hp; [lia|].
    cbn [matches_from].
    destruct (Nat.ltb_spec (length s) p) as [|_]; [lia|].
    destruct (search_at fl r s p) as [m|] eqn:E.
    - assert (Hm : is_match fl r s m).
      { unfold search_at in E.
        exact (search_from_is_match fl r s _ p _ m eq_refl Hp E). }
      pose proof (Hne m Hm) as Hlt.
      destruct (search_at_bounds fl r s p m Hp E) as (_ & Hb & He).
      destruct (Nat.eqb_spec (m_end m) (m_start m)) as [|_]; [lia|].
      cbn [replace_matches].
      apply (Hstep p m _ Hp E), IH; lia.
    - cbn [replace_matches]; apply Hbase; assumption. }
  unfold sub, finditer; apply H; lia.
Qed.

End ScanFacts.

(** ** The titles of the index list hold no tag *)

Section PlainFacts.

Lemma atom_not_gt (c : ascii) :
  atom_ok NOFLAGS (not_char ">") c = negb (Ascii.eqb c ">").
Proof.
  unfold not_char; cbn [atom_ok existsb item_ok]; unfold lit_ok.
  cbn [ignorecase NOFLAGS]; rewrite orb_false_r.
  destruct (Ascii.eqb c ">"); reflexivity.
Qed.

(** The repetition of [any_tag_re], with what follows it: it succeeds when
    a [>] comes and a character has been taken before it. *)
Lemma rep_not_gt (rest : str) : forall (cnt p : nat) (prev : option ascii),
  match rep_greedy NOFLAGS (not_char ">") 1 None cnt p prev rest []
          (fun p' prev' rest' cs' =>
             run NOFLAGS (Seq (lit (py ">")) Eps) p' prev' rest' cs' accept) with
  | Some _ => true
  | None => false
  end
  = existsb (fun d => Ascii.eqb d ">") rest
    && ((1 <=? cnt)%nat
        || match rest with
           | c :: _ => negb (Ascii.eqb c ">")
           | [] => false
           end).
Proof.
  induction rest as [|c rest IH]; intros cnt p prev.
  - cbn [rep_greedy existsb andb].
    destruct (1 <=? cnt)%nat; reflexivity.
  - cbn [rep_greedy existsb under andb].
    rewrite atom_not_gt, andb_true_r.
    destruct (Ascii.eqb_spec c ">") as [->|Hne]; cbn [negb orb andb].
    + rewrite orb_false_r.
      destruct (1 <=? cnt)%nat; reflexivity.
    + specialize (IH (S cnt) (S p) (Some c)).
      change (1 <=? S cnt)%nat with true in IH.
      rewrite orb_true_l, andb_true_r in IH.
      rewrite orb_true_r, andb_true_r.
      destruct (rep_greedy NOFLAGS (not_char ">") 1 None (S cnt) (S p) (Some c)
                  rest [] _) as [x|]; [exact IH|].
      rewrite <- IH.
      assert (Hk : run NOFLAGS (Seq (lit (py ">")) Eps) p prev (c :: rest) [] accept
                   = None).
      { unfold lit; cbn [fold_right py list_ascii_of_string run atom_ok].
        unfold lit_ok; cbn [ignorecase NOFLAGS].
        destruct (Ascii.eqb_spec c ">"); [contradiction | reflexivity]. }
      rewrite Hk; destruct (1 <=? cnt)%nat; reflexivity.
Qed.

(** [any_tag_re] matches where a tag begins, and nowhere else. *)
Lemma run_any_tag (s : str) (p : nat) (prev : option ascii) :
  match run NOFLAGS any_tag_re p prev s [] accept with
  | Some _ => true
  | None => false
  end = tag_at s.
Proof.
  destruct s as [|a rest]; [reflexivity|].
  transitivity
    (if Ascii.eqb a "<"
     then match rep_greedy NOFLAGS (not_char ">") 1 None 0 (S p) (Some a) rest []
                  (fun p' prev' rest' cs' =>
                     run NOFLAGS (Seq (lit (py ">")) Eps) p' prev' rest' cs' accept) with
          | Some _ => true
          | None => false
          end
     else false).
  { unfold any_tag_re, seq, lit, plus.
    cbn [fold_right py list_ascii_of_string run atom_ok].
    unfold lit_ok at 1; cbn [ignorecase NOFLAGS].
    destruct (Ascii.eqb a "<"); reflexivity. }
  rewrite rep_not_gt; cbn [Nat.leb orb].
  destruct rest as [|c t]; cbn [tag_at existsb].
  - destruct (Ascii.eqb a "<"); reflexivity.
  - destruct (Ascii.eqb a "<"), (Ascii.eqb c ">"),
      (existsb (fun d => Ascii.eqb d ">") t); reflexivity.
Qed.

Lemma run_any_tag_none (s : str) (p : nat) (prev : option ascii) :
  run NOFLAGS any_tag_re p prev s [] accept = None -> tag_at s = false.
Proof. intros H; rewrite <- (run_any_tag s p prev), H; reflexivity. Qed.

Lemma run_any_tag_some (s : str) (p : nat) (prev : option ascii) (res : nat * caps) :
  run NOFLAGS any_tag_re p prev s [] accept = Some res -> tag_at s = true.
Proof. intros H; rewrite <- (run_any_tag s p prev), H; reflexivity. Qed.

Lemma has_tag_none (t : str) :
  (forall i, (i <= length t)%nat -> tag_at (skipn i t) = false) ->
  has_tag t = false.
Proof.
  induction t as [|c t IH]; intros H.
  - reflexivity.
  - pose proof (H 0%nat ltac:(cbn; lia)) as H0; cbn [skipn] in H0.
    cbn [has_tag]; rewrite H0, IH; [reflexivity|].
    intros i Hi; apply (H (S i)); cbn [length]; lia.
Qed.

Lemma has_tag_app_none (u o : str) :
  (forall i, (i < length u)%nat -> tag_at (skipn i u ++ o) = false) ->
  has_tag o = false -> has_tag (u ++ o) = false.
Proof.
  induction u as [|c u IH]; intros H Ho; [exact Ho|].
  pose proof (H 0%nat ltac:(cbn; lia)) as H0; cbn [skipn app] in H0.
  cbn [app has_tag].
  rewrite H0, IH; [reflexivity| |exact Ho].
  intros i Hi; apply (H (S i)); cbn [length]; lia.
Qed.

Lemma existsb_app_r {A} (f : A -> bool) (a b : list A) :
  existsb f b = true -> existsb f (a ++ b) = true.
Proof. intros H; rewrite existsb_app, H; apply orb_true_r. Qed.

Lemma tag_at_holds_gt (w : str) :
  tag_at w = true -> existsb (fun d => Ascii.eqb d ">") w = true.
Proof.
  destruct w as [|a [|c t]]; try discriminate.
  cbn [tag_at]; intros H; apply andb_true_iff in H as [_ H].
  cbn [existsb]; rewrite H, !orb_true_r; reflexivity.
Qed.

Lemma tag_at_starts (w : str) :
  tag_at w = true ->
  exists t, w = "<"%char :: t /\ startswith w (py ">") = false.
Proof.
  destruct w as [|a [|c t]]; try discriminate.
  cbn [tag_at]; intros H.
  apply andb_true_iff in H as [H _]; apply andb_true_iff in H as [H _].
  apply Ascii.eqb_eq in H as ->.
  eexists; split; reflexivity.
Qed.

(** A [<] that begins no tag although a tag begins further on is followed
    by a [>]: it begins no tag whatever comes in place of the rest. *)
Lemma tag_at_junction (v w o : str) :
  v <> [] -> tag_at w = true -> tag_at (v ++ w) = false ->
  tag_at (v ++ o) = false.
Proof.
  intros Hv Hw H.
  pose proof (tag_at_holds_gt w Hw) as Hgt.
  destruct (tag_at_starts w Hw) as (t & -> & _).
  destruct v as [|a [|d v]]; [contradiction| |].
  - destruct t as [|c t]; [discriminate Hw|].
    cbn [tag_at] in Hw.
    apply andb_true_iff in Hw as [_ Ht].
    cbn [app tag_at existsb] in H.
    rewrite Ht, orb_true_r, andb_true_r in H.
    change (Ascii.eqb "<" ">") with false in H.
    cbn [negb] in H; rewrite andb_true_r in H.
    destruct o as [|x [|y o]]; cbn [app tag_at]; [reflexivity| |];
      rewrite H; reflexivity.
  - cbn [app tag_at] in H |- *.
    rewrite (existsb_app_r _ v _ Hgt), andb_true_r in H.
    rewrite H; reflexivity.
Qed.

(** After the substitution that removes them, no tag is left. *)
Lemma sub_any_tag_plain (s : str) :
  has_tag (sub any_tag_re remove s NOFLAGS) = false.
Proof.
  apply (sub_scan NOFLAGS any_tag_re remove s (fun _ o => has_tag o = false)).
  - intros m Hm.
    destruct (is_match_sound NOFLAGS any_tag_re s m eq_refl Hm) as (Hw & _).
    change (width_out any_tag_re) with 3%nat in Hw; lia.
  - intros p Hp Hnone.
    apply has_tag_none; intros i Hi.
    rewrite length_skipn in Hi.
    destruct (search_at_none NOFLAGS _ _ _ Hnone (p + i)%nat ltac:(lia))
      as [prev' Hr].
    rewrite skipn_skipn_add.
    exact (run_any_tag_none _ _ _ Hr).
  - intros p m o Hp Hsome Ho.
    destruct (search_at_bounds NOFLAGS _ _ _ _ Hp Hsome) as (_ & Hb & He).
    destruct (search_at_first NOFLAGS _ _ _ _ Hsome) as ([prev' Hrun] & Hbefore).
    apply run_any_tag_some in Hrun.
    unfold remove at 1; cbn [app].
    apply has_tag_app_none; [|exact Ho].
    intros i Hi.
    rewrite length_span in Hi by lia.
    destruct (Hbefore (p + i)%nat ltac:(lia)) as [prev'' Hr].
    apply run_any_tag_none in Hr.
    apply (tag_at_junction _ (skipn (m_start m) s)); [|exact Hrun|].
    + intros E; apply (f_equal (@length ascii)) in E.
      rewrite length_skipn, length_span in E by lia.
      cbn [length] in E; lia.
    + rewrite <- Hr; f_equal.
      rewrite <- skipn_skipn_add.
      rewrite (skipn_span s p (m_start m)) by lia.
      rewrite skipn_app.
      rewrite length_span by lia.
      replace (i - (m_start m - p))%nat with 0%nat by lia.
      reflexivity.
Qed.

Lemma tag_at_prefix (b c : str) : tag_at b = true -> tag_at (b ++ c) = true.
Proof.
  destruct b as [|a [|d t]]; try discriminate.
  cbn [app tag_at]; intros H.
  apply andb_true_iff in H as [H1 H2].
  rewrite H1, existsb_app, H2; reflexivity.
Qed.

Lemma has_tag_prefix (b c : str) : has_tag b = true -> has_tag (b ++ c) = true.
Proof.
  induction b as [|a b IH]; [discriminate|].
  cbn [app has_tag]; intros H.
  apply orb_true_iff in H as [H|H].
  - change (a :: b ++ c) with ((a :: b) ++ c).
    rewrite (tag_at_prefix _ c H); reflexivity.
  - rewrite (IH H); apply orb_true_r.
Qed.

Lemma has_tag_suffix (a b : str) : has_tag b = true -> has_tag (a ++ b) = true.
Proof.
  intros H; induction a as [|c a IH]; [exact H|].
  cbn [app has_tag]; rewrite IH; apply orb_true_r.
Qed.

Lemma has_tag_strip (s : str) : has_tag s = false -> has_tag (strip s) = false.
Proof.
  intros H.
  destruct (has_tag (strip s)) eqn:E; [|reflexivity].
  unfold strip in *.
  destruct (rstrip_prefix (lstrip s)) as [y Hy].
  destruct (lstrip_suffix s) as [x Hx].
  rewrite Hx, Hy in H.
  rewrite (has_tag_suffix x _ (has_tag_prefix _ y E)) in H; discriminate.
Qed.

(** X17. The text of a link of the index list is plain: in the item that
    [index_item] makes of an entry, the link text holds no tag (no [<]
    that is followed by a character other than [>] and, further on, by a
    [>]) and has no white space at either end. *)
Theorem index_item_title_plain (entry : rmatch) :
  exists title after_link : str,
    index_item entry
    = qq "<li><a href='" ++ group entry 1 ++ qq "'>" ++ title ++ py "</a>"
      ++ after_link ++ py "</li>" /\
    has_tag title = false /\ strip title = title.
Proof.
  exists (strip (sub any_tag_re (fun _ => []) (group entry 2) NOFLAGS)).
  unfold index_item; cbv zeta.
  set (title := strip (sub any_tag_re (fun _ => []) (group entry 2) NOFLAGS)).
  set (summary := match search summary_re (group entry 3) DOTALL with
                  | Some sm => strip (group sm 1)
                  | None => []
                  end).
  exists (if nonempty summary
          then nl ++ qq "<div class='summary'>" ++ summary ++ py "</div>"
          else []).
  split; [|split].
  - destruct (nonempty summary); rewrite <- ?app_assoc; reflexivity.
  - apply has_tag_strip, sub_any_tag_plain.
  - apply strip_strip.
Qed.

End PlainFacts.

(** ** No line of the cleaned content ends with a space or a tab *)

Section LineFacts.

Lemma atom_blank (c : ascii) :
  atom_ok NOFLAGS (ASet false [ILit " "; ILit "009"]) c = is_blank c.
Proof.
  cbn [atom_ok existsb item_ok xorb]; unfold lit_ok, is_blank.
  cbn [ignorecase NOFLAGS]; rewrite orb_false_r; reflexivity.
Qed.

Lemma is_blank_not_nl (c : ascii) : is_blank c = true -> Ascii.eqb c "010" = false.
Proof.
  unfold is_blank; intros H.
  destruct (Ascii.eqb_spec c "010") as [->|]; [discriminate H | reflexivity].
Qed.

Lemma startswith_nl (c : ascii) (t : str) :
  startswith (c :: t) nl = Ascii.eqb c "010".
Proof.
  unfold nl; cbn [startswith]; rewrite andb_true_r; apply Ascii.eqb_sym.
Qed.

(** The repetition of [trailing_space_re], with what follows it. *)
Lemma rep_blank (rest : str) : forall (cnt p : nat) (prev : option ascii),
  match rep_greedy NOFLAGS (ASet false [ILit " "; ILit "009"]) 1 None cnt p prev
          rest []
          (fun p' prev' rest' cs' =>
             run NOFLAGS (Seq (lit nl) Eps) p' prev' rest' cs' accept) with
  | Some _ => true
  | None => false
  end
  = (1 <=? cnt)%nat && startswith rest nl || line_end_at rest.
Proof.
  induction rest as [|c rest IH]; intros cnt p prev.
  - cbn [rep_greedy line_end_at startswith nl].
    destruct (1 <=? cnt)%nat; reflexivity.
  - cbn [rep_greedy under line_end_at].
    rewrite atom_blank, andb_true_r, startswith_nl.
    assert (Hk : run NOFLAGS (Seq (lit nl) Eps) p prev (c :: rest) [] accept
                 = if Ascii.eqb c "010" then Some (S p, []) else None).
    { unfold lit, nl; cbn [fold_right run atom_ok].
      unfold lit_ok; cbn [ignorecase NOFLAGS].
      destruct (Ascii.eqb c "010"); reflexivity. }
    destruct (is_blank c) eqn:Eb; cbn [andb].
    + rewrite (is_blank_not_nl c Eb), andb_false_r; cbn [orb].
      specialize (IH (S cnt) (S p) (Some c)).
      change (1 <=? S cnt)%nat with true in IH; cbn [andb] in IH.
      destruct (rep_greedy NOFLAGS _ 1 None (S cnt) (S p) (Some c) rest [] _)
        as [x|]; [exact IH|].
      rewrite <- IH, Hk, (is_blank_not_nl c Eb).
      destruct (1 <=? cnt)%nat; reflexivity.
    + rewrite orb_false_r, Hk.
      destruct (1 <=? cnt)%nat, (Ascii.eqb c "010"); reflexivity.
Qed.

(** [trailing_space_re] matches where spaces and tabs end a line, and
    nowhere else. *)
Lemma run_trailing_space (s : str) (p : nat) (prev : option ascii) :
  match run NOFLAGS trailing_space_re p prev s [] accept with
  | Some _ => true
  | None => false
  end = line_end_at s.
Proof.
  transitivity
    (match rep_greedy NOFLAGS (ASet false [ILit " "; ILit "009"]) 1 None 0 p prev
             s []
             (fun p' prev' rest' cs' =>
                run NOFLAGS (Seq (lit nl) Eps) p' prev' rest' cs' accept) with
     | Some _ => true
     | None => false
     end).
  { reflexivity. }
  rewrite rep_blank; reflexivity.
Qed.

Lemma run_trailing_space_none (s : str) (p : nat) (prev : option ascii) :
  run NOFLAGS trailing_space_re p prev s [] accept = None -> line_end_at s = false.
Proof. intros H; rewrite <- (run_trailing_space s p prev), H; reflexivity. Qed.

Lemma run_trailing_space_some (s : str) (p : nat) (prev : option ascii)
    (res : nat * caps) :
  run NOFLAGS trailing_space_re p prev s [] accept = Some res ->
  line_end_at s = true.
Proof. intros H; rewrite <- (run_trailing_space s p prev), H; reflexivity. Qed.

Lemma blank_nl_line_end (s : str) : line_end_at s = false -> blank_nl_at s = false.
Proof.
  destruct s as [|c t]; [reflexivity|].
  cbn [line_end_at blank_nl_at].
  destruct (is_blank c); [|reflexivity].
  cbn [andb]; intros H; apply orb_false_iff in H as [H _]; exact H.
Qed.

Lemma has_trailing_blank_none (t : str) :
  (forall i, (i <= length t)%nat -> blank_nl_at (skipn i t) = false) ->
  has_trailing_blank t = false.
Proof.
  induction t as [|c t IH]; intros H; [reflexivity|].
  pose proof (H 0%nat ltac:(cbn; lia)) as H0; cbn [skipn] in H0.
  cbn [has_trailing_blank]; rewrite H0, IH; [reflexivity|].
  intros i Hi; apply (H (S i)); cbn [length]; lia.
Qed.

Lemma has_trailing_blank_app_none (u o : str) :
  (forall i, (i < length u)%nat -> blank_nl_at (skipn i u ++ o) = false) ->
  has_trailing_blank o = false -> has_trailing_blank (u ++ o) = false.
Proof.
  induction u as [|c u IH]; intros H Ho; [exact Ho|].
  pose proof (H 0%nat ltac:(cbn; lia)) as H0; cbn [skipn app] in H0.
  cbn [app has_trailing_blank].
  rewrite H0, IH; [reflexivity| |exact Ho].
  intros i Hi; apply (H (S i)); cbn [length]; lia.
Qed.

(** Before a match, a blank that ends no line keeps ending none when the
    match is replaced by a line feed. *)
Lemma blank_nl_junction (v w o : str) :
  v <> [] -> line_end_at w = true -> line_end_at (v ++ w) = false ->
  blank_nl_at (v ++ nl ++ o) = false.
Proof.
  intros Hv Hw H.
  destruct v as [|c [|d v]]; [contradiction| |].
  - cbn [app line_end_at] in H.
    rewrite Hw, orb_true_r, andb_true_r in H.
    cbn [app blank_nl_at]; rewrite H; reflexivity.
  - cbn [app line_end_at] in H.
    cbn [app blank_nl_at].
    destruct (is_blank c); [|reflexivity].
    cbn [andb] in H |- *.
    apply orb_false_iff in H as [H _].
    rewrite startswith_nl in H |- *; exact H.
Qed.

(** After the substitution, no space or tab stands before a line feed. *)
Lemma sub_trailing_space_clean (s : str) :
  has_trailing_blank (sub trailing_space_re (fun _ => nl) s NOFLAGS) = false.
Proof.
  apply (sub_scan NOFLAGS trailing_space_re (fun _ => nl) s
           (fun _ o => has_trailing_blank o = false)).
  - intros m Hm.
    destruct (is_match_sound NOFLAGS trailing_space_re s m eq_refl Hm) as (Hw & _).
    change (width_out trailing_space_re) with 2%nat in Hw; lia.
  - intros p Hp Hnone.
    apply has_trailing_blank_none; intros i Hi.
    rewrite length_skipn in Hi.
    destruct (search_at_none NOFLAGS _ _ _ Hnone (p + i)%nat ltac:(lia))
      as [prev' Hr].
    rewrite skipn_skipn_add.
    exact (blank_nl_line_end _ (run_trailing_space_none _ _ _ Hr)).
  - intros p m o Hp Hsome Ho.
    destruct (search_at_bounds NOFLAGS _ _ _ _ Hp Hsome) as (_ & Hb & He).
    destruct (search_at_first NOFLAGS _ _ _ _ Hsome) as ([prev' Hrun] & Hbefore).
    apply run_trailing_space_some in Hrun.
    apply has_trailing_blank_app_none.
    + intros i Hi.
      rewrite length_span in Hi by lia.
      destruct (Hbefore (p + i)%nat ltac:(lia)) as [prev'' Hr].
      apply run_trailing_space_none in Hr.
      apply (blank_nl_junction _ (skipn (m_start m) s)); [|exact Hrun|].
      * intros E; apply (f_equal (@length ascii)) in E.
        rewrite length_skipn, length_span in E by lia.
        cbn [length] in E; lia.
      * rewrite <- Hr; f_equal.
        rewrite <- skipn_skipn_add.
        rewrite (skipn_span s p (m_start m)) by lia.
        rewrite skipn_app.
        rewrite length_span by lia.
        replace (i - (m_start m - p))%nat with 0%nat by lia.
        reflexivity.
    + unfold nl; cbn [app has_trailing_blank blank_nl_at].
      rewrite Ho; reflexivity.
Qed.

Lemma blank_nl_at_prefix (b c : str) :
  blank_nl_at b = true -> blank_nl_at (b ++ c) = true.
Proof.
  destruct b as [|a [|d t]]; try discriminate.
  - cbn [blank_nl_at]; rewrite andb_false_r; discriminate.
  - cbn [app blank_nl_at]; rewrite !startswith_nl; auto.
Qed.

Lemma has_trailing_blank_prefix (b c : str) :
  has_trailing_blank b = true -> has_trailing_blank (b ++ c) = true.
Proof.
  induction b as [|a b IH]; [discriminate|].
  cbn [app has_trailing_blank]; intros H.
  apply orb_true_iff in H as [H|H].
  - change (a :: b ++ c) with ((a :: b) ++ c).
    rewrite (blank_nl_at_prefix _ c H); reflexivity.
  - rewrite (IH H); apply orb_true_r.
Qed.

Lemma has_trailing_blank_suffix (a b : str) :
  has_trailing_blank b = true -> has_trailing_blank (a ++ b) = true.
Proof.
  intros H; induction a as [|c a IH]; [exact H|].
  cbn [app has_trailing_blank]; rewrite IH; apply orb_true_r.
Qed.

Lemma has_trailing_blank_strip (s : str) :
  has_trailing_blank s = false -> has_trailing_blank (strip s) = false.
Proof.
  intros H.
  destruct (has_trailing_blank (strip s)) eqn:E; [|reflexivity].
  unfold strip in *.
  destruct (rstrip_prefix (lstrip s)) as [y Hy].
  destruct (lstrip_suffix s) as [x Hx].
  rewrite Hx, Hy in H.
  rewrite (has_trailing_blank_suffix x _ (has_trailing_blank_prefix _ y E)) in H.
  discriminate.
Qed.

(** X18. The cleaned content has tidy lines: whenever [clean_content]
    returns, no space or tab of its answer stands right before a line feed,
    and the answer has no white space at either end, so no line of it ends
    with a space or a tab. *)
Theorem clean_content_lines (content out : str) :
  clean_content content = Some out ->
  has_trailing_blank out = false /\ strip out = out.
Proof.
  rewrite clean_content_unfold.
  destruct (balance_divs (clean_rules content)) as [balanced|]; [|discriminate].
  intros H; apply (inj Some) in H; rewrite <- H; clear H.
  split; [|apply strip_strip].
  apply has_trailing_blank_strip, sub_trailing_space_clean.
Qed.

Lemma clean_content_lines_witness :
  has_trailing_blank legacy_article = true /\
  exists out, clean_content legacy_article = Some out /\
              has_trailing_blank out = false /\ strip out = out.
Proof.
  split; [vm_compute; reflexivity|].
  destruct (clean_content legacy_article) as [out|] eqn:E.
  - exists out; split; [reflexivity|].
    apply clean_content_lines with (content := legacy_article); exact E.
  - vm_compute in E; discriminate E.
Defined.

End LineFacts.

(** ** What the last loop of [main] leaves alone *)

Section SafeFacts.

Variable SITE_ROOT : str.

(** The loop changes no document outside its list. *)
Lemma main_loop_outside (originals : gmap path str) (paths : list path) :
  forall (modified : Z) (w : world) (modified' : Z) (w' : world),
  main_loop SITE_ROOT paths originals modified w = Some (modified', w') ->
  forall p, ~ In p paths -> files w' !! p = files w !! p.
Proof.
  induction paths as [|p0 paths IH]; intros modified w modified' w' H p Hp.
  { cbn [main_loop] in H; injection H as _ <-; reflexivity. }
  assert (Hne : p <> p0) by (intros ->; apply Hp; left; reflexivity).
  assert (Hout : ~ In p paths) by (intros Hc; apply Hp; right; exact Hc).
  cbn [main_loop] in H.
  destruct (originals !! p0) as [html0|]; [|exact (IH _ _ _ _ H p Hout)].
  pose proof (process_file_frame SITE_ROOT p0 html0 w w) as F.
  destruct (process_file SITE_ROOT p0 html0 w) as [[b w1]|];
    cbn [mbind option_bind] in H; [|discriminate].
  destruct F as (w0 & _ & Hother & _).
  destruct b.
  - rewrite (IH _ _ _ _ H p Hout); cbn [print files]; exact (Hother p Hne).
  - rewrite (IH _ _ _ _ H p Hout); exact (Hother p Hne).
Qed.

Lemma discover_kept (found : list path) (p : path) :
  In p (discover found) -> main_skips p = false /\ In p found.
Proof.
  unfold discover; intros H.
  apply list_elem_of_In, list_elem_of_filter in H as [Hk Hin].
  split; [|apply list_elem_of_In; exact Hin].
  destruct (main_skips p); [destruct Hk | reflexivity].
Qed.

(** X19. The last loop of [main] leaves alone what the filter of [main]
    leaves out: when that loop, run over the documents that the filter
    kept, returns, every document the filter skips, every document that was
    not found, and so every document below a directory of [SKIP_DIRS], at
    any depth, holds what it held when the loop began.  This is about the
    filter and the last loop only: what [main] does between them, the
    restoring of the documents from version control when the sample passes
    the test, is no part of it. *)
Theorem main_loop_leaves_skipped (found : list path) (originals : gmap path str)
    (w : world) (modified : Z) (w' : world) :
  main_loop SITE_ROOT (discover found) originals 0 w = Some (modified, w') ->
  (forall p, main_skips p = true \/ ~ In p found ->
             files w' !! p = files w !! p) /\
  (forall (above below : list str) (d name : str),
     In d SKIP_DIRS ->
     files w' !! (above ++ d :: below ++ [name])
     = files w !! (above ++ d :: below ++ [name])).
Proof.
  intros H.
  assert (Hskip : forall p, main_skips p = true \/ ~ In p found ->
                            files w' !! p = files w !! p).
  { intros p Hp.
    apply (main_loop_outside originals (discover found) 0 w modified w' H).
    intros Hin; apply discover_kept in Hin as [Hk Hin].
    destruct Hp as [Hp|Hp]; [congruence | exact (Hp Hin)]. }
  split; [exact Hskip|].
  intros above below d name Hd; apply Hskip; left.
  apply (main_skips_dir _ d Hd).
  replace (above ++ d :: below ++ [name]) with ((above ++ d :: below) ++ [name])
    by (rewrite <- app_assoc; reflexivity).
  rewrite removelast_snoc; apply in_or_app; right; left; reflexivity.
Qed.

End SafeFacts.

Lemma main_loop_leaves_skipped_witness :
  exists modified w',
    main_loop (py "/site")
      (discover [[py "_tools"; py "b.html"]; [py "a.html"]])
      {[ [py "a.html"] := legacy_page; [py "_tools"; py "b.html"] := legacy_page ]}
      0
      {| files := {[ [py "a.html"] := legacy_page;
                     [py "_tools"; py "b.html"] := legacy_page ]};
         stdout := [] |}
    = Some (modified, w') /\
    files w' !! [py "_tools"; py "b.html"] = Some legacy_page.
Proof.
  destruct (main_loop _ _ _ _ _) as [[modified w']|] eqn:E.
  - exists modified, w'; split; [reflexivity|].
    destruct (main_loop_leaves_skipped _ _ _ _ _ _ E) as [_ H].
    etransitivity; [exact (H [] [] (py "_tools") (py "b.html")
                             ltac:(cbn; tauto))|].
    vm_compute; reflexivity.
  - vm_compute in E; discriminate E.
Defined.
